(** * ETF Filings Monitor dashboard (static/app.js): link resolution,
      identifier normalisation, filtering, sorting, metrics and refresh.

    The development is a shallow embedding of [static/app.js].
    JavaScript strings are modelled by [string]; the model is that of
    ASCII text: case conversion and the white space of [trim] are those
    of the code units below 128, the others are left alone.  Record
    fields that the script reads through [x || ""] are strings, the empty
    string standing for a missing, [null] or [undefined] field.

    The platform is modelled where the script calls it: [Number.parseInt]
    and [String] on integers ([JsNumber]), the [URL] constructor
    ([Whatwg], and a parameter of the link functions), [Date.parse] and
    the locale renderings (parameters), [Array.prototype.sort] (a stable
    insertion sort), [Promise.all] and the page elements. *)

From Stdlib Require Import ZArith Lia Bool List Ascii String.
From Stdlib Require Import Permutation Sorted.
Import ListNotations.

Local Open Scope string_scope.
Local Open Scope Z_scope.

(** ** Platform primitives on strings *)

Module Js.

Definition code (c : ascii) : Z := Z.of_N (N_of_ascii c).

Definition is_digit (c : ascii) : bool :=
  (48 <=? code c) && (code c <=? 57).

Definition is_upper (c : ascii) : bool :=
  (65 <=? code c) && (code c <=? 90).

Definition is_lower (c : ascii) : bool :=
  (97 <=? code c) && (code c <=? 122).

Definition is_alpha (c : ascii) : bool := is_upper c || is_lower c.

(** White space and line terminators of [String.prototype.trim]
    below code unit 128: TAB, LF, VT, FF, CR, SP. *)
Definition is_space (c : ascii) : bool :=
  ((9 <=? code c) && (code c <=? 13)) || (code c =? 32).

(** The case mapping of [toLowerCase] and [toUpperCase] on the code
    units below 128.  The other code units are left as they are, so the
    two functions below are those of the language on ASCII text only:
    a statement about the case of a string is made of ASCII strings. *)
Definition lower_char (c : ascii) : ascii :=
  if is_upper c then ascii_of_N (N_of_ascii c + 32) else c.

Definition upper_char (c : ascii) : ascii :=
  if is_lower c then ascii_of_N (N_of_ascii c - 32) else c.

Fixpoint map (f : ascii -> ascii) (s : string) : string :=
  match s with
  | EmptyString => EmptyString
  | String c r => String (f c) (map f r)
  end.

Fixpoint filter (p : ascii -> bool) (s : string) : string :=
  match s with
  | EmptyString => EmptyString
  | String c r => if p c then String c (filter p r) else filter p r
  end.

Fixpoint forallb (p : ascii -> bool) (s : string) : bool :=
  match s with
  | EmptyString => true
  | String c r => p c && forallb p r
  end.

Definition toLowerCase : string -> string := map lower_char.
Definition toUpperCase : string -> string := map upper_char.

Fixpoint trimStart (s : string) : string :=
  match s with
  | EmptyString => EmptyString
  | String c r => if is_space c then trimStart r else s
  end.

(** [trimEnd] keeps a character when it is not white space or when
    something remains after it. *)
Fixpoint trimEnd (s : string) : string :=
  match s with
  | EmptyString => EmptyString
  | String c r =>
      match trimEnd r with
      | EmptyString => if is_space c then EmptyString else String c EmptyString
      | r' => String c r'
      end
  end.

Definition trim (s : string) : string := trimEnd (trimStart s).

(** Truthiness of a string: [!s] is [is_empty s]. *)
Definition is_empty (s : string) : bool :=
  match s with EmptyString => true | _ => false end.

Definition startsWith (s p : string) : bool := String.prefix p s.

Fixpoint includes (s p : string) : bool :=
  String.prefix p s ||
  match s with
  | EmptyString => false
  | String _ r => includes r p
  end.

Definition endsWith (s p : string) : bool :=
  let n := String.length s in
  let k := String.length p in
  (k <=? n)%nat && String.eqb (String.substring (n - k) k s) p.

(** [s.split(sep)] for a one-character separator, as a list of pieces. *)
Fixpoint split (sep : ascii) (s : string) : list string :=
  match s with
  | EmptyString => [EmptyString]
  | String c r =>
      if Ascii.eqb c sep then EmptyString :: split sep r
      else match split sep r with
           | [] => [String c EmptyString]
           | p :: ps => String c p :: ps
           end
  end.

(** [xs.pop() || ""] on a list of strings. *)
Definition pop_or_empty (xs : list string) : string := List.last xs "".

(** [xs.join(sep)] *)
Fixpoint join (sep : string) (xs : list string) : string :=
  match xs with
  | [] => ""
  | [x] => x
  | x :: r => x ++ sep ++ join sep r
  end.

Fixpoint repeat0 (n : nat) : string :=
  match n with O => "" | S k => String "0" (repeat0 k) end.

End Js.

(** ** Numbers: [Number.parseInt(digits, 10)] and [String(number)]

    [normalizeCik] sends a non-empty string of decimal digits through
    [Number.parseInt] and back through [String].  A JavaScript Number is
    an IEEE 754 binary64 value; on this path it is a non-negative integer
    or [Infinity].  The integer is kept as a [Z], rounded to 53 significant
    bits, ties to even.  [parseInt] reads the exact value of the digits
    (the language lets an implementation replace the digits after the
    20th by zeros); [String] prints the fewest digits that read back as
    the same Number, the closest ones when several do, in exponent
    notation from 10^21 on. *)

Module JsNumber.

Inductive Number : Type :=
| Finite (z : Z)
| Infinity.

Definition digit_value (c : ascii) : Z := Js.code c - 48.

(** Mathematical value of a string of decimal digits. *)
Fixpoint digits_value_from (acc : Z) (s : string) : Z :=
  match s with
  | EmptyString => acc
  | String c r => digits_value_from (10 * acc + digit_value c) r
  end.

Definition digits_value (s : string) : Z := digits_value_from 0 s.

(** Nearest binary64 to a non-negative integer, as an integer. *)
Definition round_binary64 (n : Z) : Z :=
  if n <? 2 ^ 53 then n
  else
    let e := Z.log2 n - 52 in
    let q := n / 2 ^ e in
    let r := n mod 2 ^ e in
    let half := 2 ^ (e - 1) in
    if r <? half then q * 2 ^ e
    else if half <? r then (q + 1) * 2 ^ e
    else if Z.even q then q * 2 ^ e else (q + 1) * 2 ^ e.

Definition to_Number (n : Z) : Number :=
  let v := round_binary64 n in
  if v <? 2 ^ 1024 then Finite v else Infinity.

(** [Number.parseInt(s, 10)] on a non-empty string of digits. *)
Definition parseInt_digits (s : string) : Number := to_Number (digits_value s).

Definition digit_char (d : Z) : ascii := ascii_of_N (Z.to_N (48 + d)).

Fixpoint decimal_from (fuel : nat) (n : Z) (acc : string) : string :=
  match fuel with
  | O => String (digit_char (n mod 10)) acc
  | S f =>
      if n <? 10 then String (digit_char n) acc
      else decimal_from f (n / 10) (String (digit_char (n mod 10)) acc)
  end.

(** Decimal digits of a non-negative integer, most significant first. *)
Definition decimal (n : Z) : string :=
  decimal_from (Z.to_nat (Z.log2 n)) n "".

Definition nb_digits (n : Z) : Z := Z.of_nat (String.length (decimal n)).

(** Candidates [s * 10^m] with [k] digits in [s] that round to [x]
    ([Number::toString], step 5), for one value of [n = m + k]. *)
Definition candidates (x k n : Z) : list (Z * Z) :=
  let m := n - k in
  if m <? 0 then []
  else
    let s0 := x / 10 ^ m in
    List.filter
      (fun sn : Z * Z =>
         let s := fst sn in
         (10 ^ (k - 1) <=? s) && (s <? 10 ^ k)
         && (round_binary64 (s * 10 ^ m) =? x))
      [(s0, n); (s0 + 1, n)].

(** Of the candidates, the one whose value is closest to [x]. *)
Fixpoint closest (x k : Z) (best : Z * Z) (cs : list (Z * Z)) : Z * Z :=
  match cs with
  | [] => best
  | c :: r =>
      if Z.abs (fst c * 10 ^ (snd c - k) - x)
         <? Z.abs (fst best * 10 ^ (snd best - k) - x)
      then closest x k c r else closest x k best r
  end.

(** Smallest [k], searched upwards from [k], with its [s] and [n]. *)
Fixpoint shortest_from (fuel : nat) (x nx k : Z) : Z * Z * Z :=
  match (candidates x k nx ++ candidates x k (nx + 1))%list with
  | c :: r => let b := closest x k c r in (fst b, k, snd b)
  | [] =>
      match fuel with
      | O => (x, nx, nx)
      | S f => shortest_from f x nx (k + 1)
      end
  end.

Definition shortest (x : Z) : Z * Z * Z :=
  let nx := nb_digits x in
  shortest_from (Z.to_nat nx) x nx 1.

(** [Number::toString(x, 10)] for a non-negative integer-valued [x]. *)
Definition toString (x : Number) : string :=
  match x with
  | Infinity => "Infinity"
  | Finite z =>
      if z =? 0 then "0"
      else
        let '(s, k, n) := shortest z in
        if n <=? 21 then decimal s ++ Js.repeat0 (Z.to_nat (n - k))
        else
          match decimal s with
          | String d EmptyString => String d ("e+" ++ decimal (n - 1))
          | String d ds => String d ("." ++ ds ++ "e+" ++ decimal (n - 1))
          | EmptyString => ""
          end
  end.

End JsNumber.

(** ** Identifier normalisation *)

Definition normalizeCik (cik : string) : string :=
  let digits := Js.filter Js.is_digit cik in
  if Js.is_empty digits then ""
  else JsNumber.toString (JsNumber.parseInt_digits digits).

Definition normalizeAccessionDigits (accession : string) : string :=
  Js.filter Js.is_digit accession.

Definition buildEdgarIndexUrl (cik accession : string) : string :=
  let cleanCik := normalizeCik cik in
  let rawAccession := Js.trim accession in
  let cleanAccession := normalizeAccessionDigits accession in
  if Js.is_empty cleanCik || Js.is_empty cleanAccession || Js.is_empty rawAccession
  then ""
  else "https://www.sec.gov/Archives/edgar/data/" ++ cleanCik ++ "/"
       ++ cleanAccession ++ "/" ++ rawAccession ++ "-index.html".

(** ** Abrupt completion: [throw] and [try]/[catch] *)

Inductive completion (A : Type) : Type :=
| Normal (a : A)
| Throw (e : string).

Arguments Normal {A} a.
Arguments Throw {A} e.

Definition bind {A B : Type} (c : completion A) (k : A -> completion B)
  : completion B :=
  match c with
  | Normal a => k a
  | Throw e => Throw e
  end.

Definition try_catch {A : Type} (c : completion A) (h : string -> completion A)
  : completion A :=
  match c with
  | Normal a => Normal a
  | Throw e => h e
  end.

Notation "x <- c ;; k" := (bind c (fun x => k))
  (at level 61, c at next level, right associativity).

(** ** The URL interface

    What the script reads from [new URL(value)]: [hostname], [pathname],
    [searchParams.get("doc")] ([None] for [null]) and [toString()]. *)

Record URL : Type := mkURL {
  hostname : string;
  pathname : string;
  searchParams_get_doc : option string;
  href : string
}.

(** ** A model of the URL parser

    [Whatwg.parse] follows the basic URL parser of the URL Standard, run
    without a base URL, on ASCII input.  Outside the model, and answered
    with a parse failure: [file:] URLs, bracketed (IPv6) hosts, hosts of
    special schemes that need percent-decoding or IDNA processing (a [%],
    a code unit above 127 or a label in [xn--]) and hosts that end in a
    number (IPv4). *)

Module Whatwg.

Definition ch (c : ascii) (d : ascii) : bool := Ascii.eqb c d.

Definition is_c0_or_space (c : ascii) : bool := Js.code c <=? 32.

Definition is_tab_or_newline (c : ascii) : bool :=
  (Js.code c =? 9) || (Js.code c =? 10) || (Js.code c =? 13).

Fixpoint strip_leading (s : string) : string :=
  match s with
  | EmptyString => EmptyString
  | String c r => if is_c0_or_space c then strip_leading r else s
  end.

Fixpoint strip_trailing (s : string) : string :=
  match s with
  | EmptyString => EmptyString
  | String c r =>
      match strip_trailing r with
      | EmptyString =>
          if is_c0_or_space c then EmptyString else String c EmptyString
      | r' => String c r'
      end
  end.

Definition preprocess (s : string) : string :=
  Js.filter (fun c => negb (is_tab_or_newline c))
    (strip_trailing (strip_leading s)).

(** *** Percent-encode sets *)

Definition in_c0_control_set (c : ascii) : bool :=
  (Js.code c <=? 31) || (126 <? Js.code c).

Definition in_fragment_set (c : ascii) : bool :=
  in_c0_control_set c || ch c " " || (Js.code c =? 34) || ch c "<" || ch c ">"
  || ch c "`".

Definition in_query_set (c : ascii) : bool :=
  in_c0_control_set c || ch c " " || (Js.code c =? 34) || ch c "#" || ch c "<"
  || ch c ">".

Definition in_special_query_set (c : ascii) : bool :=
  in_query_set c || ch c "'".

Definition in_path_set (c : ascii) : bool :=
  in_query_set c || ch c "?" || ch c "^" || ch c "`" || ch c "{"
  || ch c "}".

Definition in_userinfo_set (c : ascii) : bool :=
  in_path_set c || ch c "/" || ch c ":" || ch c ";" || ch c "="
  || ch c "@" || ch c "[" || ch c "\" || ch c "]" || ch c "|".

Definition hex_char (n : Z) : ascii :=
  if n <? 10 then ascii_of_N (Z.to_N (48 + n))
  else ascii_of_N (Z.to_N (55 + n)).

Definition encode_char (set : ascii -> bool) (c : ascii) : string :=
  if set c
  then String "%" (String (hex_char (Js.code c / 16))
                     (String (hex_char (Js.code c mod 16)) EmptyString))
  else String c EmptyString.

Fixpoint encode (set : ascii -> bool) (s : string) : string :=
  match s with
  | EmptyString => EmptyString
  | String c r => encode_char set c ++ encode set r
  end.

(** *** Scanning *)

(** The part of [s] before the first character in [stop], and the rest
    from that character on. *)
Fixpoint break (stop : ascii -> bool) (s : string) : string * string :=
  match s with
  | EmptyString => (EmptyString, EmptyString)
  | String c r =>
      if stop c then (EmptyString, s)
      else let (a, b) := break stop r in (String c a, b)
  end.

Fixpoint drop_while (p : ascii -> bool) (s : string) : string :=
  match s with
  | EmptyString => EmptyString
  | String c r => if p c then drop_while p r else s
  end.

Fixpoint existsb (p : ascii -> bool) (s : string) : bool :=
  match s with
  | EmptyString => false
  | String c r => p c || existsb p r
  end.

(** [split_last sep s]: what precedes the last [sep] in [s], if any, and
    what follows it. *)
Fixpoint split_last (sep : ascii) (s : string) : option string * string :=
  match s with
  | EmptyString => (None, EmptyString)
  | String c r =>
      match split_last sep r with
      | (Some a, b) => (Some (String c a), b)
      | (None, b) =>
          if Ascii.eqb c sep then (Some EmptyString, b)
          else (None, String c b)
      end
  end.

(** *** Scheme *)

Definition is_scheme_char (c : ascii) : bool :=
  Js.is_alpha c || Js.is_digit c || ch c "+" || ch c "-" || ch c ".".

Fixpoint scheme_state (s : string) : option (string * string) :=
  match s with
  | EmptyString => None
  | String c r =>
      if ch c ":" then Some (EmptyString, r)
      else if is_scheme_char c then
        match scheme_state r with
        | Some (sc, rest) => Some (String (Js.lower_char c) sc, rest)
        | None => None
        end
      else None
  end.

Definition scheme_start_state (s : string) : option (string * string) :=
  match s with
  | String c _ => if Js.is_alpha c then scheme_state s else None
  | EmptyString => None
  end.

Definition is_special (scheme : string) : bool :=
  String.eqb scheme "http" || String.eqb scheme "https"
  || String.eqb scheme "ftp" || String.eqb scheme "ws"
  || String.eqb scheme "wss" || String.eqb scheme "file".

Definition default_port (scheme : string) : option Z :=
  if String.eqb scheme "http" then Some 80
  else if String.eqb scheme "https" then Some 443
  else if String.eqb scheme "ftp" then Some 21
  else if String.eqb scheme "ws" then Some 80
  else if String.eqb scheme "wss" then Some 443
  else None.

(** *** Host *)

Definition is_forbidden_host (c : ascii) : bool :=
  (Js.code c =? 0) || is_tab_or_newline c || ch c " " || ch c "#"
  || ch c "/" || ch c ":" || ch c "<" || ch c ">" || ch c "?" || ch c "@"
  || ch c "[" || ch c "\" || ch c "]" || ch c "^" || ch c "|".

Definition is_forbidden_domain (c : ascii) : bool :=
  is_forbidden_host c || (Js.code c <=? 31) || ch c "%"
  || (Js.code c =? 127).

Definition is_hex_digit (c : ascii) : bool :=
  Js.is_digit c || ((65 <=? Js.code c) && (Js.code c <=? 70))
  || ((97 <=? Js.code c) && (Js.code c <=? 102)).

(** The last label of [host] is a number in the sense of the IPv4
    parser (decimal, or [0x] followed by hexadecimal digits). *)
Definition ends_in_a_number (host : string) : bool :=
  let parts := Js.split "." host in
  let parts' :=
    match List.rev parts with
    | EmptyString :: ((_ :: _) as r) => List.rev r
    | _ => parts
    end in
  match List.rev parts' with
  | [] => false
  | lastp :: _ =>
      match lastp with
      | EmptyString => false
      | String "0" (String x r) =>
          if ch x "x" || ch x "X" then Js.forallb is_hex_digit r
          else Js.forallb Js.is_digit lastp
      | _ => Js.forallb Js.is_digit lastp
      end
  end.

Definition host_parse (special : bool) (input : string) : option string :=
  match input with
  | String "[" _ => None
  | _ =>
      if special then
        if existsb (fun c => ch c "%" || (127 <? Js.code c)) input then None
        else
          let domain := Js.toLowerCase input in
          if Js.is_empty domain then None
          else if existsb is_forbidden_domain domain then None
          else if List.existsb (String.prefix "xn--") (Js.split "." domain)
          then None
          else if ends_in_a_number domain then None
          else Some domain
      else if existsb is_forbidden_host input then None
      else Some (encode in_c0_control_set input)
  end.

Definition port_value (s : string) : option Z :=
  if Js.forallb Js.is_digit s then
    let v := JsNumber.digits_value s in
    if 65535 <? v then None else Some v
  else None.

(** *** Path *)

Inductive Path : Type :=
| Opaque (s : string)
| Segments (l : list string).

Definition is_slash (special : bool) (c : ascii) : bool :=
  ch c "/" || (special && ch c "\").

Definition is_single_dot (seg : string) : bool :=
  let l := Js.toLowerCase seg in
  String.eqb l "." || String.eqb l "%2e".

Definition is_double_dot (seg : string) : bool :=
  let l := Js.toLowerCase seg in
  String.eqb l ".." || String.eqb l ".%2e" || String.eqb l "%2e."
  || String.eqb l "%2e%2e".

Definition shorten (path : list string) : list string :=
  List.removelast path.

(** A segment closed by a slash. *)
Definition push_segment (buf : string) (path : list string) : list string :=
  if is_double_dot buf then shorten path
  else if is_single_dot buf then path
  else (path ++ [buf])%list.

(** The segment that ends the path. *)
Definition push_final (buf : string) (path : list string) : list string :=
  if is_double_dot buf then (shorten path ++ [EmptyString])%list
  else if is_single_dot buf then (path ++ [EmptyString])%list
  else (path ++ [buf])%list.

(** Path state: reads up to the first [?] or [#]; returns the path and
    the remaining input. *)
Fixpoint path_state (special : bool) (t buf : string) (path : list string)
  : list string * string :=
  match t with
  | EmptyString => (push_final buf path, EmptyString)
  | String c r =>
      if ch c "?" || ch c "#" then (push_final buf path, t)
      else if is_slash special c
      then path_state special r EmptyString (push_segment buf path)
      else path_state special r (buf ++ encode_char in_path_set c) path
  end.

Definition path_start_state (special : bool) (t : string)
  : list string * string :=
  match t with
  | EmptyString =>
      if special then path_state special t EmptyString [] else ([], t)
  | String c r =>
      if is_slash special c then path_state special r EmptyString []
      else if special then path_state special t EmptyString []
      else if ch c "?" || ch c "#" then ([], t)
      else path_state special t EmptyString []
  end.

(** *** Query and fragment *)

Definition query_and_fragment (special : bool) (t : string)
  : option string * option string :=
  let (q, rest) :=
    match t with
    | String "?" r =>
        let (a, b) := break (fun c => ch c "#") r in
        (Some (encode (if special then in_special_query_set
                       else in_query_set) a), b)
    | _ => (None, t)
    end in
  match rest with
  | String "#" f => (q, Some (encode in_fragment_set f))
  | _ => (q, None)
  end.

(** *** The URL record *)

Record Record_ : Type := mkRecord {
  scheme : string;
  username : string;
  password : string;
  host : option string;
  port : option Z;
  path : Path;
  query : option string;
  fragment : option string
}.

(** Authority state, host state and port state on the authority part
    [auth] of the input. *)
Definition authority_state (sc : string) (special : bool) (auth : string)
  : option (string * string * string * option Z) :=
  let (cred, hostport) := split_last "@" auth in
  match cred, hostport with
  | Some _, EmptyString => None
  | _, _ =>
      let (user, pass) :=
        match cred with
        | None => (EmptyString, EmptyString)
        | Some ui =>
            let (u, p) := break (fun c => ch c ":") ui in
            (encode in_userinfo_set u,
             match p with
             | String _ p' => encode in_userinfo_set p'
             | EmptyString => EmptyString
             end)
        end in
      let (h, p) := break (fun c => ch c ":") hostport in
      match p with
      | String _ digits =>
          if Js.is_empty h then None
          else
            match host_parse special h with
            | None => None
            | Some hst =>
                if Js.is_empty digits then Some (user, pass, hst, None)
                else
                  match port_value digits with
                  | None => None
                  | Some v =>
                      if match default_port sc with
                         | Some d => v =? d
                         | None => false
                         end
                      then Some (user, pass, hst, None)
                      else Some (user, pass, hst, Some v)
                  end
            end
      | EmptyString =>
          if special && Js.is_empty h then None
          else
            match host_parse special h with
            | None => None
            | Some hst => Some (user, pass, hst, None)
            end
      end
  end.

Definition basic_parse (input : string) : option Record_ :=
  match scheme_start_state (preprocess input) with
  | None => None
  | Some (sc, rest) =>
      if String.eqb sc "file" then None
      else if is_special sc then
        let t := drop_while (is_slash true) rest in
        let (auth, t') :=
          break (fun c => is_slash true c || ch c "?" || ch c "#") t in
        match authority_state sc true auth with
        | None => None
        | Some (u, pw, h, pt) =>
            let (segs, t'') := path_start_state true t' in
            let (q, f) := query_and_fragment true t'' in
            Some (mkRecord sc u pw (Some h) pt (Segments segs) q f)
        end
      else
        match rest with
        | String "/" (String "/" t) =>
            let (auth, t') :=
              break (fun c => ch c "/" || ch c "?" || ch c "#") t in
            match authority_state sc false auth with
            | None => None
            | Some (u, pw, h, pt) =>
                let (segs, t'') := path_start_state false t' in
                let (q, f) := query_and_fragment false t'' in
                Some (mkRecord sc u pw (Some h) pt (Segments segs) q f)
            end
        | String "/" t =>
            let (segs, t'') := path_state false t EmptyString [] in
            let (q, f) := query_and_fragment false t'' in
            Some (mkRecord sc "" "" None None (Segments segs) q f)
        | _ =>
            let (op, t'') := break (fun c => ch c "?" || ch c "#") rest in
            let (q, f) := query_and_fragment false t'' in
            Some (mkRecord sc "" "" None None
                    (Opaque (encode in_c0_control_set op)) q f)
        end
  end.

(** *** Serialisation and the API getters *)

Fixpoint serialize_segments (l : list string) : string :=
  match l with
  | [] => EmptyString
  | x :: r => String "/" x ++ serialize_segments r
  end.

Definition serialize_path (p : Path) : string :=
  match p with
  | Opaque s => s
  | Segments l => serialize_segments l
  end.

Definition serialize (u : Record_) : string :=
  scheme u ++ ":" ++
  match host u with
  | Some h =>
      "//" ++
      (if Js.is_empty (username u) && Js.is_empty (password u) then ""
       else username u
            ++ (if Js.is_empty (password u) then "" else ":" ++ password u)
            ++ "@")
      ++ h
      ++ match port u with
         | Some p => ":" ++ JsNumber.decimal p
         | None => ""
         end
  | None =>
      match path u with
      | Segments (EmptyString :: _ :: _) => "/."
      | _ => ""
      end
  end
  ++ serialize_path (path u)
  ++ match query u with Some q => "?" ++ q | None => "" end
  ++ match fragment u with Some f => "#" ++ f | None => "" end.

Definition hex_value (c : ascii) : Z :=
  if Js.is_digit c then Js.code c - 48
  else if Js.is_upper c then Js.code c - 55
  else Js.code c - 87.

(** Percent-decoding of the [application/x-www-form-urlencoded] parser,
    [+] standing for a space. *)
Fixpoint form_decode (s : string) : string :=
  match s with
  | EmptyString => EmptyString
  | String c r =>
      if ch c "+" then String " " (form_decode r)
      else
        match c, r with
        | "%"%char, String a (String b r') =>
            if is_hex_digit a && is_hex_digit b
            then String (ascii_of_N (Z.to_N (16 * hex_value a + hex_value b)))
                   (form_decode r')
            else String c (form_decode r)
        | _, _ => String c (form_decode r)
        end
  end.

Fixpoint form_get (name : string) (pairs : list string) : option string :=
  match pairs with
  | [] => None
  | p :: r =>
      if Js.is_empty p then form_get name r
      else
        let (n, v) := break (fun c => ch c "=") p in
        let v' := match v with String _ v0 => v0 | EmptyString => EmptyString end in
        if String.eqb (form_decode n) name then Some (form_decode v')
        else form_get name r
  end.

Definition searchParams_get (u : Record_) (name : string) : option string :=
  match query u with
  | None => None
  | Some q => form_get name (Js.split "&" q)
  end.

Definition api (u : Record_) : URL :=
  mkURL (match host u with Some h => h | None => "" end)
        (serialize_path (path u))
        (searchParams_get u "doc")
        (serialize u).

(** [new URL(input)]: [None] when the constructor throws. *)
Definition parse (input : string) : option URL :=
  option_map api (basic_parse input).

End Whatwg.

(** ** Filing alerts *)

Record Alert : Type := mkAlert {
  company_name : string;
  cik : string;
  accession_number : string;
  form_type : string;
  is_crypto : bool;
  email_sent : bool;
  error : string;
  synopsis : string;
  matched_keywords : list string;
  primary_document_url : string;
  sec_filing_url : string;
  sec_index_url : string;
  created_at : string;
  updated : string
}.

Record Links : Type := mkLinks {
  secLink : string;
  primaryLink : string
}.

(** [a || b] on strings. *)
Definition or_else (a b : string) : string :=
  if Js.is_empty a then b else a.

(** [/sec\.gov$/i.test(hostname)] *)
Definition sec_gov_test (hostname : string) : bool :=
  Js.endsWith (Js.toLowerCase hostname) "sec.gov".

(** [lowerPath.split("/").filter(Boolean).pop() || ""] *)
Definition last_segment (lowerPath : string) : string :=
  Js.pop_or_empty
    (List.filter (fun p => negb (Js.is_empty p)) (Js.split "/" lowerPath)).

Definition is_index_page (last : string) : bool :=
  String.eqb last "index.html" || String.eqb last "index.htm".

(** ** Link resolution

    The functions are written over the platform's URL constructor,
    [URL_parse], which answers [None] where [new URL] throws. *)

Section LinkResolver.

Variable URL_parse : string -> option URL.

Definition new_URL (value : string) : completion URL :=
  match URL_parse value with
  | Some u => Normal u
  | None => Throw "TypeError: Invalid URL"
  end.

Definition canonicalizeSecUrl (url : string) (alert : Alert)
  : completion string :=
  let value := Js.trim url in
  if Js.is_empty value then Normal ""
  else
    try_catch
      (parsed <- new_URL value ;;
       if negb (sec_gov_test (hostname parsed)) then Normal ""
       else
         let path := pathname parsed in
         let lowerPath := Js.toLowerCase path in
         if String.eqb lowerPath "/ix" then
           let docPath :=
             match searchParams_get_doc parsed with
             | Some d => d
             | None => ""
             end in
           if Js.startsWith (Js.toLowerCase docPath) "/archives/"
           then Normal (href parsed)
           else Normal ""
         else if negb (Js.includes lowerPath "/archives/") then Normal ""
         else
           let last := last_segment lowerPath in
           if is_index_page last
           then Normal (buildEdgarIndexUrl (cik alert) (accession_number alert))
           else if negb (Js.includes last ".")
           then Normal (buildEdgarIndexUrl (cik alert) (accession_number alert))
           else Normal (href parsed))
      (fun _ => Normal "").

Definition isUsableSecFilingUrl (url : string) : completion bool :=
  let value := Js.trim url in
  if Js.is_empty value then Normal false
  else
    try_catch
      (parsed <- new_URL value ;;
       if negb (sec_gov_test (hostname parsed)) then Normal false
       else
         let path := pathname parsed in
         if String.eqb path "/" || String.eqb path "" then Normal false
         else
           let lowerPath := Js.toLowerCase path in
           if String.eqb lowerPath "/ix" then
             let docPath :=
               match searchParams_get_doc parsed with
               | Some d => d
               | None => ""
               end in
             Normal (Js.startsWith (Js.toLowerCase docPath) "/archives/")
           else if negb (Js.includes lowerPath "/archives/") then Normal false
           else
             let last := last_segment lowerPath in
             if negb (Js.includes last ".") then Normal false
             else if is_index_page last then Normal false
             else Normal true)
      (fun _ => Normal false).

Definition toIxViewerUrl (url : string) : completion string :=
  let value := Js.trim url in
  if Js.is_empty value then Normal ""
  else
    try_catch
      (parsed <- new_URL value ;;
       if negb (sec_gov_test (hostname parsed)) then Normal ""
       else
         let lowerPath := Js.toLowerCase (pathname parsed) in
         if String.eqb lowerPath "/ix" then Normal (href parsed)
         else if negb (Js.includes lowerPath "/archives/") then Normal ""
         else
           let last := last_segment lowerPath in
           if negb (Js.includes last ".") then Normal ""
           else if is_index_page last then Normal ""
           else Normal ("https://www.sec.gov/ix?doc=" ++ pathname parsed))
      (fun _ => Normal "").

(** [candidates.find((item) => isUsableSecFilingUrl(item))];
    [None] is [undefined]. *)
Fixpoint find_usable (items : list string) : completion (option string) :=
  match items with
  | [] => Normal None
  | item :: rest =>
      ok <- isUsableSecFilingUrl item ;;
      if ok then Normal (Some item) else find_usable rest
  end.

Definition resolveLinks (alert : Alert) : completion Links :=
  c1 <- canonicalizeSecUrl (primary_document_url alert) alert ;;
  c2 <- canonicalizeSecUrl (sec_filing_url alert) alert ;;
  c3 <- canonicalizeSecUrl (sec_index_url alert) alert ;;
  found <- find_usable [c1; c2; c3] ;;
  let best :=
    or_else
      (or_else (match found with Some item => item | None => "" end)
               (buildEdgarIndexUrl (cik alert) (accession_number alert)))
      "#" in
  primaryCandidate <- canonicalizeSecUrl (primary_document_url alert) alert ;;
  usable <- isUsableSecFilingUrl primaryCandidate ;;
  let primary := if usable then primaryCandidate else "" in
  viewer <- toIxViewerUrl best ;;
  Normal
    {| secLink := or_else viewer best;
       primaryLink :=
         if negb (Js.is_empty primary)
            && negb (String.eqb primary (or_else viewer best))
         then primary else "" |}.

End LinkResolver.

(** ** The dashboard: cache, page elements, filtering, sorting, metrics

    A page element is modelled by its text ([textContent], or [value]
    for the two inputs), [None] when [document.getElementById] found no
    such element; every write in the script is guarded by the element's
    presence.  The card markup written to [alertsEl] is outside the
    model: [alertsEl] holds the records rendered, in order.  The status
    and the alerts are well-typed JSON, so that no property read throws. *)

Inductive Mode : Type := Api | Static.

Record Status : Type := mkStatus {
  running : bool;
  connected : bool;
  processed_count : Z;
  alerted_count : Z;
  last_event_at : string;
  last_error : string;
  fetched_entries : Z;
  feed_entries : Z;
  backfill_entries : Z;
  backfill_days : Z;
  repaired_links : Z;
  refreshed_synopsis : Z;
  new_alerts : Z;
  total_alerts : Z;
  last_run : string
}.

Record Page : Type := mkPage {
  mode : Mode;
  cachedStatus : option Status;
  allAlerts : list Alert;
  statusEl : option string;
  alertsEl : option (list Alert);
  visibleCountEl : option string;
  metricTotalEl : option string;
  metricCryptoEl : option string;
  metricRegularEl : option string;
  metricSentEl : option string;
  searchInputEl : option string;
  formFilterEl : option string
}.

(** [if (el) el.textContent = v] *)
Definition set_text (el : option string) (v : string) : option string :=
  match el with
  | Some _ => Some v
  | None => None
  end.

Definition with_cache (st : Status) (alerts : list Alert) (p : Page) : Page :=
  mkPage (mode p) (Some st) alerts (statusEl p) (alertsEl p)
         (visibleCountEl p) (metricTotalEl p) (metricCryptoEl p)
         (metricRegularEl p) (metricSentEl p) (searchInputEl p)
         (formFilterEl p).

Definition with_statusEl (v : option string) (p : Page) : Page :=
  mkPage (mode p) (cachedStatus p) (allAlerts p) v (alertsEl p)
         (visibleCountEl p) (metricTotalEl p) (metricCryptoEl p)
         (metricRegularEl p) (metricSentEl p) (searchInputEl p)
         (formFilterEl p).

Definition with_view (cards : option (list Alert)) (count : option string)
           (p : Page) : Page :=
  mkPage (mode p) (cachedStatus p) (allAlerts p) (statusEl p) cards
         count (metricTotalEl p) (metricCryptoEl p)
         (metricRegularEl p) (metricSentEl p) (searchInputEl p)
         (formFilterEl p).

Definition with_metrics (t c r s : option string) (p : Page) : Page :=
  mkPage (mode p) (cachedStatus p) (allAlerts p) (statusEl p) (alertsEl p)
         (visibleCountEl p) t c r s (searchInputEl p) (formFilterEl p).

Definition with_inputs (search form : option string) (p : Page) : Page :=
  mkPage (mode p) (cachedStatus p) (allAlerts p) (statusEl p) (alertsEl p)
         (visibleCountEl p) (metricTotalEl p) (metricCryptoEl p)
         (metricRegularEl p) (metricSentEl p) search form.

(** The four metric elements of a page. *)
Definition metric_elements (p : Page)
  : option string * option string * option string * option string :=
  (metricTotalEl p, metricCryptoEl p, metricRegularEl p, metricSentEl p).

(** The outcome of one network read. *)
Inductive fetched (A : Type) : Type :=
| Resolved (a : A)
| Rejected (message : string).

Arguments Resolved {A} a.
Arguments Rejected {A} message.

(** The JSON body of the alerts read, before [Array.isArray]. *)
Inductive alerts_json : Type :=
| JsonArray (alerts : list Alert)
| JsonOther.

(** One tick's reads.  When both reject, [Promise.all] rejects with the
    reason of the one that rejected first. *)
Record Tick : Type := mkTick {
  status_read : fetched Status;
  alerts_read : fetched alerts_json;
  status_rejects_first : bool
}.

(** Equality of two time values, [None] (unparseable) being a value of
    its own. *)
Definition same_time (k t : option Z) : bool :=
  match k, t with
  | Some a, Some b => a =? b
  | None, None => true
  | _, _ => false
  end.

Section Dashboard.

(** [Date.parse] on a string ([None] for [NaN]) and the two locale
    renderings, all three implementation-defined. *)
Variable Date_parse : string -> option Z.
Variable Number_toLocaleString : Z -> string.
Variable Date_toLocaleString : Z -> string.

Definition fmtDate (value : string) : string :=
  if Js.is_empty value then "n/a"
  else match Date_parse value with
       | None => "n/a"
       | Some t => Date_toLocaleString t
       end.

Definition fmtNumber (value : Z) : string := Number_toLocaleString value.

(** [new Date(a.created_at || a.updated || 0).getTime()] *)
Definition getTime (a : Alert) : option Z :=
  if negb (Js.is_empty (created_at a)) then Date_parse (created_at a)
  else if negb (Js.is_empty (updated a)) then Date_parse (updated a)
  else Some 0.

(** The comparison function of [filterAlerts]: [bTime - aTime], [None]
    for [NaN]. *)
Definition comparefn (a b : Alert) : option Z :=
  match getTime a, getTime b with
  | Some aTime, Some bTime => Some (bTime - aTime)
  | _, _ => None
  end.

(** [SortCompare] of [Array.prototype.sort]: a [NaN] from the comparison
    function counts as [+0]. *)
Definition SortCompare (x y : Alert) : Z :=
  match comparefn x y with
  | Some v => v
  | None => 0
  end.

(** [Array.prototype.sort] is a stable sort; its result is fixed by the
    language when the comparison function is consistent, and left to the
    implementation otherwise.  The comparison of [filterAlerts] is
    consistent when every timestamp parses and when the timestamps that
    parse are all the same one; it is not when an unparseable timestamp
    stands among different parseable ones.  The model is the stable
    insertion sort, an element moving behind those it compares greater
    than: it gives the result of every engine where the comparison is
    consistent, and one permutation of the input where it is not, so
    that outside the consistent case only what holds of every
    permutation is meant of the engines. *)
Fixpoint insert (x : Alert) (l : list Alert) : list Alert :=
  match l with
  | [] => [x]
  | y :: r => if 0 <? SortCompare x y then y :: insert x r else x :: l
  end.

Fixpoint sort (l : list Alert) : list Alert :=
  match l with
  | [] => []
  | x :: r => insert x (sort r)
  end.

(** The predicate of the [filter] call in [filterAlerts]. *)
Definition keep (formFilter query : string) (alert : Alert) : bool :=
  let form := Js.toUpperCase (form_type alert) in
  if negb (String.eqb formFilter "ALL") && negb (String.eqb form formFilter)
  then false
  else if Js.is_empty query then true
  else
    let haystack :=
      Js.toLowerCase
        (Js.join " " [company_name alert; cik alert; accession_number alert;
                      synopsis alert; form_type alert]) in
    Js.includes haystack query.

Definition filterAlerts (p : Page) : list Alert :=
  let formFilter :=
    match formFilterEl p with Some v => v | None => "ALL" end in
  let query :=
    match searchInputEl p with
    | Some v => Js.toLowerCase (Js.trim v)
    | None => ""
    end in
  sort (List.filter (keep formFilter query) (allAlerts p)).

Definition count (f : Alert -> bool) (alerts : list Alert) : Z :=
  Z.of_nat (List.length (List.filter f alerts)).

Definition is_regular_form (alert : Alert) : bool :=
  List.existsb (String.eqb (Js.toUpperCase (form_type alert)))
               ["485APOS"; "485BPOS"].

Definition updateMetrics (alerts : list Alert) (p : Page) : Page :=
  let total := Z.of_nat (List.length alerts) in
  let crypto := count is_crypto alerts in
  let regular := count is_regular_form alerts in
  let sent := count email_sent alerts in
  with_metrics (set_text (metricTotalEl p) (fmtNumber total))
               (set_text (metricCryptoEl p) (fmtNumber crypto))
               (set_text (metricRegularEl p) (fmtNumber regular))
               (set_text (metricSentEl p) (fmtNumber sent)) p.

Definition with_error (summary : string) (status : Status) : string :=
  if Js.is_empty (last_error status) then summary
  else summary ++ " | error=" ++ last_error status.

Definition updateStatusLine (status : Status) (p : Page) : Page :=
  match statusEl p with
  | None => p
  | Some _ =>
      match mode p with
      | Api =>
          let summary :=
            "stream=" ++ (if running status then "running" else "stopped")
            ++ " connection="
            ++ (if connected status then "connected" else "disconnected")
            ++ " processed=" ++ fmtNumber (processed_count status)
            ++ " alerted=" ++ fmtNumber (alerted_count status)
            ++ " last_event=" ++ fmtDate (last_event_at status) in
          with_statusEl (Some (with_error summary status)) p
      | Static =>
          let summary :=
            "scheduler=every_10m fetched=" ++ fmtNumber (fetched_entries status)
            ++ " feed=" ++ fmtNumber (feed_entries status)
            ++ " backfill=" ++ fmtNumber (backfill_entries status)
            ++ " backfill_days=" ++ fmtNumber (backfill_days status)
            ++ " repaired_links=" ++ fmtNumber (repaired_links status)
            ++ " refreshed_synopsis=" ++ fmtNumber (refreshed_synopsis status)
            ++ " new_alerts=" ++ fmtNumber (new_alerts status)
            ++ " total_alerts=" ++ fmtNumber (total_alerts status)
            ++ " last_run=" ++ fmtDate (last_run status) in
          with_statusEl (Some (with_error summary status)) p
      end
  end.

Definition renderAlerts (alerts : list Alert) (p : Page) : Page :=
  match alertsEl p with
  | None => p
  | Some _ => with_view (Some alerts) (visibleCountEl p) p
  end.

Definition applyFiltersAndRender (p : Page) : Page :=
  let filtered := filterAlerts p in
  renderAlerts filtered
    (with_view (alertsEl p)
       (set_text (visibleCountEl p)
          (fmtNumber (Z.of_nat (List.length filtered)))) p).

(** [fetchAlerts]: [Array.isArray(alerts) ? alerts : []] *)
Definition fetchAlerts (r : fetched alerts_json) : fetched (list Alert) :=
  match r with
  | Resolved (JsonArray alerts) => Resolved alerts
  | Resolved JsonOther => Resolved []
  | Rejected m => Rejected m
  end.

(** [await Promise.all([fetchStatus(), fetchAlerts()])] *)
Definition promise_all (t : Tick) : fetched (Status * list Alert) :=
  match status_read t, fetchAlerts (alerts_read t) with
  | Resolved st, Resolved alerts => Resolved (st, alerts)
  | Rejected m, Resolved _ => Rejected m
  | Resolved _, Rejected m => Rejected m
  | Rejected ms, Rejected ma =>
      Rejected (if status_rejects_first t then ms else ma)
  end.

Definition refreshAll (t : Tick) (p : Page) : Page :=
  match promise_all t with
  | Resolved (status, alerts) =>
      let p1 := with_cache status alerts p in
      let p2 := updateStatusLine status p1 in
      let p3 := updateMetrics (allAlerts p2) p2 in
      applyFiltersAndRender p3
  | Rejected message =>
      with_statusEl
        (set_text (statusEl p) ("Dashboard refresh failed: " ++ message)) p
  end.

(** The listeners bound by [bindEvents] to the search box and to the
    form filter: the browser has set the element's value to [v]. *)
Definition on_search_input (v : string) (p : Page) : Page :=
  applyFiltersAndRender
    (with_inputs (set_text (searchInputEl p) v) (formFilterEl p) p).

Definition on_form_filter_change (v : string) (p : Page) : Page :=
  applyFiltersAndRender
    (with_inputs (searchInputEl p) (set_text (formFilterEl p) v) p).

(** [a] may stand before [b] in descending order: when both timestamps
    parse, that of [a] is not the earlier one. *)
Definition descends (a b : Alert) : Prop :=
  match getTime a, getTime b with
  | Some ta, Some tb => tb <= ta
  | _, _ => True
  end.

(** The timestamp, an unparseable one counted as the epoch. *)
Definition time_or_epoch (a : Alert) : Z :=
  match getTime a with
  | Some t => t
  | None => 0
  end.

Definition later_first (a b : Alert) : Prop :=
  time_or_epoch b <= time_or_epoch a.

Definition has_time (k : option Z) (a : Alert) : bool := same_time k (getTime a).

End Dashboard.

(** ** Presentation helpers: [escapeHtml] and [synopsisPreview] *)

(** The double quote character. *)
Definition dquote : ascii := ascii_of_N 34.

(** [s.replaceAll(c, r)] for a one-character pattern [c] and a
    replacement [r] without [$]. *)
Fixpoint replaceAll (c : ascii) (r : string) (s : string) : string :=
  match s with
  | EmptyString => EmptyString
  | String x t =>
      if Ascii.eqb x c then r ++ replaceAll c r t
      else String x (replaceAll c r t)
  end.

Definition escapeHtml (value : string) : string :=
  replaceAll "'" "&#39;"
    (replaceAll dquote "&quot;"
       (replaceAll ">" "&gt;"
          (replaceAll "<" "&lt;"
             (replaceAll "&" "&amp;" value)))).

(** [raw.replace(/\s+/g, " ")]: every run of white space becomes one
    space; [in_run] tells that the previous character was white space. *)
Fixpoint collapse_from (in_run : bool) (s : string) : string :=
  match s with
  | EmptyString => EmptyString
  | String c r =>
      if Js.is_space c then
        if in_run then collapse_from true r
        else String " " (collapse_from true r)
      else String c (collapse_from false r)
  end.

Definition collapse_whitespace (s : string) : string := collapse_from false s.

Definition synopsisPreview (text : string) : string :=
  let raw := Js.trim text in
  if Js.is_empty raw then "No synopsis generated for this filing yet."
  else
    let flat := collapse_whitespace raw in
    if (340 <? String.length flat)%nat
    then String.substring 0 340 flat ++ "..."
    else flat.

(** ** Start and stop *)

Section Controls.

Variable Date_parse : string -> option Z.
Variable Number_toLocaleString : Z -> string.
Variable Date_toLocaleString : Z -> string.

(** [startListener] and [stopListener] differ in the endpoint only:
    [post] is the outcome of the control request, [t] the reads of the
    refresh that follows.  A rejected request rejects the listener's
    promise ([Throw]) before anything is written. *)
Definition startListener (post : fetched unit) (t : Tick) (p : Page)
  : completion Page :=
  match mode p with
  | Static => Normal p
  | Api =>
      match post with
      | Rejected message => Throw message
      | Resolved _ =>
          Normal (refreshAll Date_parse Number_toLocaleString
                    Date_toLocaleString t p)
      end
  end.

Definition stopListener (post : fetched unit) (t : Tick) (p : Page)
  : completion Page :=
  match mode p with
  | Static => Normal p
  | Api =>
      match post with
      | Rejected message => Throw message
      | Resolved _ =>
          Normal (refreshAll Date_parse Number_toLocaleString
                    Date_toLocaleString t p)
      end
  end.

(** The page after a listener has run: a rejected listener has written
    nothing. *)
Definition page_after (c : completion Page) (p : Page) : Page :=
  match c with
  | Normal p' => p'
  | Throw _ => p
  end.

(** The page shows what the cache holds: where they exist, the metric
    elements carry the counts of [allAlerts], the cards are
    [filterAlerts] of the page and the visible count is their number. *)
Definition page_consistent (p : Page) : Prop :=
  metric_elements p
  = metric_elements (updateMetrics Number_toLocaleString (allAlerts p) p)
  /\ alertsEl p
     = option_map (fun _ => filterAlerts Date_parse p) (alertsEl p)
  /\ visibleCountEl p
     = set_text (visibleCountEl p)
         (Number_toLocaleString
            (Z.of_nat (List.length (filterAlerts Date_parse p)))).

End Controls.

(** ** Predicates of the further properties *)

(** The characters [escapeHtml] replaces. *)
Definition is_markup_char (c : ascii) : bool :=
  Ascii.eqb c "&" || Ascii.eqb c "<" || Ascii.eqb c ">"
  || Ascii.eqb c dquote || Ascii.eqb c "'".

(** The characters that open or close a tag or an attribute value. *)
Definition is_delimiter_char (c : ascii) : bool :=
  Ascii.eqb c "<" || Ascii.eqb c ">" || Ascii.eqb c dquote
  || Ascii.eqb c "'".

(** What [escapeHtml] writes for one character. *)
Definition escape_char (c : ascii) : string :=
  if Ascii.eqb c "&" then "&amp;"
  else if Ascii.eqb c "<" then "&lt;"
  else if Ascii.eqb c ">" then "&gt;"
  else if Ascii.eqb c dquote then "&quot;"
  else if Ascii.eqb c "'" then "&#39;"
  else String c EmptyString.

(** Reading the five entities back; [skip] characters are passed over
    first. *)
Fixpoint unescape_from (skip : nat) (s : string) : string :=
  match s with
  | EmptyString => EmptyString
  | String c r =>
      match skip with
      | S k => unescape_from k r
      | O =>
          if Ascii.eqb c "&" then
            if String.prefix "amp;" r then String "&" (unescape_from 4 r)
            else if String.prefix "lt;" r then String "<" (unescape_from 3 r)
            else if String.prefix "gt;" r then String ">" (unescape_from 3 r)
            else if String.prefix "quot;" r
            then String dquote (unescape_from 5 r)
            else if String.prefix "#39;" r then String "'" (unescape_from 4 r)
            else String c (unescape_from 0 r)
          else String c (unescape_from 0 r)
      end
  end.

Definition unescape (s : string) : string := unescape_from 0 s.

(** No white space but single spaces: [after_space] tells that the
    previous character was a space. *)
Fixpoint single_spaced_from (after_space : bool) (s : string) : bool :=
  match s with
  | EmptyString => true
  | String c r =>
      if Js.is_space c
      then Ascii.eqb c " " && negb after_space && single_spaced_from true r
      else single_spaced_from false r
  end.

Definition single_spaced (s : string) : bool := single_spaced_from false s.

Definition has_digit (s : string) : bool :=
  negb (Js.is_empty (Js.filter Js.is_digit s)).

(** Letters, digits and the three signs of the segments of the
    synthesized index URL. *)
Definition word_char (c : ascii) : bool :=
  Js.is_digit c || Js.is_alpha c || Ascii.eqb c "." || Ascii.eqb c "+"
  || Ascii.eqb c "-".

(** The path tests that [isUsableSecFilingUrl] and the accepting
    branches of [canonicalizeSecUrl] share: the viewer route with an
    archive [doc], or an archive path whose last segment names a
    document. *)
Definition accepted_path (u : URL) : bool :=
  let lowerPath := Js.toLowerCase (pathname u) in
  if String.eqb lowerPath "/ix" then
    Js.startsWith
      (Js.toLowerCase
         (match searchParams_get_doc u with Some d => d | None => "" end))
      "/archives/"
  else
    Js.includes lowerPath "/archives/"
    && Js.includes (last_segment lowerPath) "."
    && negb (is_index_page (last_segment lowerPath)).

(** ** Predicates and examples used in the statements *)

(** What [Number::toString] asks of the digits [s], their number [k] and
    the exponent [n] that it prints for [x]. *)
Definition shortest_ok (x : Z) (r : Z * Z * Z) : Prop :=
  let '(s, k, n) := r in
  1 <= k <= n /\ 10 ^ (k - 1) <= s /\ JsNumber.round_binary64 (s * 10 ^ (n - k)) = x.

(** A pure digit string with no leading zeros (the lone ["0"] included). *)
Definition canonical_entity_id (x : string) : bool :=
  Js.forallb Js.is_digit x
  && match x with
     | String "0" (String _ _) => false
     | _ => true
     end.

(** The host test as the specification words it: the host is exactly
    [sec.gov] or a subdomain of it. *)
Definition is_sec_gov_or_subdomain (host : string) : bool :=
  String.eqb host "sec.gov" || Js.endsWith host ".sec.gov".

(** A record with the given candidate URLs and identifiers. *)
Definition filing (primary filing_url index cik accession : string) : Alert :=
  mkAlert "Example Trust" cik accession "S-1" false true "" "" []
          primary filing_url index "2024-01-02" "".

(** [true] when the candidate, once canonicalized, is usable. *)
Definition qualifies (URL_parse : string -> option URL) (url : string)
           (alert : Alert) : bool :=
  match canonicalizeSecUrl URL_parse url alert with
  | Normal c =>
      match isUsableSecFilingUrl URL_parse c with
      | Normal b => b
      | Throw _ => false
      end
  | Throw _ => false
  end.

(** A character that the path state copies as it is, and that closes
    neither a segment nor the path. *)
Definition plain_char (c : ascii) : bool :=
  negb (Whatwg.in_path_set c) && negb (Whatwg.ch c "/")
  && negb (Whatwg.ch c "\").

(** The characters of a conventional accession number. *)
Definition accession_char (c : ascii) : bool :=
  Js.is_digit c || Whatwg.ch c "-".

(** The characters of [String(number)] for a non-negative integer:
    digits, those of the exponent notation and of ["Infinity"]. *)
Definition number_char (c : ascii) : bool :=
  Js.is_digit c || Whatwg.ch c "." || Whatwg.ch c "e" || Whatwg.ch c "+"
  || Whatwg.ch c "I" || Whatwg.ch c "n" || Whatwg.ch c "f"
  || Whatwg.ch c "i" || Whatwg.ch c "t" || Whatwg.ch c "y".

(** A first character with which no dot segment begins, also after
    lower-casing. *)
Definition opens_segment (c : ascii) : bool :=
  negb (Whatwg.ch (Js.lower_char c) ".")
  && negb (Whatwg.ch (Js.lower_char c) "%").

(** A segment of plain characters that is no dot segment. *)
Definition plain_segment (seg : string) : Prop :=
  Js.forallb plain_char seg = true
  /\ match seg with
     | String c _ => opens_segment c = true
     | EmptyString => True
     end.

(** A character that the parser's preprocessing leaves in place. *)
Definition kept (c : ascii) : bool :=
  negb (Whatwg.is_c0_or_space c) && negb (Whatwg.is_tab_or_newline c).

(** The segment holds no slash. *)
Definition no_slash (seg : string) : bool :=
  Js.forallb (fun c => negb (Whatwg.ch c "/")) seg.

(** A conventional accession number: after trimming, digits and dashes. *)
Definition conventional_accession (accession : string) : bool :=
  Js.forallb accession_char (Js.trim accession).

(** The segments of the synthesized index URL. *)
Definition index_segments (cik accession : string) : list string :=
  ["Archives"; "edgar"; "data"; normalizeCik cik;
   normalizeAccessionDigits accession; Js.trim accession ++ "-index.html"].

(** [Date.parse] on the strings of the examples: two ISO dates, read as
    midnight UTC, and text that is no date. *)
Definition example_Date_parse (s : string) : option Z :=
  if String.eqb s "2024-01-02" then Some 1704153600000
  else if String.eqb s "2024-01-03" then Some 1704240000000
  else None.

(** A record with the given form type and [created_at]. *)
Definition dated (form created : string) : Alert :=
  mkAlert "Example Trust" "1" "1-24-1" form false true "" "" [] "" "" ""
          created "".

(** A status, a page and a locale rendering for the examples. *)
Definition example_status : Status :=
  mkStatus true true 12 3 "2024-01-02" "" 0 0 0 0 0 0 0 0 "".

Definition example_page : Page :=
  mkPage Api (Some example_status) [dated "485APOS" "2024-01-02"]
         (Some "stream=running") (Some [dated "485APOS" "2024-01-02"])
         (Some "1") (Some "1") (Some "0") (Some "1") (Some "1")
         (Some "") (Some "ALL").

Definition example_toLocaleString (n : Z) : string := JsNumber.decimal n.

(** Some read of the tick was rejected. *)
Definition read_failed (t : Tick) : bool :=
  match status_read t, alerts_read t with
  | Resolved _, Resolved _ => false
  | _, _ => true
  end.

(** * Properties *)

(** ** Strings *)

Lemma filter_forallb (p : ascii -> bool) (s : string) :
  Js.forallb p s = true -> Js.filter p s = s.
Proof.
  induction s as [|c r IH]; simpl; [reflexivity|].
  intros H. apply andb_true_iff in H. destruct H as [Hc Hr].
  rewrite Hc. f_equal. auto.
Qed.

Lemma forallb_filter (p : ascii -> bool) (s : string) :
  Js.forallb p (Js.filter p s) = true.
Proof.
  induction s as [|c r IH]; simpl; [reflexivity|].
  destruct (p c) eqn:E; simpl; [rewrite E|]; auto.
Qed.

Lemma forallb_app (p : ascii -> bool) (a b : string) :
  Js.forallb p (a ++ b) = Js.forallb p a && Js.forallb p b.
Proof.
  induction a as [|c r IH]; simpl; [reflexivity|].
  rewrite IH. apply andb_assoc.
Qed.

Lemma forallb_weaken (p q : ascii -> bool) (s : string) :
  (forall c, p c = true -> q c = true) ->
  Js.forallb p s = true -> Js.forallb q s = true.
Proof.
  intros Hpq. induction s as [|c r IH]; simpl; [reflexivity|].
  intros H. apply andb_true_iff in H. destruct H as [Hc Hr].
  rewrite (Hpq _ Hc). auto.
Qed.

Lemma append_assoc (a b c : string) : (a ++ b) ++ c = a ++ (b ++ c).
Proof. induction a as [|x r IH]; simpl; [reflexivity | now rewrite IH]. Qed.

Lemma append_nil_r (a : string) : a ++ "" = a.
Proof. induction a as [|x r IH]; simpl; [reflexivity | now rewrite IH]. Qed.

Lemma length_append (a b : string) :
  String.length (a ++ b) = (String.length a + String.length b)%nat.
Proof. induction a as [|x r IH]; simpl; [reflexivity | now rewrite IH]. Qed.

(** ** Decimal numerals *)

Module NumberFacts.
Import JsNumber.

Lemma is_digit_code (c : ascii) :
  Js.is_digit c = true -> 48 <= Js.code c <= 57.
Proof. unfold Js.is_digit. intros H. apply andb_true_iff in H. lia. Qed.

Lemma digit_value_range (c : ascii) :
  Js.is_digit c = true -> 0 <= digit_value c < 10.
Proof. intros H. apply is_digit_code in H. unfold digit_value. lia. Qed.

Lemma digit_char_value (c : ascii) :
  Js.is_digit c = true -> digit_char (digit_value c) = c.
Proof.
  intros H. apply is_digit_code in H. unfold digit_char, digit_value, Js.code in *.
  replace (48 + (Z.of_N (N_of_ascii c) - 48)) with (Z.of_N (N_of_ascii c)) by lia.
  rewrite N2Z.id. apply ascii_N_embedding.
Qed.

Lemma code_digit_char (d : Z) :
  0 <= d < 10 -> Js.code (digit_char d) = 48 + d.
Proof.
  intros H. unfold Js.code, digit_char.
  rewrite N_ascii_embedding by lia. lia.
Qed.

Lemma digit_char_is_digit (d : Z) :
  0 <= d < 10 -> Js.is_digit (digit_char d) = true.
Proof.
  intros H. unfold Js.is_digit. rewrite code_digit_char by assumption.
  apply andb_true_iff. lia.
Qed.

Lemma digits_value_from_ge (s : string) (acc : Z) :
  Js.forallb Js.is_digit s = true -> 0 <= acc ->
  acc <= digits_value_from acc s.
Proof.
  revert acc.
  induction s as [|c r IH]; cbn [digits_value_from Js.forallb];
    intros acc H Hacc; [lia|].
  apply andb_true_iff in H. destruct H as [Hc Hr].
  pose proof (digit_value_range c Hc).
  specialize (IH (10 * acc + digit_value c) Hr). lia.
Qed.

(** *** [decimal] *)

Lemma decimal_from_app (f : nat) (n : Z) (acc : string) :
  decimal_from f n acc = decimal_from f n "" ++ acc.
Proof.
  revert n acc. induction f as [|f IH]; intros n acc; simpl.
  - reflexivity.
  - destruct (n <? 10); [reflexivity|].
    rewrite IH. rewrite (IH _ (String _ "")).
    rewrite append_assoc. reflexivity.
Qed.

Lemma decimal_from_fuel (f g : nat) (n : Z) (acc : string) :
  0 <= n -> n < 10 ^ (Z.of_nat f + 1) -> n < 10 ^ (Z.of_nat g + 1) ->
  decimal_from f n acc = decimal_from g n acc.
Proof.
  revert g n acc. induction f as [|f IH]; intros g n acc Hn Hf Hg.
  - change (10 ^ (Z.of_nat 0 + 1)) with 10 in Hf.
    destruct g as [|g]; simpl; [reflexivity|].
    destruct (Z.ltb_spec n 10); [|lia].
    rewrite Z.mod_small by lia. reflexivity.
  - destruct g as [|g].
    + change (10 ^ (Z.of_nat 0 + 1)) with 10 in Hg. simpl.
      destruct (Z.ltb_spec n 10); [|lia].
      rewrite Z.mod_small by lia. reflexivity.
    + simpl. destruct (Z.ltb_spec n 10); [reflexivity|].
      apply IH.
      * apply Z.div_pos; lia.
      * apply Z.div_lt_upper_bound; [lia|].
        replace (Z.of_nat (S f) + 1) with (Z.succ (Z.of_nat f + 1)) in Hf by lia.
        rewrite Z.pow_succ_r in Hf by lia. lia.
      * apply Z.div_lt_upper_bound; [lia|].
        replace (Z.of_nat (S g) + 1) with (Z.succ (Z.of_nat g + 1)) in Hg by lia.
        rewrite Z.pow_succ_r in Hg by lia. lia.
Qed.

Lemma fuel_enough (n : Z) :
  0 <= n -> n < 10 ^ (Z.of_nat (Z.to_nat (Z.log2 n)) + 1).
Proof.
  intros Hn. rewrite Z2Nat.id by apply Z.log2_nonneg.
  destruct (Z.eq_dec n 0) as [->|Hz]; [reflexivity|].
  pose proof (Z.log2_spec n ltac:(lia)) as [_ Hlt].
  pose proof (Z.log2_nonneg n).
  eapply Z.lt_le_trans; [exact Hlt|].
  replace (Z.succ (Z.log2 n)) with (Z.log2 n + 1) by lia.
  apply Z.pow_le_mono_l. lia.
Qed.

Lemma decimal_fuel (f : nat) (n : Z) :
  0 <= n -> n < 10 ^ (Z.of_nat f + 1) -> decimal n = decimal_from f n "".
Proof.
  intros Hn Hf. unfold decimal. apply decimal_from_fuel; auto using fuel_enough.
Qed.

Lemma decimal_small (d : Z) :
  0 <= d < 10 -> decimal d = String (digit_char d) "".
Proof.
  intros H. rewrite (decimal_fuel 0) by (change (10 ^ (Z.of_nat 0 + 1)) with 10; lia).
  simpl. rewrite Z.mod_small by lia. reflexivity.
Qed.

Lemma decimal_step (a d : Z) :
  0 < a -> 0 <= d < 10 ->
  decimal (10 * a + d) = decimal a ++ String (digit_char d) "".
Proof.
  intros Ha Hd.
  pose proof (fuel_enough a ltac:(lia)) as Hf.
  set (f := Z.to_nat (Z.log2 a)) in *.
  rewrite (decimal_fuel (S f)).
  - cbn [decimal_from]. destruct (Z.ltb_spec (10 * a + d) 10); [lia|].
    replace ((10 * a + d) / 10) with a
      by (apply Z.div_unique with d; lia).
    replace ((10 * a + d) mod 10) with d
      by (apply Z.mod_unique with a; lia).
    rewrite decimal_from_app. reflexivity.
  - lia.
  - replace (Z.of_nat (S f) + 1) with (Z.succ (Z.of_nat f + 1)) by lia.
    rewrite Z.pow_succ_r by lia. lia.
Qed.

(** Printing the value of a numeral that continues a positive prefix. *)
Lemma decimal_digits_value_from (s : string) (acc : Z) :
  Js.forallb Js.is_digit s = true -> 0 < acc ->
  decimal (digits_value_from acc s) = decimal acc ++ s.
Proof.
  revert acc.
  induction s as [|c r IH]; cbn [digits_value_from Js.forallb];
    intros acc H Hacc.
  - now rewrite append_nil_r.
  - apply andb_true_iff in H. destruct H as [Hc Hr].
    pose proof (digit_value_range c Hc).
    rewrite IH by (auto; lia).
    rewrite decimal_step by lia.
    rewrite digit_char_value by assumption.
    rewrite append_assoc. reflexivity.
Qed.

Lemma decimal_pow10 (s : Z) (m : nat) :
  0 < s -> decimal s ++ Js.repeat0 m = decimal (s * 10 ^ Z.of_nat m).
Proof.
  revert s. induction m as [|m IH]; intros s Hs.
  - simpl. rewrite append_nil_r. f_equal. lia.
  - replace (s * 10 ^ Z.of_nat (S m)) with ((10 * s + 0) * 10 ^ Z.of_nat m).
    + rewrite <- IH by lia. rewrite decimal_step by lia.
      rewrite append_assoc. reflexivity.
    + rewrite Nat2Z.inj_succ, Z.pow_succ_r by lia. ring.
Qed.

Lemma decimal_from_length (f : nat) (n : Z) :
  0 < n -> n < 10 ^ (Z.of_nat f + 1) ->
  let len := Z.of_nat (String.length (decimal_from f n "")) in
  1 <= len /\ 10 ^ (len - 1) <= n.
Proof.
  revert n. induction f as [|f IH]; intros n Hn Hf; cbn [decimal_from].
  - cbn. lia.
  - destruct (Z.ltb_spec n 10); [cbn; lia|].
    rewrite decimal_from_app, length_append. cbn [String.length].
    assert (Hq : 0 < n / 10) by (apply Z.div_str_pos; lia).
    assert (Hb : n / 10 < 10 ^ (Z.of_nat f + 1)).
    { apply Z.div_lt_upper_bound; [lia|].
      replace (Z.of_nat (S f) + 1) with (Z.succ (Z.of_nat f + 1)) in Hf by lia.
      rewrite Z.pow_succ_r in Hf by lia. lia. }
    destruct (IH _ Hq Hb) as [H1 H2].
    set (l := String.length (decimal_from f (n / 10) "")) in *.
    split; [lia|].
    replace (Z.of_nat (l + 1) - 1) with (Z.succ (Z.of_nat l - 1)) by lia.
    rewrite Z.pow_succ_r by lia.
    pose proof (Z.mul_div_le n 10 ltac:(lia)). lia.
Qed.

Lemma nb_digits_lower (n : Z) :
  0 < n -> 1 <= nb_digits n /\ 10 ^ (nb_digits n - 1) <= n.
Proof.
  intros Hn. unfold nb_digits, decimal.
  apply decimal_from_length; [assumption | apply fuel_enough; lia].
Qed.

(** *** Rounding to binary64 *)

Lemma round_small (n : Z) : n < 2 ^ 53 -> round_binary64 n = n.
Proof.
  intros H. unfold round_binary64.
  destruct (Z.ltb_spec n (2 ^ 53)); [reflexivity | lia].
Qed.

Lemma round_large (n : Z) : 2 ^ 53 <= n -> 2 ^ 53 <= round_binary64 n.
Proof.
  intros H. unfold round_binary64.
  destruct (Z.ltb_spec n (2 ^ 53)); [lia|].
  assert (Hpos : 0 < n) by (pose proof (Z.pow_pos_nonneg 2 53); lia).
  pose proof (Z.log2_spec n Hpos) as [Hlo _].
  assert (Hlog : 53 <= Z.log2 n).
  { apply Z.log2_le_pow2; assumption. }
  set (e := Z.log2 n - 52) in *.
  assert (He : 2 ^ Z.log2 n = 2 ^ 52 * 2 ^ e).
  { rewrite <- Z.pow_add_r by (unfold e; lia). f_equal. unfold e. lia. }
  assert (Hpe : 2 <= 2 ^ e).
  { change 2 with (2 ^ 1) at 1. apply Z.pow_le_mono_r; unfold e; lia. }
  assert (Hq : 2 ^ 52 <= n / 2 ^ e).
  { apply Z.div_le_lower_bound; lia. }
  assert (Hm : 2 ^ 53 <= n / 2 ^ e * 2 ^ e).
  { change (2 ^ 53) with (2 ^ 52 * 2). 
    transitivity (2 ^ 52 * 2 ^ e).
    - apply Z.mul_le_mono_nonneg_l; lia.
    - apply Z.mul_le_mono_nonneg_r; lia. }
  assert (Hm' : n / 2 ^ e * 2 ^ e <= (n / 2 ^ e + 1) * 2 ^ e) by lia.
  destruct (_ <? _); [assumption|].
  destruct (_ <? _); [lia|].
  destruct (Z.even _); lia.
Qed.

Lemma round_fixes_small (v x : Z) :
  x < 2 ^ 53 -> round_binary64 v = x -> v = x.
Proof.
  intros Hx Hr. destruct (Z.lt_ge_cases v (2 ^ 53)) as [Hv|Hv].
  - now rewrite round_small in Hr.
  - apply round_large in Hv. lia.
Qed.

(** *** The shortest digits that read back as [x] *)

Lemma candidates_ok (x k n : Z) (c : Z * Z) :
  1 <= k -> In c (candidates x k n) -> shortest_ok x (fst c, k, snd c).
Proof.
  intros Hk. unfold candidates.
  destruct (Z.ltb_spec (n - k) 0); [intros []|].
  intros Hin. apply filter_In in Hin. destruct Hin as [Hin Hc].
  apply andb_true_iff in Hc. destruct Hc as [Hc Hr].
  apply andb_true_iff in Hc. destruct Hc as [Hlo Hhi].
  assert (Hn : snd c = n) by (destruct Hin as [<-|[<-|[]]]; reflexivity).
  cbn [shortest_ok]. rewrite Hn.
  apply Z.leb_le in Hlo. apply Z.eqb_eq in Hr. repeat split; try lia.
Qed.

Lemma closest_In (x k : Z) (cs : list (Z * Z)) (b : Z * Z) :
  In (closest x k b cs) (b :: cs).
Proof.
  revert b. induction cs as [|c r IH]; intros b; cbn [closest].
  - now left.
  - destruct (_ <? _).
    + right. apply IH.
    + destruct (IH b) as [H|H]; [now left | right; now right].
Qed.

Lemma shortest_from_cases (fuel : nat) (x nx k : Z) :
  1 <= k ->
  shortest_ok x (shortest_from fuel x nx k)
  \/ shortest_from fuel x nx k = (x, nx, nx).
Proof.
  revert k. induction fuel as [|f IH]; intros k Hk; cbn [shortest_from].
  - destruct (candidates x k nx ++ candidates x k (nx + 1))%list
      as [|c r] eqn:E; [now right | left].
    pose proof (closest_In x k r c) as Hin. rewrite <- E in Hin.
    apply in_app_or in Hin.
    destruct Hin as [Hin|Hin]; eapply candidates_ok; eauto.
  - destruct (candidates x k nx ++ candidates x k (nx + 1))%list
      as [|c r] eqn:E; [apply IH; lia | left].
    pose proof (closest_In x k r c) as Hin. rewrite <- E in Hin.
    apply in_app_or in Hin.
    destruct Hin as [Hin|Hin]; eapply candidates_ok; eauto.
Qed.

Lemma shortest_from_ok (fuel : nat) (x nx k : Z) :
  1 <= k -> shortest_ok x (x, nx, nx) ->
  shortest_ok x (shortest_from fuel x nx k).
Proof.
  intros Hk Hfb.
  destruct (shortest_from_cases fuel x nx k Hk) as [H| ->]; assumption.
Qed.

Lemma shortest_positive (x : Z) :
  0 < x -> let '(s, k, n) := shortest x in 0 < s /\ 1 <= n.
Proof.
  intros Hx. unfold shortest.
  pose proof (nb_digits_lower x Hx) as [Hn _].
  destruct (shortest_from_cases (Z.to_nat (nb_digits x)) x (nb_digits x) 1
              ltac:(lia)) as [H|H].
  - destruct (shortest_from _ x _ 1) as [[s k] n]. cbn [shortest_ok] in H.
    destruct H as (Hk & Hs & _).
    assert (0 < 10 ^ (k - 1)) by (apply Z.pow_pos_nonneg; lia). lia.
  - rewrite H. lia.
Qed.

Lemma shortest_small (x : Z) :
  0 < x < 2 ^ 53 ->
  let '(s, k, n) := shortest x in
  1 <= k <= n /\ n <= 21 /\ 0 < s /\ s * 10 ^ (n - k) = x.
Proof.
  intros Hx. unfold shortest.
  pose proof (nb_digits_lower x ltac:(lia)) as [Hn1 Hn2].
  assert (Hfb : shortest_ok x (x, nb_digits x, nb_digits x)).
  { cbn [shortest_ok]. rewrite Z.sub_diag, Z.mul_1_r.
    repeat split; try lia. apply round_small; lia. }
  pose proof (shortest_from_ok (Z.to_nat (nb_digits x)) x (nb_digits x) 1
                ltac:(lia) Hfb) as H.
  destruct (shortest_from _ x _ 1) as [[s k] n]. cbn [shortest_ok] in H.
  destruct H as (Hk & Hs & Hr).
  apply round_fixes_small in Hr; [|lia].
  assert (Hp : 0 < 10 ^ (k - 1)) by (apply Z.pow_pos_nonneg; lia).
  assert (Hq : 0 < 10 ^ (n - k)) by (apply Z.pow_pos_nonneg; lia).
  assert (Hpow : 10 ^ (n - 1) <= x).
  { replace (n - 1) with ((k - 1) + (n - k)) by lia.
    rewrite Z.pow_add_r by lia. rewrite <- Hr.
    apply Z.mul_le_mono_nonneg_r; lia. }
  repeat split; try lia.
  assert (H16 : 10 ^ (n - 1) < 10 ^ 16).
  { eapply Z.le_lt_trans; [exact Hpow|]. 
    eapply Z.lt_trans; [apply Hx|]. reflexivity. }
  apply Z.pow_lt_mono_r_iff in H16; lia.
Qed.

Lemma toString_small (x : Z) :
  0 <= x < 2 ^ 53 -> toString (Finite x) = decimal x.
Proof.
  intros Hx. cbn [toString].
  destruct (Z.eqb_spec x 0) as [->|Hz]; [reflexivity|].
  pose proof (shortest_small x ltac:(lia)) as H.
  destruct (shortest x) as [[s k] n].
  destruct H as (Hk & Hn & Hs & Hv).
  destruct (Z.leb_spec n 21); [|lia].
  rewrite decimal_pow10 by assumption.
  rewrite Z2Nat.id by lia. now rewrite Hv.
Qed.

Lemma parseInt_small (s : string) :
  digits_value s < 2 ^ 53 -> parseInt_digits s = Finite (digits_value s).
Proof.
  intros H. unfold parseInt_digits, to_Number.
  rewrite round_small by assumption.
  destruct (Z.ltb_spec (digits_value s) (2 ^ 1024)); [reflexivity|].
  exfalso. apply (Z.lt_irrefl (2 ^ 53)).
  eapply Z.le_lt_trans; [|exact H].
  eapply Z.le_trans; [|eassumption].
  apply Z.pow_le_mono_r; lia.
Qed.

Lemma decimal_from_digits (f : nat) (n : Z) (acc : string) :
  0 <= n -> Js.forallb Js.is_digit acc = true ->
  Js.forallb Js.is_digit (decimal_from f n acc) = true.
Proof.
  revert n acc. induction f as [|f IH]; intros n acc Hn Hacc; cbn [decimal_from].
  - cbn [Js.forallb]. rewrite digit_char_is_digit, Hacc; [reflexivity|].
    apply Z.mod_pos_bound. lia.
  - destruct (Z.ltb_spec n 10).
    + cbn [Js.forallb]. rewrite digit_char_is_digit, Hacc; [reflexivity | lia].
    + apply IH; [apply Z.div_pos; lia|].
      cbn [Js.forallb]. rewrite digit_char_is_digit, Hacc; [reflexivity|].
      apply Z.mod_pos_bound. lia.
Qed.

Lemma decimal_from_nonempty (f : nat) (n : Z) (acc : string) :
  decimal_from f n acc <> "".
Proof.
  revert n acc. induction f as [|f IH]; intros n acc; cbn [decimal_from].
  - discriminate.
  - destruct (n <? 10); [discriminate | apply IH].
Qed.

Lemma decimal_shape (n : Z) :
  0 <= n ->
  exists c r, decimal n = String c r
              /\ Js.is_digit c = true /\ Js.forallb Js.is_digit r = true.
Proof.
  intros Hn. unfold decimal.
  pose proof (decimal_from_digits (Z.to_nat (Z.log2 n)) n "" Hn eq_refl) as Hd.
  pose proof (decimal_from_nonempty (Z.to_nat (Z.log2 n)) n "") as Hne.
  destruct (decimal_from _ n "") as [|c r]; [congruence|].
  cbn [Js.forallb] in Hd. apply andb_true_iff in Hd. destruct Hd. eauto.
Qed.

Lemma repeat0_digits (m : nat) : Js.forallb Js.is_digit (Js.repeat0 m) = true.
Proof. induction m as [|m IH]; [reflexivity | exact IH]. Qed.

Lemma round_nonneg (n : Z) : 0 <= n -> 0 <= round_binary64 n.
Proof.
  intros Hn. destruct (Z.lt_ge_cases n (2 ^ 53)) as [H|H].
  - now rewrite round_small.
  - apply round_large in H. pose proof (Z.pow_pos_nonneg 2 53). lia.
Qed.

Lemma digits_value_nonneg (s : string) :
  Js.forallb Js.is_digit s = true -> 0 <= digits_value s.
Proof. intros H. apply (digits_value_from_ge s 0 H). lia. Qed.

End NumberFacts.

(** ** Identifier normalisation *)

Lemma normalizeAccessionDigits_digits (y : string) :
  Js.forallb Js.is_digit y = true -> normalizeAccessionDigits y = y.
Proof. apply filter_forallb. Qed.

Lemma normalizeCik_canonical (x : string) :
  canonical_entity_id x = true ->
  JsNumber.digits_value x < 2 ^ 53 ->
  normalizeCik x = x.
Proof.
  unfold canonical_entity_id. intros Hc Hv.
  apply andb_true_iff in Hc. destruct Hc as [Hd Hz].
  unfold normalizeCik. rewrite (filter_forallb _ _ Hd).
  destruct x as [|c r]; [reflexivity|]. cbn [Js.is_empty].
  rewrite NumberFacts.parseInt_small by assumption.
  cbn [Js.forallb] in Hd. apply andb_true_iff in Hd. destruct Hd as [Hc Hr].
  pose proof (NumberFacts.digit_value_range c Hc) as Hrange.
  unfold JsNumber.digits_value in *. cbn [JsNumber.digits_value_from] in *.
  rewrite Z.mul_0_r, Z.add_0_l in *.
  pose proof (NumberFacts.digits_value_from_ge r (JsNumber.digit_value c) Hr
                ltac:(lia)) as Hge.
  rewrite NumberFacts.toString_small by lia.
  destruct (Z.eq_dec (JsNumber.digit_value c) 0) as [E0|E0].
  - assert (c = "0"%char) as ->.
    { rewrite <- (NumberFacts.digit_char_value c Hc), E0. reflexivity. }
    destruct r; [reflexivity | discriminate].
  - rewrite NumberFacts.decimal_digits_value_from by (auto; lia).
    rewrite NumberFacts.decimal_small by lia.
    rewrite NumberFacts.digit_char_value by assumption. reflexivity.
Qed.

(** C4, the entity identifier beyond the exactly representable integers:
    [normalizeCik] does not return ["9007199254740993"] (2^53 + 1, a
    pure digit string with no leading zeros) unchanged, it returns
    ["9007199254740992"]. *)
Lemma normalizeCik_above_2p53 :
  canonical_entity_id "9007199254740993" = true
  /\ normalizeCik "9007199254740993" = "9007199254740992"
  /\ normalizeCik "9007199254740993" <> "9007199254740993".
Proof.
  split; [reflexivity|].
  split; [vm_compute; reflexivity|].
  vm_compute. discriminate.
Qed.

(** C4 (amended): for every pure digit string [x] with no leading zeros
    whose value is below 2^53, [normalizeCik x = x], hence
    [normalizeCik (normalizeCik x) = normalizeCik x]; and for every pure
    digit string [y], [normalizeAccessionDigits y = y], hence it is
    idempotent there. *)
Theorem normalize_idempotent_on_canonical (x y : string) :
  canonical_entity_id x = true ->
  JsNumber.digits_value x < 2 ^ 53 ->
  Js.forallb Js.is_digit y = true ->
  normalizeCik x = x
  /\ normalizeCik (normalizeCik x) = normalizeCik x
  /\ normalizeAccessionDigits y = y
  /\ normalizeAccessionDigits (normalizeAccessionDigits y)
     = normalizeAccessionDigits y.
Proof.
  intros Hx Hv Hy.
  pose proof (normalizeCik_canonical x Hx Hv) as Ex.
  pose proof (normalizeAccessionDigits_digits y Hy) as Ey.
  repeat split; try assumption.
  - now rewrite Ex.
  - now rewrite Ey.
Qed.

Lemma normalize_idempotent_on_canonical_witness :
  normalizeCik "1234567" = "1234567"
  /\ normalizeCik (normalizeCik "1234567") = normalizeCik "1234567"
  /\ normalizeAccessionDigits "000123456724000123" = "000123456724000123"
  /\ normalizeAccessionDigits (normalizeAccessionDigits "000123456724000123")
     = normalizeAccessionDigits "000123456724000123".
Proof.
  apply (normalize_idempotent_on_canonical "1234567" "000123456724000123").
  - reflexivity.
  - vm_compute. reflexivity.
  - reflexivity.
Defined.

(** ** Link resolution, for every URL parser *)

Section LinkFacts.

Variable URL_parse : string -> option URL.

Local Abbreviation canonicalize := (canonicalizeSecUrl URL_parse).
Local Abbreviation isUsable := (isUsableSecFilingUrl URL_parse).
Local Abbreviation toViewer := (toIxViewerUrl URL_parse).

Ltac run_body :=
  unfold try_catch, bind, new_URL;
  repeat match goal with
         | |- context [match URL_parse ?v with _ => _ end] =>
             destruct (URL_parse v)
         | |- context [if ?b then _ else _] => destruct b
         end.

Lemma canonicalizeSecUrl_total (url : string) (alert : Alert) :
  exists s, canonicalize url alert = Normal s.
Proof. unfold canonicalizeSecUrl. run_body; eauto. Qed.

Lemma isUsableSecFilingUrl_total (url : string) :
  exists b, isUsable url = Normal b.
Proof. unfold isUsableSecFilingUrl. run_body; eauto. Qed.

Lemma toIxViewerUrl_total (url : string) :
  exists s, toViewer url = Normal s.
Proof. unfold toIxViewerUrl. run_body; eauto. Qed.

Lemma canonicalizeSecUrl_malformed (url : string) (alert : Alert) :
  URL_parse (Js.trim url) = None -> canonicalize url alert = Normal "".
Proof.
  intros H. unfold canonicalizeSecUrl, new_URL. rewrite H.
  destruct (Js.is_empty _); reflexivity.
Qed.

Lemma isUsableSecFilingUrl_malformed (url : string) :
  URL_parse (Js.trim url) = None -> isUsable url = Normal false.
Proof.
  intros H. unfold isUsableSecFilingUrl, new_URL. rewrite H.
  destruct (Js.is_empty _); reflexivity.
Qed.

Lemma isUsableSecFilingUrl_empty : isUsable "" = Normal false.
Proof. reflexivity. Qed.

Lemma find_usable_total (items : list string) :
  exists o, find_usable URL_parse items = Normal o.
Proof.
  induction items as [|x r IH]; cbn [find_usable]; [eauto|].
  destruct (isUsableSecFilingUrl_total x) as [b ->]. cbn [bind].
  destruct b; eauto.
Qed.

Lemma find_usable_some (items : list string) (x : string) :
  find_usable URL_parse items = Normal (Some x) ->
  In x items /\ isUsable x = Normal true.
Proof.
  induction items as [|y r IH]; cbn [find_usable]; [discriminate|].
  destruct (isUsableSecFilingUrl_total y) as [b Hb]. rewrite Hb. cbn [bind].
  destruct b.
  - intros [= <-]. split; [now left | assumption].
  - intros H. destruct (IH H). split; [now right | assumption].
Qed.

Lemma find_usable_none (items : list string) :
  find_usable URL_parse items = Normal None ->
  forall x, In x items -> isUsable x = Normal false.
Proof.
  induction items as [|y r IH]; cbn [find_usable]; [intros _ x []|].
  destruct (isUsableSecFilingUrl_total y) as [b Hb]. rewrite Hb. cbn [bind].
  destruct b; [discriminate|].
  intros H x [<-|Hin]; auto.
Qed.

Lemma or_else_nonempty (a b : string) : b <> "" -> or_else a b <> "".
Proof. unfold or_else. destruct a; cbn; intros; [assumption | discriminate]. Qed.

(** The value [resolveLinks] returns, in terms of the values of its
    calls. *)
Lemma resolveLinks_unfold (alert : Alert) (c1 c2 c3 : string)
      (found : option string) (usable : bool) :
  canonicalize (primary_document_url alert) alert = Normal c1 ->
  canonicalize (sec_filing_url alert) alert = Normal c2 ->
  canonicalize (sec_index_url alert) alert = Normal c3 ->
  find_usable URL_parse [c1; c2; c3] = Normal found ->
  isUsable c1 = Normal usable ->
  let best :=
    or_else
      (or_else (match found with Some item => item | None => "" end)
               (buildEdgarIndexUrl (cik alert) (accession_number alert)))
      "#" in
  forall viewer, toViewer best = Normal viewer ->
  resolveLinks URL_parse alert =
  Normal
    {| secLink := or_else viewer best;
       primaryLink :=
         if negb (Js.is_empty (if usable then c1 else ""))
            && negb (String.eqb (if usable then c1 else "")
                                (or_else viewer best))
         then (if usable then c1 else "") else "" |}.
Proof.
  intros H1 H2 H3 Hf Hu best viewer Hv. unfold resolveLinks.
  rewrite H1, H2, H3. cbn [bind]. rewrite Hf. cbn [bind].
  rewrite Hu. cbn [bind]. fold best. rewrite Hv. reflexivity.
Qed.

Lemma resolveLinks_total (alert : Alert) :
  exists l, resolveLinks URL_parse alert = Normal l.
Proof.
  destruct (canonicalizeSecUrl_total (primary_document_url alert) alert) as [c1 H1].
  destruct (canonicalizeSecUrl_total (sec_filing_url alert) alert) as [c2 H2].
  destruct (canonicalizeSecUrl_total (sec_index_url alert) alert) as [c3 H3].
  destruct (find_usable_total [c1; c2; c3]) as [found Hf].
  destruct (isUsableSecFilingUrl_total c1) as [usable Hu].
  pose proof (resolveLinks_unfold alert c1 c2 c3 found usable H1 H2 H3 Hf Hu) as H.
  cbv zeta in H.
  destruct (toIxViewerUrl_total
              (or_else (or_else match found with Some i => i | None => "" end
                          (buildEdgarIndexUrl (cik alert) (accession_number alert)))
                 "#")) as [viewer Hv].
  rewrite (H viewer Hv). eauto.
Qed.

End LinkFacts.

(** C5: for every string [url] and every record, [canonicalizeSecUrl] and
    [isUsableSecFilingUrl] complete normally, with a string and a boolean,
    whatever the URL constructor does; where the constructor throws
    (malformed input) the results are the empty string and [false]. *)
Theorem canonicalize_isUsable_never_throw
        (URL_parse : string -> option URL) (url : string) (alert : Alert) :
  (exists s, canonicalizeSecUrl URL_parse url alert = Normal s)
  /\ (exists b, isUsableSecFilingUrl URL_parse url = Normal b)
  /\ (URL_parse (Js.trim url) = None ->
      canonicalizeSecUrl URL_parse url alert = Normal ""
      /\ isUsableSecFilingUrl URL_parse url = Normal false).
Proof.
  split; [apply canonicalizeSecUrl_total|].
  split; [apply isUsableSecFilingUrl_total|].
  intros H. split.
  - now apply canonicalizeSecUrl_malformed.
  - now apply isUsableSecFilingUrl_malformed.
Qed.

(** C7: for every record, [resolveLinks] returns a [secLink] that is not
    the empty string, and a [primaryLink] that is empty or differs from
    [secLink]. *)
Theorem resolveLinks_links_distinct
        (URL_parse : string -> option URL) (alert : Alert) :
  exists l,
    resolveLinks URL_parse alert = Normal l
    /\ secLink l <> ""
    /\ (primaryLink l = "" \/ primaryLink l <> secLink l).
Proof.
  destruct (canonicalizeSecUrl_total URL_parse (primary_document_url alert) alert)
    as [c1 H1].
  destruct (canonicalizeSecUrl_total URL_parse (sec_filing_url alert) alert)
    as [c2 H2].
  destruct (canonicalizeSecUrl_total URL_parse (sec_index_url alert) alert)
    as [c3 H3].
  destruct (find_usable_total URL_parse [c1; c2; c3]) as [found Hf].
  destruct (isUsableSecFilingUrl_total URL_parse c1) as [usable Hu].
  pose proof (resolveLinks_unfold URL_parse alert c1 c2 c3 found usable
                H1 H2 H3 Hf Hu) as H.
  cbv zeta in H.
  set (best := or_else _ "#") in H.
  destruct (toIxViewerUrl_total URL_parse best) as [viewer Hv].
  rewrite (H viewer Hv). eexists. split; [reflexivity|]. cbn [secLink primaryLink].
  assert (Hbest : best <> "") by (apply or_else_nonempty; discriminate).
  split.
  - now apply or_else_nonempty.
  - destruct (negb (Js.is_empty _)); cbn [andb]; [|now left].
    destruct (String.eqb_spec (if usable then c1 else "") (or_else viewer best));
      cbn [negb]; [now left | now right].
Qed.

(** C10: [resolveLinks] reads only [primary_document_url],
    [sec_filing_url], [sec_index_url], [cik] and [accession_number]: two
    records that agree on these five fields get the same result. *)
Theorem resolveLinks_depends_on_five_fields
        (URL_parse : string -> option URL) (a b : Alert) :
  primary_document_url a = primary_document_url b ->
  sec_filing_url a = sec_filing_url b ->
  sec_index_url a = sec_index_url b ->
  cik a = cik b ->
  accession_number a = accession_number b ->
  resolveLinks URL_parse a = resolveLinks URL_parse b.
Proof.
  intros Hp Hs Hi Hc Ha.
  assert (E : forall url, canonicalizeSecUrl URL_parse url a
                          = canonicalizeSecUrl URL_parse url b).
  { intros url. unfold canonicalizeSecUrl. now rewrite Hc, Ha. }
  unfold resolveLinks. rewrite Hp, Hs, Hi, Hc, Ha, !E. reflexivity.
Qed.

(** ** The URL parser on archive paths *)

Module ParserFacts.
Import Whatwg.

Ltac by_cases c :=
  destruct c as [[] [] [] [] [] [] [] []]; vm_compute; try reflexivity;
  try discriminate; auto.

Lemma plain_not_delimiter (c : ascii) :
  plain_char c = true ->
  (ch c "?" || ch c "#") = false /\ is_slash true c = false
  /\ encode_char in_path_set c = String c "".
Proof. by_cases c; intros; discriminate. Qed.

Lemma plain_kept (c : ascii) :
  plain_char c = true ->
  is_c0_or_space c = false /\ negb (is_tab_or_newline c) = true.
Proof. by_cases c; intros; discriminate. Qed.

Lemma slash_kept (c : ascii) :
  ch c "/" = true ->
  is_c0_or_space c = false /\ negb (is_tab_or_newline c) = true.
Proof. by_cases c; intros; discriminate. Qed.

Lemma accession_char_plain (c : ascii) :
  accession_char c = true -> plain_char c = true /\ opens_segment c = true.
Proof. by_cases c; intros; discriminate. Qed.

Lemma number_char_plain (c : ascii) :
  number_char c = true -> plain_char c = true.
Proof. by_cases c. Qed.

Lemma digit_number_char (c : ascii) :
  Js.is_digit c = true -> number_char c = true /\ opens_segment c = true.
Proof. by_cases c; intros; discriminate. Qed.

Lemma alpha_plain (c : ascii) :
  Js.is_alpha c = true -> plain_char c = true /\ opens_segment c = true.
Proof. by_cases c; intros; discriminate. Qed.

Lemma kept_not_space (c : ascii) :
  negb (is_c0_or_space c) && negb (is_tab_or_newline c) = true ->
  Js.is_space c = false.
Proof. by_cases c; intros; discriminate. Qed.

Lemma lower_char_slash (c : ascii) :
  ch (Js.lower_char c) "/" = ch c "/".
Proof. by_cases c. Qed.

Lemma plain_not_slash (c : ascii) : plain_char c = true -> ch c "/" = false.
Proof. by_cases c; intros; discriminate. Qed.

(** *** Preprocessing leaves such input alone *)

Lemma strip_trailing_kept (s : string) :
  Js.forallb kept s = true -> strip_trailing s = s.
Proof.
  induction s as [|c r IH]; cbn [strip_trailing Js.forallb]; [reflexivity|].
  intros H. apply andb_true_iff in H. destruct H as [Hc Hr].
  rewrite (IH Hr). unfold kept in Hc. apply andb_true_iff in Hc.
  destruct Hc as [Hc _]. apply negb_true_iff in Hc. rewrite Hc.
  destruct r; reflexivity.
Qed.

Lemma preprocess_kept (c : ascii) (r : string) :
  Js.forallb kept (String c r) = true -> preprocess (String c r) = String c r.
Proof.
  intros H. unfold preprocess.
  assert (Hc : is_c0_or_space c = false).
  { cbn [Js.forallb] in H. apply andb_true_iff in H. destruct H as [H _].
    unfold kept in H. apply andb_true_iff in H. destruct H as [H _].
    now apply negb_true_iff in H. }
  cbn [strip_leading]. rewrite Hc. rewrite (strip_trailing_kept _ H).
  apply filter_forallb. revert H. apply forallb_weaken.
  intros x Hx. unfold kept in Hx. apply andb_true_iff in Hx. tauto.
Qed.

(** *** Serialised segments *)

Lemma serialize_segments_kept (l : list string) :
  Forall (fun seg => Js.forallb plain_char seg = true) l ->
  Js.forallb kept (serialize_segments l) = true.
Proof.
  induction 1 as [|seg l Hseg _ IH]; cbn [serialize_segments]; [reflexivity|].
  change (String "/" seg ++ serialize_segments l)
    with (String "/" (seg ++ serialize_segments l)).
  cbn [Js.forallb]. rewrite forallb_app, IH, andb_true_r.
  apply andb_true_iff. split; [reflexivity|].
  revert Hseg. apply forallb_weaken. intros c Hc.
  destruct (plain_kept c Hc) as [H1 H2]. unfold kept. now rewrite H1, H2.
Qed.

(** *** The path state on plain segments *)

Lemma path_state_plain (sp : bool) (seg t buf : string) (path : list string) :
  sp = true ->
  Js.forallb plain_char seg = true ->
  path_state sp (seg ++ t) buf path = path_state sp t (buf ++ seg) path.
Proof.
  intros ->. revert buf.
  induction seg as [|c r IH]; intros buf H.
  - cbn [append]. now rewrite append_nil_r.
  - cbn [Js.forallb] in H. apply andb_true_iff in H. destruct H as [Hc Hr].
    destruct (plain_not_delimiter c Hc) as (H1 & H2 & H3).
    cbn [append path_state]. rewrite H1, H2, H3, (IH _ Hr).
    rewrite append_assoc. reflexivity.
Qed.

Lemma plain_segment_not_dot (seg : string) :
  plain_segment seg -> seg <> "" ->
  is_double_dot seg = false /\ is_single_dot seg = false.
Proof.
  intros [_ H] Hne. destruct seg as [|c r]; [congruence|].
  unfold opens_segment in H. apply andb_true_iff in H. destruct H as [Hd Hp].
  apply negb_true_iff in Hd, Hp. unfold ch in Hd, Hp.
  unfold is_double_dot, is_single_dot, Js.toLowerCase.
  cbn [Js.map String.eqb]. rewrite Hd, Hp. cbn [andb orb]. split; reflexivity.
Qed.

Lemma path_state_segments (rest : list string) :
  forall (seg buf : string) (path : list string),
    Js.forallb plain_char seg = true ->
    plain_segment (buf ++ seg) -> buf ++ seg <> "" ->
    Forall (fun x => plain_segment x /\ x <> "") rest ->
    path_state true (seg ++ serialize_segments rest) buf path
    = ((path ++ ((buf ++ seg)%string :: rest))%list, "").
Proof.
  induction rest as [|x rest IH]; intros seg buf path Hseg Hps Hne Hrest.
  - cbn [serialize_segments]. rewrite path_state_plain by auto.
    cbn [path_state]. unfold push_final.
    destruct (plain_segment_not_dot _ Hps Hne) as [-> ->]. reflexivity.
  - inversion Hrest as [|? ? [Hx Hxne] Hrest']; subst.
    cbn [serialize_segments].
    change (String "/" x ++ serialize_segments rest)
      with (String "/" (x ++ serialize_segments rest)).
    rewrite path_state_plain by auto.
    cbn [path_state]. change (ch "/" "?" || ch "/" "#") with false.
    change (is_slash true "/") with true. cbv iota.
    unfold push_segment.
    destruct (plain_segment_not_dot _ Hps Hne) as [-> ->].
    rewrite (IH x "" (path ++ [(buf ++ seg)%string])%list); cbn [append]; auto.
    + rewrite <- app_assoc. reflexivity.
    + apply Hx.
Qed.

(** [new URL] on [https://www.sec.gov] followed by plain segments. *)
Lemma parse_sec_gov_path (seg : string) (rest : list string) :
  Forall (fun x => plain_segment x /\ x <> "") (seg :: rest) ->
  parse ("https://www.sec.gov" ++ serialize_segments (seg :: rest))
  = Some (mkURL "www.sec.gov" (serialize_segments (seg :: rest)) None
            ("https://www.sec.gov" ++ serialize_segments (seg :: rest))).
Proof.
  intros Hall.
  assert (Hkept : Js.forallb kept
            ("https://www.sec.gov" ++ serialize_segments (seg :: rest)) = true).
  { rewrite forallb_app. apply andb_true_iff. split; [reflexivity|].
    apply serialize_segments_kept.
    eapply Forall_impl; [|exact Hall]. intros x [[Hx _] _]. exact Hx. }
  inversion Hall as [|? ? [Hseg Hne] Hrest]; subst.
  unfold parse, basic_parse. cbn [append] in Hkept |- *.
  rewrite (preprocess_kept "h" _ Hkept).
  cbn [serialize_segments].
  change (String "/" seg ++ serialize_segments rest)
    with (String "/" (seg ++ serialize_segments rest)).
  cbn -[path_state serialize_segments authority_state].
  change (authority_state "https" true "www.sec.gov")
    with (Some ("", "", "www.sec.gov", @None Z)).
  cbv iota beta.
  rewrite (path_state_segments rest seg "" []); cbn [append]; auto;
    [|apply Hseg].
  cbn [app query_and_fragment option_map]. unfold api, serialize.
  cbn -[serialize_segments append].
  cbn [serialize_path serialize_segments]. f_equal. f_equal.
  change (String "/" seg ++ serialize_segments rest)
    with (String "/" (seg ++ serialize_segments rest)).
  cbn [append]. now rewrite !append_nil_r.
Qed.

End ParserFacts.

(** ** Paths read back by the script *)

Module PathFacts.
Import Whatwg.

Lemma map_app (f : ascii -> ascii) (a b : string) :
  Js.map f (a ++ b) = Js.map f a ++ Js.map f b.
Proof. induction a as [|c r IH]; cbn; [reflexivity | now rewrite IH]. Qed.

Lemma lower_serialize (l : list string) :
  Js.toLowerCase (serialize_segments l)
  = serialize_segments (List.map Js.toLowerCase l).
Proof.
  induction l as [|x r IH]; [reflexivity|].
  cbn [serialize_segments List.map]. unfold Js.toLowerCase in *.
  rewrite map_app, IH. reflexivity.
Qed.

Lemma lower_no_slash (seg : string) :
  no_slash seg = true -> no_slash (Js.toLowerCase seg) = true.
Proof.
  unfold no_slash, Js.toLowerCase.
  induction seg as [|c r IH]; cbn [Js.map Js.forallb]; [reflexivity|].
  intros H. apply andb_true_iff in H. destruct H as [Hc Hr].
  rewrite ParserFacts.lower_char_slash, Hc. now apply IH.
Qed.

Lemma plain_no_slash (seg : string) :
  Js.forallb plain_char seg = true -> no_slash seg = true.
Proof.
  apply forallb_weaken. intros c Hc.
  now rewrite (ParserFacts.plain_not_slash c Hc).
Qed.

Lemma split_no_sep (a : string) :
  no_slash a = true -> Js.split "/" a = [a].
Proof.
  unfold no_slash.
  induction a as [|c r IH]; cbn [Js.split Js.forallb]; [reflexivity|].
  intros H. apply andb_true_iff in H. destruct H as [Hc Hr].
  apply negb_true_iff in Hc. unfold ch in Hc. rewrite Hc, (IH Hr). reflexivity.
Qed.

Lemma split_app_sep (a rest : string) :
  no_slash a = true ->
  Js.split "/" (a ++ String "/" rest) = a :: Js.split "/" rest.
Proof.
  unfold no_slash.
  induction a as [|c r IH]; cbn [Js.split Js.forallb append]; [reflexivity|].
  intros H. apply andb_true_iff in H. destruct H as [Hc Hr].
  apply negb_true_iff in Hc. unfold ch in Hc. rewrite Hc, (IH Hr). reflexivity.
Qed.

Lemma split_segments (r : list string) :
  forall a, no_slash a = true -> Forall (fun x => no_slash x = true) r ->
            Js.split "/" (a ++ serialize_segments r) = a :: r.
Proof.
  induction r as [|b r IH]; intros a Ha Hr; cbn [serialize_segments].
  - rewrite append_nil_r. now apply split_no_sep.
  - inversion Hr; subst.
    change (String "/" b ++ serialize_segments r)
      with (String "/" (b ++ serialize_segments r)).
    rewrite split_app_sep by assumption. f_equal. now apply IH.
Qed.

Lemma last_filter_snoc (f : string -> bool) (l : list string) (x d : string) :
  f x = true -> List.last (List.filter f (l ++ [x])) d = x.
Proof.
  intros Hx. rewrite filter_app. cbn [List.filter]. rewrite Hx.
  apply last_last.
Qed.

Lemma last_segment_serialize (l : list string) (x : string) :
  Forall (fun y => no_slash y = true) l -> no_slash x = true -> x <> "" ->
  last_segment (serialize_segments (l ++ [x])) = x.
Proof.
  intros Hl Hx Hne. unfold last_segment, Js.pop_or_empty.
  change (serialize_segments (l ++ [x]))
    with ("" ++ serialize_segments (l ++ [x])).
  rewrite split_segments; [|reflexivity|].
  - change ("" :: l ++ [x])%list with (("" :: l) ++ [x])%list.
    apply last_filter_snoc. destruct x; [congruence | reflexivity].
  - apply Forall_app. split; [assumption | now constructor].
Qed.

Lemma includes_app_r (a b p : string) :
  Js.includes b p = true -> Js.includes (a ++ b) p = true.
Proof.
  intros H. induction a as [|c r IH]; [exact H|].
  cbn [append Js.includes]. rewrite IH. apply orb_true_r.
Qed.

Lemma eqb_length (a b : string) :
  String.eqb a b = true -> String.length a = String.length b.
Proof. intros H. apply String.eqb_eq in H. now subst. Qed.

Lemma map_length (f : ascii -> ascii) (a : string) :
  String.length (Js.map f a) = String.length a.
Proof. induction a as [|c r IH]; cbn; [reflexivity | now rewrite IH]. Qed.

(** The final segment [raw-index.html], lower-cased, names a document
    and not an index page. *)
Lemma index_document_segment (raw : string) :
  let last := Js.toLowerCase (raw ++ "-index.html") in
  Js.includes last "." = true /\ is_index_page last = false.
Proof.
  cbv zeta. unfold Js.toLowerCase. rewrite map_app. split.
  - apply includes_app_r. reflexivity.
  - unfold is_index_page. apply orb_false_iff.
    split; apply not_true_is_false; intros H; apply eqb_length in H;
      rewrite length_append in H; cbn in H; lia.
Qed.

End PathFacts.

(** ** The synthesized index URL *)

Module FallbackFacts.
Import Whatwg.

Lemma toString_segment (x : JsNumber.Number) :
  match x with JsNumber.Finite z => 0 <= z | JsNumber.Infinity => True end ->
  Js.forallb number_char (JsNumber.toString x) = true
  /\ match JsNumber.toString x with
     | String c _ => opens_segment c = true
     | EmptyString => True
     end.
Proof.
  assert (Hw : forall t, Js.forallb Js.is_digit t = true ->
                         Js.forallb number_char t = true).
  { intros t. apply forallb_weaken. intros c Hc.
    apply (ParserFacts.digit_number_char c Hc). }
  destruct x as [z|]; [|intros _; split; reflexivity].
  intros Hz. cbn [JsNumber.toString].
  destruct (Z.eqb_spec z 0) as [->|Hnz]; [split; reflexivity|].
  pose proof (NumberFacts.shortest_positive z ltac:(lia)) as H.
  destruct (JsNumber.shortest z) as [[s k] n]. destruct H as [Hs Hn].
  destruct (NumberFacts.decimal_shape s ltac:(lia)) as (c & r & E & Hc & Hr).
  destruct (NumberFacts.decimal_shape (n - 1) ltac:(lia)) as (c' & r' & E' & Hc' & Hr').
  destruct (ParserFacts.digit_number_char c Hc) as [Hnc Hoc].
  assert (He : Js.forallb number_char (JsNumber.decimal (n - 1)) = true).
  { apply Hw. rewrite E'. cbn [Js.forallb]. now rewrite Hc', Hr'. }
  rewrite E. destruct (n <=? 21).
  - cbn [append Js.forallb]. rewrite Hnc, forallb_app, (Hw r Hr).
    rewrite (Hw _ (NumberFacts.repeat0_digits _)). split; [reflexivity | exact Hoc].
  - destruct r as [|d ds].
    + cbn [append Js.forallb]. rewrite Hnc, He. split; [reflexivity | exact Hoc].
    + cbn [append Js.forallb]. rewrite Hnc, forallb_app.
      cbn [Js.forallb] in Hr. apply andb_true_iff in Hr. destruct Hr as [Hd Hds].
      destruct (ParserFacts.digit_number_char d Hd) as [Hnd _].
      rewrite Hnd, (Hw ds Hds). cbn [Js.forallb]. rewrite He.
      split; [reflexivity | exact Hoc].
Qed.

Lemma normalizeCik_segment (cik : string) :
  plain_segment (normalizeCik cik).
Proof.
  unfold normalizeCik. set (digits := Js.filter Js.is_digit cik).
  destruct (Js.is_empty digits); [split; [reflexivity | exact I]|].
  assert (Hv : 0 <= JsNumber.digits_value digits).
  { apply NumberFacts.digits_value_nonneg. apply forallb_filter. }
  pose proof (NumberFacts.round_nonneg _ Hv) as Hr.
  unfold JsNumber.parseInt_digits, JsNumber.to_Number.
  destruct (toString_segment
              (if JsNumber.round_binary64 (JsNumber.digits_value digits) <? 2 ^ 1024
               then JsNumber.Finite (JsNumber.round_binary64 (JsNumber.digits_value digits))
               else JsNumber.Infinity)) as [H1 H2].
  { destruct (_ <? _); [assumption | exact I]. }
  split; [|exact H2].
  revert H1. apply forallb_weaken. apply ParserFacts.number_char_plain.
Qed.

Lemma digits_segment (d : string) :
  Js.forallb Js.is_digit d = true -> plain_segment d.
Proof.
  intros H. split.
  - revert H. apply forallb_weaken. intros c Hc.
    apply ParserFacts.number_char_plain.
    apply (ParserFacts.digit_number_char c Hc).
  - destruct d as [|c r]; [exact I|].
    cbn [Js.forallb] in H. apply andb_true_iff in H. destruct H as [Hc _].
    apply (ParserFacts.digit_number_char c Hc).
Qed.

Lemma index_segment (raw : string) :
  Js.forallb accession_char raw = true -> raw <> "" ->
  plain_segment (raw ++ "-index.html").
Proof.
  intros H Hne. split.
  - rewrite forallb_app. apply andb_true_iff. split; [|reflexivity].
    revert H. apply forallb_weaken. intros c Hc.
    apply (ParserFacts.accession_char_plain c Hc).
  - destruct raw as [|c r]; [congruence|]. cbn [append].
    cbn [Js.forallb] in H. apply andb_true_iff in H. destruct H as [Hc _].
    apply (ParserFacts.accession_char_plain c Hc).
Qed.

Lemma buildEdgarIndexUrl_shape (cik accession : string) :
  buildEdgarIndexUrl cik accession <> "" ->
  normalizeCik cik <> "" /\ normalizeAccessionDigits accession <> ""
  /\ Js.trim accession <> ""
  /\ buildEdgarIndexUrl cik accession
     = "https://www.sec.gov" ++ serialize_segments (index_segments cik accession).
Proof.
  unfold buildEdgarIndexUrl, index_segments.
  destruct (normalizeCik cik) as [|c1 r1]; [cbn; congruence|].
  destruct (normalizeAccessionDigits accession) as [|c2 r2]; [cbn; congruence|].
  destruct (Js.trim accession) as [|c3 r3]; [cbn; congruence|].
  intros _. repeat split; try discriminate.
  cbn [Js.is_empty orb serialize_segments append].
  repeat (rewrite !append_assoc; cbn [append]).
  rewrite ?append_nil_r. reflexivity.
Qed.

Lemma index_segments_plain (cik accession : string) :
  conventional_accession accession = true ->
  buildEdgarIndexUrl cik accession <> "" ->
  Forall (fun x => plain_segment x /\ x <> "") (index_segments cik accession).
Proof.
  intros Hconv Hne.
  destruct (buildEdgarIndexUrl_shape cik accession Hne) as (Hc & Hd & Hr & _).
  unfold index_segments.
  assert (Hword : forall w, Js.forallb Js.is_alpha w = true -> w <> "" ->
                            plain_segment w /\ w <> "").
  { intros w Hw Hwne. split; [|assumption]. split.
    - revert Hw. apply forallb_weaken. apply ParserFacts.alpha_plain.
    - destruct w as [|c r]; [exact I|].
      cbn [Js.forallb] in Hw. apply andb_true_iff in Hw. destruct Hw as [Hw _].
      apply (ParserFacts.alpha_plain c Hw). }
  apply Forall_cons; [apply Hword; [reflexivity | discriminate]|].
  apply Forall_cons; [apply Hword; [reflexivity | discriminate]|].
  apply Forall_cons; [apply Hword; [reflexivity | discriminate]|].
  apply Forall_cons; [split; [apply normalizeCik_segment | assumption]|].
  apply Forall_cons;
    [split; [apply digits_segment, forallb_filter | assumption]|].
  apply Forall_cons; [|apply Forall_nil].
  split; [now apply index_segment|].
  intros E. destruct (Js.trim accession); [congruence | discriminate].
Qed.

Lemma parse_index_url (cik accession : string) :
  conventional_accession accession = true ->
  buildEdgarIndexUrl cik accession <> "" ->
  parse (buildEdgarIndexUrl cik accession)
  = Some (mkURL "www.sec.gov"
            (serialize_segments (index_segments cik accession)) None
            (buildEdgarIndexUrl cik accession)).
Proof.
  intros Hconv Hne.
  destruct (buildEdgarIndexUrl_shape cik accession Hne) as (_ & _ & _ & E).
  rewrite E. apply ParserFacts.parse_sec_gov_path.
  now apply index_segments_plain.
Qed.

Lemma trim_kept (s : string) :
  Js.forallb kept s = true -> Js.trim s = s.
Proof.
  intros H. unfold Js.trim.
  assert (Hs : Js.forallb (fun c => negb (Js.is_space c)) s = true).
  { revert H. apply forallb_weaken. intros c Hc.
    now rewrite (ParserFacts.kept_not_space c Hc). }
  assert (E : Js.trimStart s = s).
  { destruct s as [|c r]; [reflexivity|]. cbn [Js.trimStart].
    cbn [Js.forallb] in Hs. apply andb_true_iff in Hs. destruct Hs as [Hc _].
    apply negb_true_iff in Hc. now rewrite Hc. }
  rewrite E. clear E H.
  induction s as [|c r IH]; cbn [Js.trimEnd Js.forallb] in *; [reflexivity|].
  apply andb_true_iff in Hs. destruct Hs as [Hc Hr].
  apply negb_true_iff in Hc. rewrite (IH Hr), Hc. destruct r; reflexivity.
Qed.

Lemma index_url_kept (cik accession : string) :
  conventional_accession accession = true ->
  buildEdgarIndexUrl cik accession <> "" ->
  Js.forallb kept (buildEdgarIndexUrl cik accession) = true.
Proof.
  intros Hconv Hne.
  destruct (buildEdgarIndexUrl_shape cik accession Hne) as (_ & _ & _ & E).
  rewrite E, forallb_app. apply andb_true_iff. split; [reflexivity|].
  apply ParserFacts.serialize_segments_kept.
  eapply Forall_impl; [|apply index_segments_plain; eassumption].
  intros x [[Hx _] _]. exact Hx.
Qed.

(** What the script's path tests find on the synthesized index URL. *)
Lemma index_path_tests (cik accession : string) :
  conventional_accession accession = true ->
  buildEdgarIndexUrl cik accession <> "" ->
  let path := serialize_segments (index_segments cik accession) in
  let lowerPath := Js.toLowerCase path in
  (String.eqb path "/" || String.eqb path "") = false
  /\ String.eqb lowerPath "/ix" = false
  /\ Js.includes lowerPath "/archives/" = true
  /\ Js.includes (last_segment lowerPath) "." = true
  /\ is_index_page (last_segment lowerPath) = false.
Proof.
  intros Hconv Hne. cbv zeta.
  split; [reflexivity|]. split; [reflexivity|]. split; [reflexivity|].
  assert (Hlast : last_segment
                    (Js.toLowerCase (serialize_segments (index_segments cik accession)))
                  = Js.toLowerCase (Js.trim accession ++ "-index.html")).
  { rewrite PathFacts.lower_serialize. unfold index_segments. cbn [List.map].
    match goal with
    | |- last_segment (serialize_segments [?a; ?b; ?c; ?d; ?e; ?f]) = _ =>
        change [a; b; c; d; e; f] with ([a; b; c; d; e] ++ [f])%list
    end.
    pose proof (index_segments_plain cik accession Hconv Hne) as Hall.
    unfold index_segments in Hall.
    assert (Hns : Forall (fun x => no_slash (Js.toLowerCase x) = true)
                    [normalizeCik cik; normalizeAccessionDigits accession;
                     (Js.trim accession ++ "-index.html")%string]).
    { do 3 (apply Forall_inv_tail in Hall).
      eapply Forall_impl; [|exact Hall].
      intros x [[Hx _] _]. apply PathFacts.lower_no_slash.
      now apply PathFacts.plain_no_slash. }
    inversion Hns as [|? ? H1 Hns1]; subst.
    inversion Hns1 as [|? ? H2 Hns2]; subst.
    inversion Hns2 as [|? ? H3 _]; subst.
    apply PathFacts.last_segment_serialize.
    - repeat constructor; assumption.
    - assumption.
    - unfold Js.toLowerCase. rewrite PathFacts.map_app.
      destruct (Js.map Js.lower_char (Js.trim accession)); discriminate. }
  rewrite Hlast. apply PathFacts.index_document_segment.
Qed.

Lemma index_url_viewer (cik accession : string) :
  conventional_accession accession = true ->
  buildEdgarIndexUrl cik accession <> "" ->
  toIxViewerUrl parse (buildEdgarIndexUrl cik accession)
  = Normal ("https://www.sec.gov/ix?doc="
            ++ serialize_segments (index_segments cik accession)).
Proof.
  intros Hconv Hne.
  destruct (index_path_tests cik accession Hconv Hne) as (H1 & H2 & H3 & H4 & H5).
  unfold toIxViewerUrl, new_URL.
  rewrite (trim_kept _ (index_url_kept cik accession Hconv Hne)).
  rewrite (parse_index_url cik accession Hconv Hne).
  destruct (buildEdgarIndexUrl cik accession) eqn:E; [congruence|].
  cbn [Js.is_empty bind try_catch hostname pathname].
  change (sec_gov_test "www.sec.gov") with true. cbn [negb].
  rewrite H2, H3, H4, H5. reflexivity.
Qed.

(** The same for any parser that reads the synthesized index URL as a
    URL of host [www.sec.gov] with the path written in it. *)
Lemma index_url_viewer_of (URL_parse : string -> option URL)
      (cik accession : string) (u : URL) :
  conventional_accession accession = true ->
  buildEdgarIndexUrl cik accession <> "" ->
  URL_parse (buildEdgarIndexUrl cik accession) = Some u ->
  hostname u = "www.sec.gov" ->
  pathname u = serialize_segments (index_segments cik accession) ->
  toIxViewerUrl URL_parse (buildEdgarIndexUrl cik accession)
  = Normal ("https://www.sec.gov/ix?doc="
            ++ serialize_segments (index_segments cik accession)).
Proof.
  intros Hconv Hne Hu Hh Hp.
  destruct (index_path_tests cik accession Hconv Hne) as (H1 & H2 & H3 & H4 & H5).
  unfold toIxViewerUrl, new_URL.
  rewrite (trim_kept _ (index_url_kept cik accession Hconv Hne)).
  rewrite Hu.
  destruct (buildEdgarIndexUrl cik accession) eqn:E; [congruence|].
  cbn [Js.is_empty bind try_catch]. rewrite Hh, Hp.
  change (sec_gov_test "www.sec.gov") with true. cbn [negb].
  rewrite H2, H3, H4, H5. reflexivity.
Qed.

Lemma serialize_index_segments (cik accession : string) :
  serialize_segments (index_segments cik accession)
  = "/Archives/edgar/data/" ++ normalizeCik cik ++ "/"
    ++ normalizeAccessionDigits accession ++ "/" ++ Js.trim accession
    ++ "-index.html".
Proof.
  unfold index_segments. cbn [serialize_segments append].
  repeat (rewrite !append_assoc; cbn [append]).
  rewrite ?append_nil_r. reflexivity.
Qed.

End FallbackFacts.

(** ** Claims on link resolution with the URL parser *)

Lemma canonicalizeSecUrl_host_suffix
      (URL_parse : string -> option URL) (url : string) (alert : Alert) (s : string) :
  canonicalizeSecUrl URL_parse url alert = Normal s -> s <> "" ->
  exists u, URL_parse (Js.trim url) = Some u /\ sec_gov_test (hostname u) = true.
Proof.
  unfold canonicalizeSecUrl, new_URL.
  destruct (Js.is_empty (Js.trim url)); [intros [= <-]; congruence|].
  destruct (URL_parse (Js.trim url)) as [u|]; cbn [bind try_catch];
    [|intros [= <-]; congruence].
  destruct (sec_gov_test (hostname u)) eqn:E; cbn [negb].
  - intros _ _. eauto.
  - intros [= <-]. congruence.
Qed.

Lemma canonicalizeSecUrl_rejects_evil_example (alert : Alert) :
  canonicalizeSecUrl Whatwg.parse
    "https://sec.gov.evil.example/Archives/x.htm" alert = Normal "".
Proof. reflexivity. Qed.

Lemma canonicalizeSecUrl_accepts_document (alert : Alert) :
  canonicalizeSecUrl Whatwg.parse
    "https://www.sec.gov/Archives/edgar/data/1/2/x.htm" alert
  = Normal "https://www.sec.gov/Archives/edgar/data/1/2/x.htm".
Proof. reflexivity. Qed.

(** C1, at the failing input: the host [notsec.gov] is neither [sec.gov]
    nor a subdomain of it, and [canonicalizeSecUrl] accepts
    [https://notsec.gov/Archives/x.htm] unchanged, for every record. *)
Theorem canonicalizeSecUrl_accepts_notsec_gov (alert : Alert) :
  option_map hostname (Whatwg.parse "https://notsec.gov/Archives/x.htm")
  = Some "notsec.gov"
  /\ is_sec_gov_or_subdomain "notsec.gov" = false
  /\ canonicalizeSecUrl Whatwg.parse "https://notsec.gov/Archives/x.htm" alert
     = Normal "https://notsec.gov/Archives/x.htm".
Proof. repeat split; reflexivity. Qed.

(** C9, an accession with a question mark: the synthesized index URL is
    not empty and [isUsableSecFilingUrl] answers [false] on it. *)
Lemma index_url_with_query_not_usable :
  buildEdgarIndexUrl "1" "1?"
  = "https://www.sec.gov/Archives/edgar/data/1/1/1?-index.html"
  /\ isUsableSecFilingUrl Whatwg.parse (buildEdgarIndexUrl "1" "1?")
     = Normal false.
Proof. split; reflexivity. Qed.

(** C9 (amended): for every cik and every accession that, trimmed, is
    made of digits and dashes, whenever [buildEdgarIndexUrl] returns a
    non-empty string, [isUsableSecFilingUrl] answers [true] on it. *)
Theorem index_url_usable_for_conventional_accession (cik accession : string) :
  conventional_accession accession = true ->
  buildEdgarIndexUrl cik accession <> "" ->
  isUsableSecFilingUrl Whatwg.parse (buildEdgarIndexUrl cik accession)
  = Normal true.
Proof.
  intros Hconv Hne.
  destruct (FallbackFacts.index_path_tests cik accession Hconv Hne)
    as (H1 & H2 & H3 & H4 & H5).
  pose proof (FallbackFacts.index_url_kept cik accession Hconv Hne) as Hkept.
  unfold isUsableSecFilingUrl, new_URL.
  rewrite (FallbackFacts.trim_kept _ Hkept).
  rewrite (FallbackFacts.parse_index_url cik accession Hconv Hne).
  destruct (buildEdgarIndexUrl cik accession) eqn:E; [congruence|].
  cbn [Js.is_empty bind try_catch hostname pathname].
  change (sec_gov_test "www.sec.gov") with true. cbn [negb].
  rewrite H1, H2, H3, H4, H5. reflexivity.
Qed.

Lemma index_url_usable_for_conventional_accession_witness :
  isUsableSecFilingUrl Whatwg.parse
    (buildEdgarIndexUrl "0001234567" "0001234567-24-000123") = Normal true.
Proof.
  apply (index_url_usable_for_conventional_accession
           "0001234567" "0001234567-24-000123").
  - reflexivity.
  - vm_compute. discriminate.
Defined.

(** C2, on the record of the example: with the three candidates empty,
    cik ["0001234567"] and accession ["0001234567-24-000123"],
    [secLink] is the inline-viewer URL, not the synthesized index URL. *)
Lemma fallback_link_goes_through_viewer :
  let alert := filing "" "" "" "0001234567" "0001234567-24-000123" in
  buildEdgarIndexUrl (cik alert) (accession_number alert)
  = "https://www.sec.gov/Archives/edgar/data/1234567/000123456724000123/0001234567-24-000123-index.html"
  /\ resolveLinks Whatwg.parse alert
     = Normal
         {| secLink :=
              "https://www.sec.gov/ix?doc=/Archives/edgar/data/1234567/000123456724000123/0001234567-24-000123-index.html";
            primaryLink := "" |}
  /\ option_map secLink
       (match resolveLinks Whatwg.parse alert with
        | Normal l => Some l
        | Throw _ => None
        end)
     <> Some (buildEdgarIndexUrl (cik alert) (accession_number alert)).
Proof.
  cbv zeta. split; [vm_compute; reflexivity|].
  split; [vm_compute; reflexivity|].
  vm_compute. discriminate.
Qed.

Lemma qualifies_false_find
      (URL_parse : string -> option URL) (alert : Alert) (c1 c2 c3 : string) :
  canonicalizeSecUrl URL_parse (primary_document_url alert) alert = Normal c1 ->
  canonicalizeSecUrl URL_parse (sec_filing_url alert) alert = Normal c2 ->
  canonicalizeSecUrl URL_parse (sec_index_url alert) alert = Normal c3 ->
  qualifies URL_parse (primary_document_url alert) alert = false ->
  qualifies URL_parse (sec_filing_url alert) alert = false ->
  qualifies URL_parse (sec_index_url alert) alert = false ->
  find_usable URL_parse [c1; c2; c3] = Normal None
  /\ isUsableSecFilingUrl URL_parse c1 = Normal false.
Proof.
  unfold qualifies. intros -> -> -> Q1 Q2 Q3. cbn [find_usable].
  destruct (isUsableSecFilingUrl_total URL_parse c1) as [b1 E1].
  destruct (isUsableSecFilingUrl_total URL_parse c2) as [b2 E2].
  destruct (isUsableSecFilingUrl_total URL_parse c3) as [b3 E3].
  rewrite E1 in *. rewrite E2 in *. rewrite E3 in *. subst. split; reflexivity.
Qed.

(** C2 (amended): for every URL parser and every record none of whose
    three candidates qualifies: when the accession is conventional, the
    synthesized index URL is not empty and the parser reads it as a URL
    of host [www.sec.gov] with the path written in it, [secLink] is its
    inline-viewer form,
    [https://www.sec.gov/ix?doc=/Archives/edgar/data/{cik}/{digits}/{raw}-index.html],
    and [primaryLink] is empty; when cik and accession are empty and the
    parser rejects ["#"], [secLink] is ["#"]. *)
Theorem resolveLinks_fallback
        (URL_parse : string -> option URL) (alert : Alert) :
  qualifies URL_parse (primary_document_url alert) alert = false ->
  qualifies URL_parse (sec_filing_url alert) alert = false ->
  qualifies URL_parse (sec_index_url alert) alert = false ->
  exists l,
    resolveLinks URL_parse alert = Normal l
    /\ (forall u,
          conventional_accession (accession_number alert) = true ->
          buildEdgarIndexUrl (cik alert) (accession_number alert) <> "" ->
          URL_parse (buildEdgarIndexUrl (cik alert) (accession_number alert))
          = Some u ->
          hostname u = "www.sec.gov" ->
          pathname u
          = "/Archives/edgar/data/"
            ++ normalizeCik (cik alert) ++ "/"
            ++ normalizeAccessionDigits (accession_number alert) ++ "/"
            ++ Js.trim (accession_number alert) ++ "-index.html" ->
          secLink l
          = "https://www.sec.gov/ix?doc=/Archives/edgar/data/"
            ++ normalizeCik (cik alert) ++ "/"
            ++ normalizeAccessionDigits (accession_number alert) ++ "/"
            ++ Js.trim (accession_number alert) ++ "-index.html"
          /\ primaryLink l = "")
    /\ (cik alert = "" -> accession_number alert = "" ->
        URL_parse "#" = None -> secLink l = "#").
Proof.
  intros Q1 Q2 Q3.
  destruct (canonicalizeSecUrl_total URL_parse (primary_document_url alert) alert)
    as [c1 H1].
  destruct (canonicalizeSecUrl_total URL_parse (sec_filing_url alert) alert)
    as [c2 H2].
  destruct (canonicalizeSecUrl_total URL_parse (sec_index_url alert) alert)
    as [c3 H3].
  destruct (qualifies_false_find URL_parse alert c1 c2 c3 H1 H2 H3 Q1 Q2 Q3)
    as [Hf Hu].
  pose proof (resolveLinks_unfold URL_parse alert c1 c2 c3 None false
                H1 H2 H3 Hf Hu) as H.
  cbv zeta in H.
  set (fb := buildEdgarIndexUrl (cik alert) (accession_number alert)) in *.
  destruct (toIxViewerUrl_total URL_parse (or_else (or_else "" fb) "#"))
    as [viewer Hv].
  rewrite (H viewer Hv). eexists. split; [reflexivity|].
  cbn [secLink primaryLink Js.is_empty negb andb].
  split.
  - intros u Hconv Hne Hparse Hhost Hpath.
    assert (Hbest : or_else (or_else "" fb) "#" = fb).
    { unfold or_else. cbn [Js.is_empty]. destruct fb; [congruence | reflexivity]. }
    rewrite Hbest in *.
    unfold fb in Hv.
    rewrite <- FallbackFacts.serialize_index_segments in Hpath.
    rewrite (FallbackFacts.index_url_viewer_of URL_parse _ _ u
               Hconv Hne Hparse Hhost Hpath) in Hv.
    rewrite FallbackFacts.serialize_index_segments in Hv.
    injection Hv as <-. split; reflexivity.
  - intros Hc Ha Hsharp. unfold fb in *. rewrite Hc, Ha in *.
    change (or_else (or_else "" (buildEdgarIndexUrl "" "")) "#") with "#" in *.
    unfold toIxViewerUrl, new_URL in Hv.
    change (Js.trim "#") with "#" in Hv. rewrite Hsharp in Hv.
    cbn [Js.is_empty bind try_catch] in Hv.
    injection Hv as <-. reflexivity.
Qed.

Lemma resolveLinks_fallback_witness :
  exists l,
    resolveLinks Whatwg.parse
      (filing "" "not a url" "https://example.com/x.htm"
              "0001234567" "0001234567-24-000123") = Normal l
    /\ secLink l
       = "https://www.sec.gov/ix?doc=/Archives/edgar/data/1234567/000123456724000123/0001234567-24-000123-index.html"
    /\ primaryLink l = "".
Proof.
  destruct (resolveLinks_fallback Whatwg.parse
              (filing "" "not a url" "https://example.com/x.htm"
                      "0001234567" "0001234567-24-000123"))
    as (l & Hl & Hconv & _); try reflexivity.
  exists l. split; [exact Hl|].
  destruct (Hconv
              {| hostname := "www.sec.gov";
                 pathname := "/Archives/edgar/data/1234567/000123456724000123/0001234567-24-000123-index.html";
                 searchParams_get_doc := None;
                 href := "https://www.sec.gov/Archives/edgar/data/1234567/000123456724000123/0001234567-24-000123-index.html" |})
    as [Hs Hp];
    [reflexivity | vm_compute; discriminate | vm_compute; reflexivity
    | reflexivity | vm_compute; reflexivity | ].
  split; [rewrite Hs; vm_compute; reflexivity | exact Hp].
Defined.

Lemma canonicalize_isUsable_never_throw_witness :
  canonicalizeSecUrl Whatwg.parse "not a url" (filing "" "" "" "" "") = Normal ""
  /\ isUsableSecFilingUrl Whatwg.parse "not a url" = Normal false.
Proof.
  apply (canonicalize_isUsable_never_throw Whatwg.parse "not a url"
           (filing "" "" "" "" "")).
  reflexivity.
Defined.

Lemma resolveLinks_depends_on_five_fields_witness :
  resolveLinks Whatwg.parse
    (mkAlert "A Trust" "0001234567" "0001234567-24-000123" "S-1" false true ""
             "first synopsis" [] "https://www.sec.gov/Archives/edgar/data/1/2/x.htm"
             "" "" "2024-01-02" "")
  = resolveLinks Whatwg.parse
      (mkAlert "B Fund" "0001234567" "0001234567-24-000123" "485BPOS" true false
               "timeout" "" ["Bitcoin"]
               "https://www.sec.gov/Archives/edgar/data/1/2/x.htm"
               "" "" "" "2023-05-05").
Proof.
  apply resolveLinks_depends_on_five_fields; reflexivity.
Defined.

(** ** Sorting *)

Section SortFacts.

Variable Date_parse : string -> option Z.

Local Abbreviation time := (getTime Date_parse).
Local Abbreviation sorted := (sort Date_parse).

Lemma later_first_descends (a b : Alert) : later_first Date_parse a b -> descends Date_parse a b.
Proof.
  unfold later_first, descends, time_or_epoch.
  destruct (time a), (time b); auto.
Qed.

Lemma moves_behind (x y : Alert) :
  (0 <? SortCompare Date_parse x y) = true ->
  exists tx ty, time x = Some tx /\ time y = Some ty /\ tx < ty.
Proof.
  unfold SortCompare, comparefn.
  destruct (time x) as [tx|], (time y) as [ty|]; intros H;
    try discriminate.
  apply Z.ltb_lt in H. exists tx, ty. repeat split. lia.
Qed.

Lemma stays_in_front (x y : Alert) (tx ty : Z) :
  (0 <? SortCompare Date_parse x y) = false ->
  time x = Some tx -> time y = Some ty -> ty <= tx.
Proof.
  unfold SortCompare, comparefn. intros H Hx Hy. rewrite Hx, Hy in H.
  apply Z.ltb_ge in H. lia.
Qed.

Lemma insert_perm (x : Alert) (l : list Alert) :
  Permutation (x :: l) (insert Date_parse x l).
Proof.
  induction l as [|y r IH]; cbn [insert]; [reflexivity|].
  destruct (0 <? SortCompare Date_parse x y); [|reflexivity].
  rewrite perm_swap. now constructor.
Qed.

Lemma sort_perm (l : list Alert) : Permutation l (sorted l).
Proof.
  induction l as [|x r IH]; cbn [sort]; [constructor|].
  rewrite <- insert_perm. now constructor.
Qed.

Lemma insert_filter (k : option Z) (x : Alert) (l : list Alert) :
  List.filter (has_time Date_parse k) (insert Date_parse x l)
  = List.filter (has_time Date_parse k) (x :: l).
Proof.
  induction l as [|y r IH]; cbn [insert]; [reflexivity|].
  destruct (0 <? SortCompare Date_parse x y) eqn:E; [|reflexivity].
  destruct (moves_behind x y E) as (tx & ty & Hx & Hy & Hlt).
  cbn [List.filter] in *. rewrite IH. unfold has_time. rewrite Hx, Hy.
  destruct k as [k|]; cbn [same_time]; [|reflexivity].
  destruct (Z.eqb_spec k tx), (Z.eqb_spec k ty); try reflexivity. lia.
Qed.

Lemma sort_filter (k : option Z) (l : list Alert) :
  List.filter (has_time Date_parse k) (sorted l) = List.filter (has_time Date_parse k) l.
Proof.
  induction l as [|x r IH]; cbn [sort]; [reflexivity|].
  rewrite insert_filter. cbn [List.filter]. now rewrite IH.
Qed.

Lemma insert_sorted (x : Alert) (l : list Alert) :
  time x <> None -> Forall (fun a => time a <> None) l ->
  Sorted (later_first Date_parse) l -> Sorted (later_first Date_parse) (insert Date_parse x l).
Proof.
  intros Hx Hl Hs. induction l as [|y r IH]; cbn [insert].
  - repeat constructor.
  - inversion Hl as [|? ? Hy Hr]; subst.
    inversion Hs as [|? ? Hsr Hhd]; subst.
    destruct (time x) as [tx|] eqn:Ex; [|congruence].
    destruct (time y) as [ty|] eqn:Ey; [|congruence].
    destruct (0 <? SortCompare Date_parse x y) eqn:E.
    + destruct (moves_behind x y E) as (tx' & ty' & Hx' & Hy' & Hlt).
      constructor; [now apply IH|].
      destruct r as [|z r']; cbn [insert].
      * constructor. unfold later_first, time_or_epoch.
        rewrite Ex, Ey. rewrite Ex in Hx'. rewrite Ey in Hy'.
        injection Hx' as <-. injection Hy' as <-. lia.
      * destruct (0 <? SortCompare Date_parse x z).
        -- inversion Hhd; subst. now constructor.
        -- constructor. unfold later_first, time_or_epoch.
           rewrite Ex, Ey. rewrite Ex in Hx'. rewrite Ey in Hy'.
           injection Hx' as <-. injection Hy' as <-. lia.
    + constructor; [assumption|]. constructor.
      unfold later_first, time_or_epoch. rewrite Ex, Ey.
      eapply stays_in_front; eauto.
Qed.

Lemma sort_sorted (l : list Alert) :
  Forall (fun a => time a <> None) l -> Sorted (later_first Date_parse) (sorted l).
Proof.
  induction 1 as [|x r Hx Hr IH]; cbn [sort]; [constructor|].
  apply insert_sorted; auto.
  eapply Permutation_Forall; [apply sort_perm | exact Hr].
Qed.

Lemma later_first_trans : Relations_1.Transitive (later_first Date_parse).
Proof. intros a b c. unfold later_first. lia. Qed.

Lemma StronglySorted_weaken (R Q : Alert -> Alert -> Prop) (l : list Alert) :
  (forall a b, R a b -> Q a b) -> StronglySorted R l -> StronglySorted Q l.
Proof.
  intros HRQ. induction 1 as [|a l Hs IH Hall]; constructor; auto.
  eapply Forall_impl; [|exact Hall]. auto.
Qed.

Lemma sort_descending (l : list Alert) :
  Forall (fun a => time a <> None) l -> StronglySorted (descends Date_parse) (sorted l).
Proof.
  intros H. apply StronglySorted_weaken with (R := later_first Date_parse).
  - apply later_first_descends.
  - apply Sorted_StronglySorted; [apply later_first_trans | now apply sort_sorted].
Qed.

(** When no comparison is positive nothing moves. *)
Lemma sort_nothing_moves (l : list Alert) :
  (forall x y, In x l -> In y l -> SortCompare Date_parse x y <= 0) ->
  sorted l = l.
Proof.
  induction l as [|x r IH]; intros H; [reflexivity|].
  cbn [sort]. rewrite IH by (intros a b Ha Hb; apply H; now right).
  destruct r as [|y r']; [reflexivity|]. cbn [insert].
  assert (Hxy : SortCompare Date_parse x y <= 0)
    by (apply H; [now left | right; now left]).
  destruct (Z.ltb_spec 0 (SortCompare Date_parse x y)); [lia | reflexivity].
Qed.

End SortFacts.

(** C3, with an unparseable timestamp in between: the record of
    2024-01-02 stays before the record of 2024-01-03, so the result is
    not in descending order.  Every comparison of two neighbours is
    [NaN] here and counts as [+0], so the list is one ascending run to
    an engine that looks for runs, and no element moves in one that
    inserts them one at a time. *)
Lemma sort_not_descending_around_unparseable :
  let l := [dated "485APOS" "2024-01-02"; dated "S-1" "not a date";
            dated "485BPOS" "2024-01-03"] in
  sort example_Date_parse l = l
  /\ ~ StronglySorted (descends example_Date_parse) (sort example_Date_parse l).
Proof.
  cbv zeta. split; [reflexivity|].
  change (sort example_Date_parse
            [dated "485APOS" "2024-01-02"; dated "S-1" "not a date";
             dated "485BPOS" "2024-01-03"])
    with [dated "485APOS" "2024-01-02"; dated "S-1" "not a date";
          dated "485BPOS" "2024-01-03"].
  intros H. inversion H as [|a l _ Hall]; subst.
  inversion Hall as [|? ? _ Hall']; subst.
  inversion Hall' as [|? ? Hd _]; subst.
  vm_compute in Hd. apply Hd. reflexivity.
Qed.

(** C3 (amended): for every list of records, [sort] returns a permutation
    of it.  When the best available timestamp of every record parses
    ([created_at], else [updated], else the epoch), the result is in
    descending order of timestamp and the sort is stable: the records of
    each timestamp keep their relative input order.  When the timestamps
    that parse are all the same one, whatever records have an unparseable
    timestamp, no two records are ordered by the comparison and the list
    is returned in its input order. *)
Theorem sort_stable_and_descending
        (Date_parse : string -> option Z) (l : list Alert) :
  Permutation l (sort Date_parse l)
  /\ (Forall (fun a => getTime Date_parse a <> None) l ->
      StronglySorted (descends Date_parse) (sort Date_parse l)
      /\ forall k : Z,
           List.filter (has_time Date_parse (Some k)) (sort Date_parse l)
           = List.filter (has_time Date_parse (Some k)) l)
  /\ (forall k : Z,
         Forall (fun a => getTime Date_parse a = Some k
                          \/ getTime Date_parse a = None) l ->
         sort Date_parse l = l).
Proof.
  split; [apply sort_perm|]. split.
  - intros Hp. split; [now apply sort_descending|].
    intros k. apply sort_filter.
  - intros k Hk. apply sort_nothing_moves. intros x y Hx Hy.
    rewrite Forall_forall in Hk.
    unfold SortCompare, comparefn.
    destruct (Hk x Hx) as [Ex | Ex], (Hk y Hy) as [Ey | Ey];
      rewrite Ex, ?Ey; lia.
Qed.

Lemma sort_stable_and_descending_witness :
  let l := [dated "485APOS" "2024-01-02"; dated "S-1" "2024-01-03";
            dated "485BPOS" "2024-01-02"] in
  sort example_Date_parse l
  = [dated "S-1" "2024-01-03"; dated "485APOS" "2024-01-02";
     dated "485BPOS" "2024-01-02"]
  /\ StronglySorted (descends example_Date_parse) (sort example_Date_parse l)
  /\ List.filter (has_time example_Date_parse (Some 1704153600000))
       (sort example_Date_parse l)
     = [dated "485APOS" "2024-01-02"; dated "485BPOS" "2024-01-02"].
Proof.
  cbv zeta. split; [reflexivity|].
  destruct (proj1 (proj2 (sort_stable_and_descending example_Date_parse
                            [dated "485APOS" "2024-01-02";
                             dated "S-1" "2024-01-03";
                             dated "485BPOS" "2024-01-02"])))
    as [Hd Hs]; [repeat constructor; vm_compute; discriminate|].
  split; [exact Hd|]. rewrite Hs. reflexivity.
Defined.

(** ** Refresh and metrics *)

Section DashboardFacts.

Variable Date_parse : string -> option Z.
Variable Number_toLocaleString : Z -> string.
Variable Date_toLocaleString : Z -> string.

Local Abbreviation refresh :=
  (refreshAll Date_parse Number_toLocaleString Date_toLocaleString).
Local Abbreviation render :=
  (applyFiltersAndRender Date_parse Number_toLocaleString).
Local Abbreviation metrics := (updateMetrics Number_toLocaleString).
Local Abbreviation status_line :=
  (updateStatusLine Date_parse Number_toLocaleString Date_toLocaleString).

Lemma promise_all_rejected (t : Tick) :
  read_failed t = true -> exists m, promise_all t = Rejected m.
Proof.
  unfold read_failed, promise_all, fetchAlerts.
  destruct (status_read t) as [st|ms], (alerts_read t) as [[al|]|ma];
    try discriminate; eauto.
Qed.

Lemma promise_all_resolved (t : Tick) :
  read_failed t = false ->
  exists st alerts,
    status_read t = Resolved st
    /\ fetchAlerts (alerts_read t) = Resolved alerts
    /\ promise_all t = Resolved (st, alerts).
Proof.
  unfold read_failed, promise_all, fetchAlerts.
  destruct (status_read t) as [st|ms], (alerts_read t) as [[al|]|ma];
    try discriminate; eauto.
Qed.

Lemma render_frame (p : Page) :
  cachedStatus (render p) = cachedStatus p
  /\ allAlerts (render p) = allAlerts p
  /\ statusEl (render p) = statusEl p
  /\ metric_elements (render p) = metric_elements p.
Proof.
  unfold applyFiltersAndRender, renderAlerts, with_view.
  cbn [alertsEl]. destruct (alertsEl p); repeat split.
Qed.

Lemma metrics_frame (alerts : list Alert) (p : Page) :
  cachedStatus (metrics alerts p) = cachedStatus p
  /\ allAlerts (metrics alerts p) = allAlerts p
  /\ statusEl (metrics alerts p) = statusEl p.
Proof. repeat split. Qed.

Lemma status_line_frame (st : Status) (p : Page) :
  cachedStatus (status_line st p) = cachedStatus p
  /\ allAlerts (status_line st p) = allAlerts p
  /\ metric_elements (status_line st p) = metric_elements p.
Proof.
  unfold updateStatusLine.
  destruct (statusEl p); [destruct (mode p)|]; repeat split.
Qed.

Lemma refresh_resolved (t : Tick) (p : Page) (st : Status) (alerts : list Alert) :
  promise_all t = Resolved (st, alerts) ->
  cachedStatus (refresh t p) = Some st
  /\ allAlerts (refresh t p) = alerts
  /\ metric_elements (refresh t p) = metric_elements (metrics alerts p).
Proof.
  intros H. unfold refreshAll. rewrite H. cbv zeta.
  set (p1 := with_cache st alerts p).
  destruct (status_line_frame st p1) as (S1 & S2 & S3).
  set (p2 := status_line st p1) in *.
  destruct (metrics_frame (allAlerts p2) p2) as (M1 & M2 & _).
  destruct (render_frame (metrics (allAlerts p2) p2)) as (R1 & R2 & _ & R4).
  rewrite R1, R2, R4, M1, M2, S1, S2.
  repeat split.
  unfold metric_elements in *. cbn [updateMetrics with_metrics
    metricTotalEl metricCryptoEl metricRegularEl metricSentEl].
  injection S3 as -> -> -> ->. reflexivity.
Qed.

End DashboardFacts.

(** C6: when a read of the tick is rejected, [refreshAll] leaves the
    cached status and the cached records as they were, and the status
    line, where the element exists, becomes ["Dashboard refresh failed: "]
    followed by the message of the rejection (that of the read that
    failed, of the first one when both did); the cards, the visible
    count, the metrics, the inputs and the mode are as before.
    Otherwise both reads resolved, and both cache fields hold what was
    read. *)
Theorem refresh_failure_keeps_cache
        (Date_parse : string -> option Z)
        (Number_toLocaleString Date_toLocaleString : Z -> string)
        (t : Tick) (p : Page) :
  let p' := refreshAll Date_parse Number_toLocaleString Date_toLocaleString t p in
  (read_failed t = true ->
   exists message,
     match status_read t, alerts_read t with
     | Rejected ms, Rejected ma =>
         message = if status_rejects_first t then ms else ma
     | Rejected ms, Resolved _ => message = ms
     | Resolved _, Rejected ma => message = ma
     | Resolved _, Resolved _ => False
     end
     /\ cachedStatus p' = cachedStatus p
     /\ allAlerts p' = allAlerts p
     /\ statusEl p'
        = match statusEl p with
          | Some _ => Some ("Dashboard refresh failed: " ++ message)
          | None => None
          end
     /\ alertsEl p' = alertsEl p
     /\ visibleCountEl p' = visibleCountEl p
     /\ metric_elements p' = metric_elements p
     /\ searchInputEl p' = searchInputEl p
     /\ formFilterEl p' = formFilterEl p
     /\ mode p' = mode p)
  /\ (read_failed t = false ->
      exists status alerts,
        status_read t = Resolved status
        /\ fetchAlerts (alerts_read t) = Resolved alerts
        /\ cachedStatus p' = Some status
        /\ allAlerts p' = alerts).
Proof.
  cbv zeta. split; intros H.
  - unfold refreshAll, promise_all, fetchAlerts. unfold read_failed in H.
    destruct (status_read t) as [st|ms], (alerts_read t) as [[al|]|ma];
      try discriminate; eexists; (split; [reflexivity|]);
      destruct (statusEl p); repeat split.
  - destruct (promise_all_resolved t H) as (st & alerts & Hs & Ha & Hp).
    exists st, alerts.
    destruct (refresh_resolved Date_parse Number_toLocaleString
                Date_toLocaleString t p st alerts Hp) as (H1 & H2 & _).
    auto.
Qed.

Lemma refresh_failure_keeps_cache_witness :
  let t := mkTick (Resolved example_status) (Rejected "Request failed: 502") true in
  let p' := refreshAll example_Date_parse example_toLocaleString
              example_toLocaleString t example_page in
  statusEl example_page = Some "stream=running"
  /\ statusEl p' = Some "Dashboard refresh failed: Request failed: 502"
  /\ cachedStatus p' = Some example_status
  /\ allAlerts p' = [dated "485APOS" "2024-01-02"].
Proof.
  cbv zeta. split; [reflexivity|].
  destruct (proj1 (refresh_failure_keeps_cache example_Date_parse
                     example_toLocaleString example_toLocaleString
                     (mkTick (Resolved example_status)
                        (Rejected "Request failed: 502") true)
                     example_page))
    as (message & Hm & Hc & Ha & Hs & _); [reflexivity|].
  cbn [status_read alerts_read] in Hm.
  split; [rewrite Hs, Hm; reflexivity|].
  split; [rewrite Hc; reflexivity | rewrite Ha; reflexivity].
Defined.

(** C8: [updateMetrics] writes the four counts of the record set it is
    given (all records, those with [is_crypto], those whose upper-cased
    [form_type] is [485APOS] or [485BPOS], those with [email_sent]);
    a refresh that succeeds gives it the full set read, whatever the
    filter and the query; and re-filtering, on a change of the form
    filter or of the search query, leaves the four metric elements as
    they are. *)
Theorem metrics_independent_of_filter
        (Date_parse : string -> option Z)
        (Number_toLocaleString Date_toLocaleString : Z -> string)
        (p : Page) (alerts : list Alert) (v : string) :
  metric_elements (updateMetrics Number_toLocaleString alerts p)
  = (set_text (metricTotalEl p)
       (Number_toLocaleString (Z.of_nat (List.length alerts))),
     set_text (metricCryptoEl p)
       (Number_toLocaleString (count is_crypto alerts)),
     set_text (metricRegularEl p)
       (Number_toLocaleString (count is_regular_form alerts)),
     set_text (metricSentEl p)
       (Number_toLocaleString (count email_sent alerts)))
  /\ (forall a,
         is_regular_form a = true
         <-> Js.toUpperCase (form_type a) = "485APOS"
             \/ Js.toUpperCase (form_type a) = "485BPOS")
  /\ (forall t status,
         promise_all t = Resolved (status, alerts) ->
         metric_elements
           (refreshAll Date_parse Number_toLocaleString Date_toLocaleString t p)
         = metric_elements (updateMetrics Number_toLocaleString alerts p))
  /\ metric_elements
       (on_form_filter_change Date_parse Number_toLocaleString v p)
     = metric_elements p
  /\ metric_elements (on_search_input Date_parse Number_toLocaleString v p)
     = metric_elements p
  /\ metric_elements (applyFiltersAndRender Date_parse Number_toLocaleString p)
     = metric_elements p.
Proof.
  split; [reflexivity|].
  split.
  { intros a. unfold is_regular_form. cbn [List.existsb].
    rewrite orb_false_r, orb_true_iff, !String.eqb_eq. reflexivity. }
  split.
  { intros t status H.
    apply (refresh_resolved Date_parse Number_toLocaleString
             Date_toLocaleString t p status alerts H). }
  unfold on_form_filter_change, on_search_input.
  repeat split;
    match goal with
    | |- metric_elements (applyFiltersAndRender _ _ ?q) = _ =>
        destruct (render_frame Date_parse Number_toLocaleString q)
          as (_ & _ & _ & ->)
    end; reflexivity.
Qed.

Lemma metrics_independent_of_filter_witness :
  let t := mkTick (Resolved example_status)
             (Resolved (JsonArray [dated "485APOS" "2024-01-02";
                                   dated "S-1" "2024-01-03"])) true in
  metric_elements
    (refreshAll example_Date_parse example_toLocaleString
       example_toLocaleString t example_page)
  = (Some "2", Some "0", Some "1", Some "2").
Proof.
  cbv zeta.
  destruct (metrics_independent_of_filter example_Date_parse
              example_toLocaleString example_toLocaleString example_page
              [dated "485APOS" "2024-01-02"; dated "S-1" "2024-01-03"] "S-1")
    as (_ & _ & H & _).
  rewrite (H (mkTick (Resolved example_status)
                (Resolved (JsonArray [dated "485APOS" "2024-01-02";
                                      dated "S-1" "2024-01-03"])) true)
             example_status eq_refl).
  reflexivity.
Defined.

(** ** The scenarios of the specification *)

Example scenario_filter_and_metrics :
  let records := [dated "485APOS" "2024-01-02"; dated "S-1" "2024-01-03"] in
  let page :=
    mkPage Static None records (Some "") (Some []) (Some "") (Some "")
           (Some "") (Some "") (Some "") (Some "") (Some "ALL") in
  filterAlerts example_Date_parse page
  = [dated "S-1" "2024-01-03"; dated "485APOS" "2024-01-02"]
  /\ count is_regular_form records = 1.
Proof. split; reflexivity. Qed.

Example scenario_inline_viewer_url (alert : Alert) :
  canonicalizeSecUrl Whatwg.parse
    "https://www.sec.gov/ix?doc=/Archives/edgar/data/1/2/x.htm" alert
  = Normal "https://www.sec.gov/ix?doc=/Archives/edgar/data/1/2/x.htm"
  /\ toIxViewerUrl Whatwg.parse
       "https://www.sec.gov/ix?doc=/Archives/edgar/data/1/2/x.htm"
     = Normal "https://www.sec.gov/ix?doc=/Archives/edgar/data/1/2/x.htm".
Proof. split; reflexivity. Qed.

Example scenario_index_page_replaced :
  canonicalizeSecUrl Whatwg.parse
    "https://www.sec.gov/Archives/edgar/data/1234567/000123456724000123/index.html"
    (filing "" "" "" "0001234567" "0001234567-24-000123")
  = Normal "https://www.sec.gov/Archives/edgar/data/1234567/000123456724000123/0001234567-24-000123-index.html".
Proof. vm_compute. reflexivity. Qed.

Example scenario_malformed_inputs (alert : Alert) :
  canonicalizeSecUrl Whatwg.parse "" alert = Normal ""
  /\ canonicalizeSecUrl Whatwg.parse "not a url" alert = Normal ""
  /\ canonicalizeSecUrl Whatwg.parse "javascript:alert(1)" alert = Normal ""
  /\ isUsableSecFilingUrl Whatwg.parse "javascript:alert(1)" = Normal false.
Proof. repeat split; reflexivity. Qed.

(** * Further properties of the script *)

(** ** [escapeHtml] *)

Module EscapeFacts.

Ltac each_char c :=
  destruct c as [[] [] [] [] [] [] [] []]; try reflexivity.

Lemma replaceAll_app (c : ascii) (r a b : string) :
  replaceAll c r (a ++ b) = replaceAll c r a ++ replaceAll c r b.
Proof.
  induction a as [|x t IH]; cbn [append replaceAll]; [reflexivity|].
  rewrite IH. destruct (Ascii.eqb x c); cbn [append];
    [now rewrite append_assoc | reflexivity].
Qed.

Lemma escapeHtml_cons (c : ascii) (t : string) :
  escapeHtml (String c t) = escape_char c ++ escapeHtml t.
Proof. unfold escapeHtml. each_char c. Qed.

Lemma escape_char_safe (c : ascii) :
  Js.forallb (fun x => negb (is_delimiter_char x)) (escape_char c) = true.
Proof. each_char c. Qed.

Lemma escape_char_unescape (c : ascii) (rest : string) :
  unescape_from 0 (escape_char c ++ rest) = String c (unescape_from 0 rest).
Proof. each_char c; cbn; destruct rest; reflexivity. Qed.

Lemma escape_char_length (c : ascii) :
  (1 <= String.length (escape_char c))%nat
  /\ (is_markup_char c = true -> 2 <= String.length (escape_char c))%nat
  /\ (is_markup_char c = false -> escape_char c = String c "").
Proof.
  destruct c as [[] [] [] [] [] [] [] []]; cbn;
    repeat split; intros; try lia; try reflexivity; discriminate.
Qed.

Lemma escapeHtml_length (s : string) :
  (String.length s <= String.length (escapeHtml s))%nat.
Proof.
  induction s as [|c t IH]; [cbn; lia|].
  rewrite escapeHtml_cons, length_append. cbn [String.length].
  destruct (escape_char_length c) as [H _]. lia.
Qed.

End EscapeFacts.

(** X1: [escapeHtml] leaves none of [<], [>], the double quote and the
    apostrophe in its result, whatever the input. *)
Theorem escapeHtml_no_delimiter (value : string) :
  Js.forallb (fun c => negb (is_delimiter_char c)) (escapeHtml value) = true.
Proof.
  induction value as [|c t IH]; [reflexivity|].
  rewrite EscapeFacts.escapeHtml_cons, forallb_app, IH.
  now rewrite EscapeFacts.escape_char_safe.
Qed.

(** X2: [escapeHtml] loses nothing: reading the five entities back gives
    the input, so two inputs with the same result are equal. *)
Theorem escapeHtml_round_trip (value : string) :
  unescape (escapeHtml value) = value
  /\ forall other, escapeHtml value = escapeHtml other -> value = other.
Proof.
  assert (R : forall s, unescape (escapeHtml s) = s).
  { unfold unescape. induction s as [|c t IH]; [reflexivity|].
    rewrite EscapeFacts.escapeHtml_cons, EscapeFacts.escape_char_unescape.
    now rewrite IH. }
  split; [apply R|].
  intros other H. rewrite <- (R value), <- (R other). now rewrite H.
Qed.

(** X3: [escapeHtml] returns its input unchanged exactly when the input
    holds none of [&], [<], [>], the double quote and the apostrophe;
    otherwise the result is longer than the input. *)
Theorem escapeHtml_unchanged_iff (value : string) :
  (escapeHtml value = value
   <-> Js.forallb (fun c => negb (is_markup_char c)) value = true)
  /\ (escapeHtml value <> value ->
      (String.length value < String.length (escapeHtml value))%nat).
Proof.
  assert (L : forall s,
             Js.forallb (fun c => negb (is_markup_char c)) s = true ->
             escapeHtml s = s).
  { induction s as [|c t IH]; [reflexivity|]. cbn [Js.forallb].
    intros H. apply andb_true_iff in H. destruct H as [Hc Ht].
    apply negb_true_iff in Hc.
    destruct (EscapeFacts.escape_char_length c) as (_ & _ & E).
    rewrite EscapeFacts.escapeHtml_cons, (E Hc), (IH Ht). reflexivity. }
  assert (G : forall s,
             Js.forallb (fun c => negb (is_markup_char c)) s = false ->
             (String.length s < String.length (escapeHtml s))%nat).
  { induction s as [|c t IH]; [discriminate|]. cbn [Js.forallb].
    rewrite EscapeFacts.escapeHtml_cons, length_append. cbn [String.length].
    destruct (EscapeFacts.escape_char_length c) as (H1 & H2 & _).
    pose proof (EscapeFacts.escapeHtml_length t) as Ht.
    destruct (is_markup_char c) eqn:E; cbn [negb andb].
    - intros _. specialize (H2 eq_refl). lia.
    - intros H. specialize (IH H). lia. }
  split; [split|].
  - intros H.
    destruct (Js.forallb (fun c => negb (is_markup_char c)) value) eqn:E;
      [reflexivity|].
    specialize (G value E). rewrite H in G. lia.
  - apply L.
  - intros H.
    destruct (Js.forallb (fun c => negb (is_markup_char c)) value) eqn:E.
    + elim H. now apply L.
    + now apply G.
Qed.

Lemma escapeHtml_unchanged_iff_witness :
  (String.length "AT&T <Fund>" < String.length (escapeHtml "AT&T <Fund>"))%nat.
Proof.
  apply (escapeHtml_unchanged_iff "AT&T <Fund>").
  vm_compute. discriminate.
Defined.

(** ** [synopsisPreview] *)

Module PreviewFacts.

Lemma substring_length (n : nat) (s : string) :
  (String.length (String.substring 0 n s) <= n)%nat.
Proof.
  revert s. induction n as [|n IH]; intros [|c r]; cbn; try lia.
  specialize (IH r). lia.
Qed.

Lemma collapse_nonempty (c : ascii) (r : string) :
  collapse_whitespace (String c r) <> "".
Proof.
  unfold collapse_whitespace. cbn [collapse_from].
  destruct (Js.is_space c); discriminate.
Qed.

Lemma single_spaced_collapse (b : bool) (s : string) :
  single_spaced_from b (collapse_from b s) = true.
Proof.
  revert b. induction s as [|c r IH]; intros b; [reflexivity|].
  cbn [collapse_from]. destruct (Js.is_space c) eqn:E.
  - destruct b; [apply IH|]. cbn [single_spaced_from]. apply IH.
  - cbn [single_spaced_from]. rewrite E. apply IH.
Qed.

Lemma single_spaced_relax (s : string) :
  single_spaced_from true s = true -> single_spaced_from false s = true.
Proof.
  destruct s as [|c r]; [reflexivity|]. cbn [single_spaced_from].
  destruct (Js.is_space c); [|auto].
  rewrite andb_false_r. discriminate.
Qed.

Lemma single_spaced_prefix (n : nat) (tail : string) :
  single_spaced_from true tail = true ->
  forall (b : bool) (s : string),
    single_spaced_from b s = true ->
    single_spaced_from b (String.substring 0 n s ++ tail) = true.
Proof.
  intros Ht. induction n as [|n IH]; intros b s Hs.
  - assert (E : String.substring 0 0 s = "") by (destruct s; reflexivity).
    rewrite E. cbn [append].
    destruct b; [assumption | now apply single_spaced_relax].
  - destruct s as [|c r].
    + cbn [String.substring append].
      destruct b; [assumption | now apply single_spaced_relax].
    + cbn [String.substring append single_spaced_from] in *.
      destruct (Js.is_space c).
      * apply andb_true_iff in Hs. destruct Hs as [Hc Hr].
        rewrite Hc. cbn [andb]. now apply IH.
      * now apply IH.
Qed.

End PreviewFacts.

(** X4: [synopsisPreview] never returns the empty string, and its
    result has at most 343 characters (340 and the three dots). *)
Theorem synopsisPreview_bounded (text : string) :
  synopsisPreview text <> ""
  /\ (String.length (synopsisPreview text) <= 343)%nat.
Proof.
  unfold synopsisPreview.
  destruct (Js.trim text) as [|c r] eqn:E; cbn [Js.is_empty].
  - split; [discriminate | cbn; lia].
  - pose proof (PreviewFacts.collapse_nonempty c r) as Hne.
    destruct (Nat.ltb_spec 340 (String.length (collapse_whitespace (String c r)))).
    + split.
      * destruct (String.substring 0 340 _); discriminate.
      * rewrite length_append. cbn [String.length].
        pose proof (PreviewFacts.substring_length 340
                      (collapse_whitespace (String c r))). lia.
    + split; [assumption | lia].
Qed.

(** X5: the result of [synopsisPreview] is one line: its only white
    space is single spaces, never two in a row, whatever tabs, line
    breaks and runs of blanks the text holds. *)
Theorem synopsisPreview_single_spaced (text : string) :
  single_spaced (synopsisPreview text) = true.
Proof.
  unfold synopsisPreview, single_spaced.
  destruct (Js.is_empty (Js.trim text)); [reflexivity|].
  pose proof (PreviewFacts.single_spaced_collapse false (Js.trim text)) as H.
  fold (collapse_whitespace (Js.trim text)) in H.
  destruct (_ <? _)%nat; [|exact H].
  now apply PreviewFacts.single_spaced_prefix.
Qed.

(** ** Identifiers, further *)

Module IdentifierFacts.
Import JsNumber.

Lemma digits_value_from_app (a b : string) (acc : Z) :
  digits_value_from acc (a ++ b)
  = digits_value_from (digits_value_from acc a) b.
Proof.
  revert acc. induction a as [|c r IH]; intros acc; [reflexivity|].
  cbn [append digits_value_from]. apply IH.
Qed.

Lemma decimal_value (n : Z) : 0 <= n -> digits_value (decimal n) = n.
Proof.
  revert n. apply (Zlt_0_ind (fun n => digits_value (decimal n) = n)).
  intros n IH Hn. destruct (Z.lt_ge_cases n 10) as [Hs|Hl].
  - rewrite NumberFacts.decimal_small by lia.
    unfold digits_value. cbn [digits_value_from]. unfold digit_value.
    rewrite NumberFacts.code_digit_char by lia. lia.
  - pose proof (Z.div_mod n 10 ltac:(lia)) as Hdm.
    pose proof (Z.mod_pos_bound n 10 ltac:(lia)) as Hm.
    assert (Hq : 0 < n / 10) by (apply Z.div_str_pos; lia).
    rewrite Hdm at 1.
    rewrite NumberFacts.decimal_step by lia.
    unfold digits_value in *. rewrite digits_value_from_app.
    rewrite IH by lia. cbn [digits_value_from]. unfold digit_value.
    rewrite NumberFacts.code_digit_char by lia. lia.
Qed.

Lemma decimal_head (n : Z) :
  0 < n -> exists c r, decimal n = String c r /\ c <> "0"%char.
Proof.
  intros Hpos. assert (Hn : 0 <= n) by lia. revert Hpos.
  pattern n. apply Zlt_0_ind; [|exact Hn]. clear n Hn.
  intros n IH Hn Hpos. destruct (Z.lt_ge_cases n 10) as [Hs|Hl].
  - rewrite NumberFacts.decimal_small by lia.
    eexists _, _. split; [reflexivity|].
    intros E. apply (f_equal Js.code) in E.
    rewrite NumberFacts.code_digit_char in E by lia.
    change (Js.code "0") with 48 in E. lia.
  - pose proof (Z.div_mod n 10 ltac:(lia)) as Hdm.
    pose proof (Z.mod_pos_bound n 10 ltac:(lia)) as Hm.
    assert (Hq : 0 < n / 10) by (apply Z.div_str_pos; lia).
    rewrite Hdm. rewrite NumberFacts.decimal_step by lia.
    destruct (IH (n / 10) ltac:(lia) Hq) as (c & r & E & Hc).
    rewrite E. cbn [append]. eauto.
Qed.

Lemma decimal_canonical (n : Z) :
  0 <= n -> canonical_entity_id (decimal n) = true.
Proof.
  intros Hn. unfold canonical_entity_id.
  destruct (NumberFacts.decimal_shape n Hn) as (c & r & E & Hc & Hr).
  rewrite E. cbn [Js.forallb]. rewrite Hc, Hr. cbn [andb].
  destruct (Z.eq_dec n 0) as [->|Hnz].
  - vm_compute in E. injection E as <- <-. reflexivity.
  - destruct (decimal_head n ltac:(lia)) as (c' & r' & E' & Hc').
    rewrite E in E'. injection E' as -> ->.
    destruct c' as [[] [] [] [] [] [] [] []]; try reflexivity.
    now elim Hc'.
Qed.

Lemma toString_nonempty (x : Number) :
  match x with Finite z => 0 <= z | Infinity => True end ->
  toString x <> "".
Proof.
  destruct x as [z|]; [|discriminate]. intros Hz. cbn [toString].
  destruct (Z.eqb_spec z 0) as [Hz0|Hnz]; [discriminate|].
  pose proof (NumberFacts.shortest_positive z ltac:(lia)) as H.
  destruct (shortest z) as [[s k] n]. destruct H as [Hs Hn].
  destruct (NumberFacts.decimal_shape s ltac:(lia)) as (c & r & E & _).
  rewrite E. destruct (n <=? 21); [discriminate|].
  destruct r; discriminate.
Qed.

Lemma filter_trimStart (s : string) :
  Js.filter Js.is_digit (Js.trimStart s) = Js.filter Js.is_digit s.
Proof.
  induction s as [|c r IH]; [reflexivity|]. cbn [Js.trimStart Js.filter].
  destruct (Js.is_space c) eqn:E; [|reflexivity].
  rewrite IH.
  destruct c as [[] [] [] [] [] [] [] []]; try reflexivity; discriminate.
Qed.

Lemma filter_trimEnd (s : string) :
  Js.filter Js.is_digit (Js.trimEnd s) = Js.filter Js.is_digit s.
Proof.
  induction s as [|c r IH]; [reflexivity|]. cbn [Js.trimEnd Js.filter].
  destruct (Js.trimEnd r) as [|c' r'] eqn:E.
  - cbn [Js.filter] in IH. rewrite <- IH.
    destruct (Js.is_space c) eqn:Es.
    + destruct c as [[] [] [] [] [] [] [] []]; try reflexivity; discriminate.
    + cbn [Js.filter]. destruct (Js.is_digit c); reflexivity.
  - cbn [Js.filter] in *. now rewrite IH.
Qed.

Lemma filter_trim (s : string) :
  Js.filter Js.is_digit (Js.trim s) = Js.filter Js.is_digit s.
Proof. unfold Js.trim. now rewrite filter_trimEnd, filter_trimStart. Qed.

Lemma normalizeCik_empty_iff (cik : string) :
  normalizeCik cik = "" <-> has_digit cik = false.
Proof.
  unfold normalizeCik, has_digit.
  destruct (Js.filter Js.is_digit cik) as [|c r] eqn:E; cbn [Js.is_empty negb].
  - tauto.
  - split; [|discriminate]. intros H. exfalso. revert H.
    apply toString_nonempty. unfold parseInt_digits, to_Number.
    destruct (_ <? _); [|exact I].
    apply NumberFacts.round_nonneg, NumberFacts.digits_value_nonneg.
    rewrite <- E. apply forallb_filter.
Qed.

Lemma substring_app_r (a b : string) :
  String.substring (String.length a) (String.length b) (a ++ b) = b.
Proof.
  induction a as [|c r IH]; cbn [String.length append String.substring].
  - induction b as [|x t IHb]; [reflexivity|].
    cbn [String.length String.substring]. now rewrite IHb.
  - exact IH.
Qed.

Lemma endsWith_app (a b : string) : Js.endsWith (a ++ b) b = true.
Proof.
  unfold Js.endsWith. rewrite length_append.
  replace (String.length a + String.length b - String.length b)%nat
    with (String.length a) by lia.
  rewrite substring_app_r, String.eqb_refl, andb_true_r.
  apply Nat.leb_le. lia.
Qed.

End IdentifierFacts.

(** X6: for every cik with a digit whose digits denote a value below
    2^53, [normalizeCik] returns the canonical numeral of that value: a
    non-empty digit string without leading zeros, of the same value, that
    [normalizeCik] maps to itself. *)
Theorem normalizeCik_canonical_form (cik : string) :
  has_digit cik = true ->
  JsNumber.digits_value (Js.filter Js.is_digit cik) < 2 ^ 53 ->
  normalizeCik cik <> ""
  /\ canonical_entity_id (normalizeCik cik) = true
  /\ JsNumber.digits_value (normalizeCik cik)
     = JsNumber.digits_value (Js.filter Js.is_digit cik)
  /\ normalizeCik (normalizeCik cik) = normalizeCik cik.
Proof.
  intros Hd Hv.
  assert (Hne : normalizeCik cik <> "").
  { intros E. apply IdentifierFacts.normalizeCik_empty_iff in E. congruence. }
  assert (Hpos : 0 <= JsNumber.digits_value (Js.filter Js.is_digit cik)).
  { apply NumberFacts.digits_value_nonneg, forallb_filter. }
  assert (E : normalizeCik cik
              = JsNumber.decimal
                  (JsNumber.digits_value (Js.filter Js.is_digit cik))).
  { unfold normalizeCik. unfold has_digit in Hd.
    destruct (Js.is_empty (Js.filter Js.is_digit cik)); [discriminate|].
    rewrite NumberFacts.parseInt_small by assumption.
    apply NumberFacts.toString_small. lia. }
  split; [assumption|]. rewrite E.
  pose proof (IdentifierFacts.decimal_canonical _ Hpos) as Hc.
  pose proof (IdentifierFacts.decimal_value _ Hpos) as Hval.
  repeat split; try assumption.
  apply normalizeCik_canonical; [assumption | now rewrite Hval].
Qed.

Lemma normalizeCik_canonical_form_witness :
  normalizeCik "CIK 0001234567" <> ""
  /\ canonical_entity_id (normalizeCik "CIK 0001234567") = true
  /\ JsNumber.digits_value (normalizeCik "CIK 0001234567")
     = JsNumber.digits_value (Js.filter Js.is_digit "CIK 0001234567")
  /\ normalizeCik (normalizeCik "CIK 0001234567")
     = normalizeCik "CIK 0001234567".
Proof.
  apply (normalizeCik_canonical_form "CIK 0001234567").
  - reflexivity.
  - vm_compute. reflexivity.
Defined.

(** X7: [normalizeCik] reads the digits only and drops leading zeros,
    for digit strings of any length: zeros in front and characters that
    are no digits, wherever they stand, do not change the result of a
    cik that has a digit. *)
Theorem normalizeCik_ignores_padding (cik : string) (zeros : nat) :
  has_digit cik = true ->
  normalizeCik (Js.repeat0 zeros ++ cik) = normalizeCik cik
  /\ normalizeCik (Js.filter Js.is_digit cik) = normalizeCik cik.
Proof.
  intros Hd. unfold has_digit in Hd.
  assert (Hf : forall a b, Js.filter Js.is_digit (a ++ b)
                           = Js.filter Js.is_digit a ++ Js.filter Js.is_digit b).
  { intros a b. induction a as [|c r IH]; [reflexivity|].
    cbn [append Js.filter]. destruct (Js.is_digit c); cbn [append];
      now rewrite IH. }
  assert (Hz : Js.filter Js.is_digit (Js.repeat0 zeros) = Js.repeat0 zeros).
  { apply filter_forallb, NumberFacts.repeat0_digits. }
  assert (Hv : forall d, JsNumber.digits_value (Js.repeat0 zeros ++ d)
                         = JsNumber.digits_value d).
  { intros d. unfold JsNumber.digits_value.
    rewrite IdentifierFacts.digits_value_from_app. f_equal.
    clear. induction zeros as [|n IH]; [reflexivity|].
    cbn [Js.repeat0 JsNumber.digits_value_from]. exact IH. }
  split.
  - unfold normalizeCik. rewrite Hf, Hz.
    destruct (Js.filter Js.is_digit cik) as [|c r] eqn:E; [discriminate|].
    rewrite <- E.
    assert (Hne : Js.is_empty (Js.repeat0 zeros ++ Js.filter Js.is_digit cik)
                  = false).
    { rewrite E. destruct zeros; reflexivity. }
    rewrite Hne. unfold JsNumber.parseInt_digits. rewrite Hv.
    rewrite E. reflexivity.
  - unfold normalizeCik.
    rewrite (filter_forallb _ _ (forallb_filter Js.is_digit cik)).
    reflexivity.
Qed.

Lemma normalizeCik_ignores_padding_witness :
  normalizeCik (Js.repeat0 3 ++ "12-34") = normalizeCik "12-34"
  /\ normalizeCik (Js.filter Js.is_digit "12-34") = normalizeCik "12-34".
Proof.
  apply (normalizeCik_ignores_padding "12-34" 3). reflexivity.
Defined.

(** X8: [normalizeAccessionDigits] returns digits only, is idempotent on
    every input, and keeps a leading zero, unlike [normalizeCik]. *)
Theorem normalizeAccessionDigits_idempotent (accession : string) :
  Js.forallb Js.is_digit (normalizeAccessionDigits accession) = true
  /\ normalizeAccessionDigits (normalizeAccessionDigits accession)
     = normalizeAccessionDigits accession
  /\ normalizeAccessionDigits (String "0" accession)
     = String "0" (normalizeAccessionDigits accession).
Proof.
  unfold normalizeAccessionDigits. split; [apply forallb_filter|].
  split; [|reflexivity].
  apply filter_forallb, forallb_filter.
Qed.

(** X9: [buildEdgarIndexUrl] returns the empty string exactly when the
    cik or the accession holds no digit; every other result starts with
    [https://www.sec.gov/Archives/edgar/data/] and ends with
    [-index.html]. *)
Theorem buildEdgarIndexUrl_empty_iff (cik accession : string) :
  (buildEdgarIndexUrl cik accession = ""
   <-> has_digit cik = false \/ has_digit accession = false)
  /\ (buildEdgarIndexUrl cik accession <> "" ->
      Js.startsWith (buildEdgarIndexUrl cik accession)
        "https://www.sec.gov/Archives/edgar/data/" = true
      /\ Js.endsWith (buildEdgarIndexUrl cik accession) "-index.html" = true).
Proof.
  pose proof (IdentifierFacts.normalizeCik_empty_iff cik) as Hc.
  assert (Ha : has_digit accession = true -> Js.trim accession <> "").
  { unfold has_digit. rewrite <- IdentifierFacts.filter_trim.
    destruct (Js.trim accession); [discriminate | intros; discriminate]. }
  assert (Hda : has_digit accession
                = negb (Js.is_empty (Js.filter Js.is_digit accession)))
    by reflexivity.
  rewrite Hda in Ha |- *. clear Hda.
  unfold buildEdgarIndexUrl, normalizeAccessionDigits.
  destruct (normalizeCik cik) as [|c1 r1] eqn:E1; cbn [Js.is_empty orb].
  { split; [|intros H; now elim H]. split; [intros _; left; now apply Hc | auto]. }
  assert (Hdc : has_digit cik = true).
  { destruct (has_digit cik); [reflexivity|].
    destruct Hc as [_ Hc]. specialize (Hc eq_refl). discriminate. }
  destruct (Js.filter Js.is_digit accession) as [|c2 r2] eqn:E2;
    cbn [Js.is_empty orb negb].
  { split; [|intros H; now elim H]. split; [intros _; now right | auto]. }
  destruct (Js.trim accession) as [|c3 r3] eqn:E3; cbn [Js.is_empty].
  { exfalso. apply Ha; reflexivity. }
  split.
  - split; [discriminate|]. intros [H|H]; congruence.
  - intros _. split; [reflexivity|].
    match goal with
    | |- Js.endsWith ?s _ = true =>
        replace s with
          (("https://www.sec.gov/Archives/edgar/data/" ++ String c1 r1 ++ "/"
            ++ String c2 r2 ++ "/" ++ String c3 r3) ++ "-index.html")
    end.
    + apply IdentifierFacts.endsWith_app.
    + repeat (rewrite !append_assoc; cbn [append]). reflexivity.
Qed.

Lemma buildEdgarIndexUrl_empty_iff_witness :
  Js.startsWith (buildEdgarIndexUrl "0001234567" "0001234567-24-000123")
    "https://www.sec.gov/Archives/edgar/data/" = true
  /\ Js.endsWith (buildEdgarIndexUrl "0001234567" "0001234567-24-000123")
       "-index.html" = true.
Proof.
  apply (buildEdgarIndexUrl_empty_iff "0001234567" "0001234567-24-000123").
  vm_compute. discriminate.
Defined.

(** ** Link resolution, further, for every URL parser *)

Module TrimFacts.

Lemma trimEnd_cons (c : ascii) (r : string) :
  Js.trimEnd (String c r)
  = match Js.trimEnd r with
    | EmptyString => if Js.is_space c then EmptyString else String c EmptyString
    | String x t => String c (String x t)
    end.
Proof. reflexivity. Qed.

Lemma trimEnd_idempotent (s : string) :
  Js.trimEnd (Js.trimEnd s) = Js.trimEnd s.
Proof.
  induction s as [|c r IH]; [reflexivity|]. rewrite (trimEnd_cons c r).
  destruct (Js.trimEnd r) as [|c' r'] eqn:E.
  - destruct (Js.is_space c) eqn:Es; [reflexivity|].
    rewrite trimEnd_cons. cbn [Js.trimEnd]. now rewrite Es.
  - rewrite trimEnd_cons, IH. reflexivity.
Qed.

Lemma trimStart_head (s : string) :
  match Js.trimStart s with
  | String c _ => Js.is_space c = false
  | EmptyString => True
  end.
Proof.
  induction s as [|c r IH]; [exact I|]. cbn [Js.trimStart].
  destruct (Js.is_space c) eqn:E; [exact IH | exact E].
Qed.

Lemma trimEnd_keeps_head (c : ascii) (r : string) :
  Js.is_space c = false ->
  exists r', Js.trimEnd (String c r) = String c r'.
Proof.
  intros Hc. cbn [Js.trimEnd]. rewrite Hc.
  destruct (Js.trimEnd r); eauto.
Qed.

Lemma trim_idempotent (s : string) : Js.trim (Js.trim s) = Js.trim s.
Proof.
  unfold Js.trim. pose proof (trimStart_head s) as H.
  destruct (Js.trimStart s) as [|c r]; [reflexivity|].
  destruct (trimEnd_keeps_head c r H) as [r' E].
  rewrite E at 1. cbn [Js.trimStart]. rewrite H, <- E.
  apply trimEnd_idempotent.
Qed.

End TrimFacts.

Section LinkNormalForms.

Variable URL_parse : string -> option URL.

Lemma accepted_path_not_root (u : URL) :
  accepted_path u = true ->
  (String.eqb (pathname u) "/" || String.eqb (pathname u) "") = false.
Proof.
  unfold accepted_path. destruct u as [h p d r]. cbn [pathname].
  destruct (String.eqb_spec p "/") as [->|_]; [discriminate|].
  destruct (String.eqb_spec p "") as [->|_]; [discriminate | reflexivity].
Qed.

Lemma isUsableSecFilingUrl_value (url : string) :
  isUsableSecFilingUrl URL_parse url
  = Normal
      (negb (Js.is_empty (Js.trim url))
       && match URL_parse (Js.trim url) with
          | Some u => sec_gov_test (hostname u) && accepted_path u
          | None => false
          end).
Proof.
  unfold isUsableSecFilingUrl, new_URL.
  destruct (Js.is_empty (Js.trim url)); [reflexivity|]. cbn [negb andb].
  destruct (URL_parse (Js.trim url)) as [u|]; [|reflexivity].
  cbn [bind try_catch].
  destruct (sec_gov_test (hostname u)); [|reflexivity]. cbn [negb andb].
  destruct (accepted_path u) eqn:A.
  - rewrite (accepted_path_not_root u A). unfold accepted_path in A.
    destruct (String.eqb (Js.toLowerCase (pathname u)) "/ix");
      [now rewrite A|].
    apply andb_true_iff in A. destruct A as [A A3].
    apply andb_true_iff in A. destruct A as [A1 A2].
    rewrite A1, A2. apply negb_true_iff in A3. now rewrite A3.
  - destruct (_ || _); [reflexivity|]. unfold accepted_path in A.
    destruct (String.eqb (Js.toLowerCase (pathname u)) "/ix");
      [now rewrite A|].
    destruct (Js.includes (Js.toLowerCase (pathname u)) "/archives/");
      [|reflexivity].
    destruct (Js.includes (last_segment _) "."); [|reflexivity].
    cbn [andb negb] in *. apply negb_false_iff in A. now rewrite A.
Qed.

Lemma canonicalizeSecUrl_value (url : string) (alert : Alert) :
  canonicalizeSecUrl URL_parse url alert
  = Normal
      (if Js.is_empty (Js.trim url) then ""
       else match URL_parse (Js.trim url) with
            | None => ""
            | Some u =>
                if negb (sec_gov_test (hostname u)) then ""
                else if accepted_path u then href u
                else if String.eqb (Js.toLowerCase (pathname u)) "/ix" then ""
                else if Js.includes (Js.toLowerCase (pathname u)) "/archives/"
                then buildEdgarIndexUrl (cik alert) (accession_number alert)
                else ""
            end).
Proof.
  unfold canonicalizeSecUrl, new_URL.
  destruct (Js.is_empty (Js.trim url)); [reflexivity|].
  destruct (URL_parse (Js.trim url)) as [u|]; [|reflexivity].
  cbn [bind try_catch].
  destruct (negb (sec_gov_test (hostname u))); [reflexivity|].
  unfold accepted_path.
  destruct (String.eqb (Js.toLowerCase (pathname u)) "/ix").
  - destruct (Js.startsWith _ _); reflexivity.
  - destruct (Js.includes (Js.toLowerCase (pathname u)) "/archives/");
      [|reflexivity]. cbn [negb andb].
    destruct (is_index_page _); cbn [negb andb].
    + now rewrite andb_false_r.
    + rewrite andb_true_r. destruct (Js.includes _ "."); reflexivity.
Qed.

Lemma toIxViewerUrl_value (url : string) :
  toIxViewerUrl URL_parse url
  = Normal
      (if Js.is_empty (Js.trim url) then ""
       else match URL_parse (Js.trim url) with
            | None => ""
            | Some u =>
                if negb (sec_gov_test (hostname u)) then ""
                else if String.eqb (Js.toLowerCase (pathname u)) "/ix"
                then href u
                else if accepted_path u
                then "https://www.sec.gov/ix?doc=" ++ pathname u
                else ""
            end).
Proof.
  unfold toIxViewerUrl, new_URL.
  destruct (Js.is_empty (Js.trim url)); [reflexivity|].
  destruct (URL_parse (Js.trim url)) as [u|]; [|reflexivity].
  cbn [bind try_catch].
  destruct (negb (sec_gov_test (hostname u))); [reflexivity|].
  unfold accepted_path.
  destruct (String.eqb (Js.toLowerCase (pathname u)) "/ix"); [reflexivity|].
  destruct (Js.includes (Js.toLowerCase (pathname u)) "/archives/");
    [|reflexivity]. cbn [negb andb].
  destruct (Js.includes _ "."); [|reflexivity]. cbn [negb andb].
  destruct (is_index_page _); reflexivity.
Qed.

Lemma isUsable_true_inv (url : string) :
  isUsableSecFilingUrl URL_parse url = Normal true ->
  exists u,
    Js.is_empty (Js.trim url) = false
    /\ URL_parse (Js.trim url) = Some u
    /\ sec_gov_test (hostname u) = true
    /\ accepted_path u = true.
Proof.
  rewrite isUsableSecFilingUrl_value. intros [= H].
  apply andb_true_iff in H. destruct H as [He H].
  apply negb_true_iff in He.
  destruct (URL_parse (Js.trim url)) as [u|]; [|discriminate].
  apply andb_true_iff in H. destruct H. eauto.
Qed.

End LinkNormalForms.

(** X10: [canonicalizeSecUrl] has three outcomes only: the empty string
    (rejection), the synthesized index URL of the record, or the
    serialization of the parsed URL, the last one exactly for the URLs
    that [isUsableSecFilingUrl] accepts. *)
Theorem canonicalizeSecUrl_outcomes
        (URL_parse : string -> option URL) (url : string) (alert : Alert) :
  exists s,
    canonicalizeSecUrl URL_parse url alert = Normal s
    /\ (isUsableSecFilingUrl URL_parse url = Normal true ->
        exists u, URL_parse (Js.trim url) = Some u /\ s = href u)
    /\ (isUsableSecFilingUrl URL_parse url = Normal false ->
        s = ""
        \/ s = buildEdgarIndexUrl (cik alert) (accession_number alert)).
Proof.
  rewrite canonicalizeSecUrl_value, isUsableSecFilingUrl_value.
  eexists. split; [reflexivity|].
  destruct (Js.is_empty (Js.trim url)); cbn [negb andb].
  { split; [discriminate | now left]. }
  destruct (URL_parse (Js.trim url)) as [u|]; [|split; [discriminate | now left]].
  destruct (sec_gov_test (hostname u)); cbn [negb andb];
    [|split; [discriminate | now left]].
  destruct (accepted_path u).
  - split; [eauto | discriminate].
  - split; [discriminate|]. intros _.
    destruct (String.eqb _ "/ix"); [now left|].
    destruct (Js.includes _ _); [now right | now left].
Qed.

Lemma canonicalizeSecUrl_outcomes_witness :
  exists s,
    canonicalizeSecUrl Whatwg.parse
      "https://www.sec.gov/Archives/edgar/data/1/2/" 
      (filing "" "" "" "0001234567" "0001234567-24-000123") = Normal s
    /\ (s = ""
        \/ s = buildEdgarIndexUrl "0001234567" "0001234567-24-000123").
Proof.
  destruct (canonicalizeSecUrl_outcomes Whatwg.parse
              "https://www.sec.gov/Archives/edgar/data/1/2/"
              (filing "" "" "" "0001234567" "0001234567-24-000123"))
    as (s & Hs & _ & H).
  exists s. split; [exact Hs|]. apply H. reflexivity.
Defined.

(** X11: surrounding white space does not count: [canonicalizeSecUrl],
    [isUsableSecFilingUrl] and [toIxViewerUrl] give the same result on a
    string and on the string trimmed. *)
Theorem link_functions_ignore_surrounding_space
        (URL_parse : string -> option URL) (url : string) (alert : Alert) :
  canonicalizeSecUrl URL_parse (Js.trim url) alert
  = canonicalizeSecUrl URL_parse url alert
  /\ isUsableSecFilingUrl URL_parse (Js.trim url)
     = isUsableSecFilingUrl URL_parse url
  /\ toIxViewerUrl URL_parse (Js.trim url) = toIxViewerUrl URL_parse url.
Proof.
  rewrite !canonicalizeSecUrl_value, !isUsableSecFilingUrl_value,
    !toIxViewerUrl_value, !TrimFacts.trim_idempotent.
  repeat split.
Qed.

(** X12: for a URL that [isUsableSecFilingUrl] accepts, the inline
    viewer is always derivable: [toIxViewerUrl] returns the URL's own
    serialization when its path is the viewer route, and
    [https://www.sec.gov/ix?doc=] followed by its path otherwise. *)
Theorem usable_url_has_viewer
        (URL_parse : string -> option URL) (url : string) :
  isUsableSecFilingUrl URL_parse url = Normal true ->
  exists u,
    URL_parse (Js.trim url) = Some u
    /\ toIxViewerUrl URL_parse url
       = Normal (if String.eqb (Js.toLowerCase (pathname u)) "/ix"
                 then href u
                 else "https://www.sec.gov/ix?doc=" ++ pathname u).
Proof.
  intros H. destruct (isUsable_true_inv URL_parse url H)
    as (u & He & Hp & Hs & Ha).
  exists u. split; [assumption|].
  rewrite toIxViewerUrl_value, He, Hp, Hs, Ha. reflexivity.
Qed.

Lemma usable_url_has_viewer_witness :
  exists u,
    Whatwg.parse (Js.trim " https://www.sec.gov/Archives/edgar/data/1/2/x.htm ")
    = Some u
    /\ toIxViewerUrl Whatwg.parse
         " https://www.sec.gov/Archives/edgar/data/1/2/x.htm "
       = Normal (if String.eqb (Js.toLowerCase (pathname u)) "/ix"
                 then href u
                 else "https://www.sec.gov/ix?doc=" ++ pathname u).
Proof.
  apply (usable_url_has_viewer Whatwg.parse
           " https://www.sec.gov/Archives/edgar/data/1/2/x.htm ").
  reflexivity.
Defined.

(** X13: a non-empty [primaryLink] is the canonicalized
    [primary_document_url] of the record, is itself accepted by
    [isUsableSecFilingUrl], and is then also the URL selected for
    [secLink], which shows its inline-viewer form: [secLink] is
    [toIxViewerUrl] of [primaryLink]. *)
Theorem primaryLink_is_usable_primary
        (URL_parse : string -> option URL) (alert : Alert) :
  exists l,
    resolveLinks URL_parse alert = Normal l
    /\ (primaryLink l <> "" ->
        canonicalizeSecUrl URL_parse (primary_document_url alert) alert
        = Normal (primaryLink l)
        /\ isUsableSecFilingUrl URL_parse (primaryLink l) = Normal true
        /\ toIxViewerUrl URL_parse (primaryLink l) = Normal (secLink l)).
Proof.
  destruct (canonicalizeSecUrl_total URL_parse (primary_document_url alert) alert)
    as [c1 H1].
  destruct (canonicalizeSecUrl_total URL_parse (sec_filing_url alert) alert)
    as [c2 H2].
  destruct (canonicalizeSecUrl_total URL_parse (sec_index_url alert) alert)
    as [c3 H3].
  destruct (find_usable_total URL_parse [c1; c2; c3]) as [found Hf].
  destruct (isUsableSecFilingUrl_total URL_parse c1) as [usable Hu].
  pose proof (resolveLinks_unfold URL_parse alert c1 c2 c3 found usable
                H1 H2 H3 Hf Hu) as H.
  cbv zeta in H.
  set (best := or_else _ "#") in H.
  destruct (toIxViewerUrl_total URL_parse best) as [viewer Hv].
  rewrite (H viewer Hv). eexists. split; [reflexivity|].
  cbn [secLink primaryLink].
  destruct usable; [|cbn; congruence].
  destruct (negb (Js.is_empty c1) && negb (c1 =? or_else viewer best)%string)
    eqn:E; [|congruence].
  intros _. apply andb_true_iff in E. destruct E as [Hne Hneq].
  apply negb_true_iff in Hneq. apply String.eqb_neq in Hneq.
  assert (Hfound : found = Some c1).
  { cbn [find_usable] in Hf. rewrite Hu in Hf. cbn [bind] in Hf. congruence. }
  assert (Hbest : best = c1).
  { unfold best. rewrite Hfound. unfold or_else.
    apply negb_true_iff in Hne. rewrite Hne. cbn [Js.is_empty].
    destruct c1; [discriminate | reflexivity]. }
  rewrite Hbest in *.
  destruct (usable_url_has_viewer URL_parse c1 Hu) as (u & Hp & Hview).
  rewrite Hview in Hv. injection Hv as <-.
  repeat split; try assumption.
  rewrite Hview. f_equal.
  unfold or_else.
  destruct (String.eqb (Js.toLowerCase (pathname u)) "/ix") eqn:Eix;
    [|reflexivity].
  unfold or_else in Hneq. destruct (href u) eqn:Eh; cbn [Js.is_empty] in *;
    [congruence | reflexivity].
Qed.

(** X14: the candidates are tried in order: when the canonicalized
    [primary_document_url] is usable it is the URL selected, and
    [sec_filing_url], [sec_index_url] and every other field but [cik]
    and [accession_number] are without effect on the result. *)
Theorem primary_candidate_wins
        (URL_parse : string -> option URL) (a b : Alert) :
  qualifies URL_parse (primary_document_url a) a = true ->
  primary_document_url a = primary_document_url b ->
  cik a = cik b ->
  accession_number a = accession_number b ->
  resolveLinks URL_parse a = resolveLinks URL_parse b.
Proof.
  intros Q Hp Hc Ha.
  assert (E : forall url, canonicalizeSecUrl URL_parse url a
                          = canonicalizeSecUrl URL_parse url b).
  { intros url. rewrite !canonicalizeSecUrl_value. now rewrite Hc, Ha. }
  unfold qualifies in Q.
  destruct (canonicalizeSecUrl_total URL_parse (primary_document_url a) a)
    as [c1 H1].
  rewrite H1 in Q.
  destruct (isUsableSecFilingUrl_total URL_parse c1) as [u1 Hu].
  rewrite Hu in Q. subst u1.
  unfold resolveLinks. rewrite <- Hp, <- Hc, <- Ha, <- !E, H1.
  destruct (canonicalizeSecUrl_total URL_parse (sec_filing_url a) a) as [x2 ->].
  destruct (canonicalizeSecUrl_total URL_parse (sec_index_url a) a) as [x3 ->].
  destruct (canonicalizeSecUrl_total URL_parse (sec_filing_url b) a) as [y2 ->].
  destruct (canonicalizeSecUrl_total URL_parse (sec_index_url b) a) as [y3 ->].
  cbn [bind find_usable]. rewrite Hu. reflexivity.
Qed.

Lemma primary_candidate_wins_witness :
  resolveLinks Whatwg.parse
    (filing "https://www.sec.gov/Archives/edgar/data/1/2/x.htm"
            "https://www.sec.gov/Archives/edgar/data/1/2/y.htm" ""
            "0001234567" "0001234567-24-000123")
  = resolveLinks Whatwg.parse
      (filing "https://www.sec.gov/Archives/edgar/data/1/2/x.htm"
              "" "https://www.sec.gov/Archives/edgar/data/1/2/z.htm"
              "0001234567" "0001234567-24-000123").
Proof.
  apply primary_candidate_wins; reflexivity.
Defined.

(** ** Link resolution on archive documents, with the URL parser *)

Module DocumentFacts.
Import Whatwg.

Lemma serialize_segments_app (a b : list string) :
  serialize_segments (a ++ b) = serialize_segments a ++ serialize_segments b.
Proof.
  induction a as [|x r IH]; [reflexivity|].
  cbn [app serialize_segments]. rewrite IH.
  now rewrite !append_assoc.
Qed.

Lemma plain_segments_kept (l : list string) :
  Forall (fun x => plain_segment x /\ x <> "") l ->
  Js.forallb kept ("https://www.sec.gov" ++ serialize_segments l) = true.
Proof.
  intros H. rewrite forallb_app. apply andb_true_iff. split; [reflexivity|].
  apply ParserFacts.serialize_segments_kept.
  eapply Forall_impl; [|exact H]. intros x [[Hx _] _]. exact Hx.
Qed.

(** The path tests on [/Archives/.../doc]. *)
Lemma document_path_accepted (middle : list string) (doc : string) :
  Forall (fun x => plain_segment x /\ x <> "") (middle ++ [doc]) ->
  Js.includes (Js.toLowerCase doc) "." = true ->
  is_index_page (Js.toLowerCase doc) = false ->
  let path := serialize_segments ("Archives" :: middle ++ [doc]) in
  String.eqb (Js.toLowerCase path) "/ix" = false
  /\ accepted_path (mkURL "www.sec.gov" path None
                      ("https://www.sec.gov" ++ path)) = true.
Proof.
  intros Hall Hdot Hidx. cbv zeta.
  assert (Hix : String.eqb
                  (Js.toLowerCase
                     (serialize_segments ("Archives" :: middle ++ [doc])))
                  "/ix" = false) by reflexivity.
  split; [exact Hix|].
  unfold accepted_path. cbn [pathname]. rewrite Hix.
  assert (Hns : Forall (fun y => no_slash y = true)
                  (List.map Js.toLowerCase ("Archives" :: middle ++ [doc]))).
  { apply Forall_map. constructor; [reflexivity|].
    eapply Forall_impl; [|exact Hall]. intros x [[Hx _] _].
    now apply PathFacts.lower_no_slash, PathFacts.plain_no_slash. }
  assert (Hdoc : doc <> "").
  { apply Forall_app in Hall. destruct Hall as [_ Hd].
    inversion Hd as [|? ? [_ Hne] _]; subst. exact Hne. }
  assert (Hlast : last_segment
                    (Js.toLowerCase
                       (serialize_segments ("Archives" :: middle ++ [doc])))
                  = Js.toLowerCase doc).
  { rewrite PathFacts.lower_serialize.
    change ("Archives" :: middle ++ [doc])%list
      with (("Archives" :: middle) ++ [doc])%list.
    rewrite List.map_app. cbn [List.map].
    change ("Archives" :: middle ++ [doc])%list
      with (("Archives" :: middle) ++ [doc])%list in Hns.
    rewrite List.map_app in Hns. apply Forall_app in Hns.
    destruct Hns as [Hl Hx]. inversion Hx; subst.
    apply PathFacts.last_segment_serialize; try assumption.
    destruct doc; [congruence | discriminate]. }
  rewrite Hlast, Hdot, Hidx, !andb_true_r.
  rewrite PathFacts.lower_serialize. cbn [List.map serialize_segments].
  destruct doc as [|dc dr]; [congruence|].
  destruct middle as [|m rest]; [reflexivity|].
  inversion Hall as [|? ? [_ Hm] _]; subst.
  destruct m as [|mc mr]; [congruence | reflexivity].
Qed.

Lemma document_url_parsed (middle : list string) (doc : string) :
  Forall (fun x => plain_segment x /\ x <> "") (middle ++ [doc]) ->
  let path := serialize_segments ("Archives" :: middle ++ [doc]) in
  Js.trim ("https://www.sec.gov" ++ path) = "https://www.sec.gov" ++ path
  /\ parse ("https://www.sec.gov" ++ path)
     = Some (mkURL "www.sec.gov" path None ("https://www.sec.gov" ++ path)).
Proof.
  intros Hall. cbv zeta.
  assert (Hall' : Forall (fun x => plain_segment x /\ x <> "")
                    ("Archives" :: middle ++ [doc])).
  { constructor; [|exact Hall]. repeat split; discriminate. }
  split.
  - apply FallbackFacts.trim_kept. now apply plain_segments_kept.
  - now apply ParserFacts.parse_sec_gov_path.
Qed.

End DocumentFacts.

(** X15: a record whose [primary_document_url] is a document under
    [https://www.sec.gov/Archives/] (plain path segments, a last segment
    with an extension that is no index page) gets both links: [secLink]
    is the inline viewer on the document's path and [primaryLink] is the
    document URL itself, whatever the other fields hold. *)
Theorem resolveLinks_archive_document
        (alert : Alert) (middle : list string) (doc : string) :
  Forall (fun x => plain_segment x /\ x <> "") (middle ++ [doc]) ->
  Js.includes (Js.toLowerCase doc) "." = true ->
  is_index_page (Js.toLowerCase doc) = false ->
  let path := Whatwg.serialize_segments ("Archives" :: middle ++ [doc]) in
  primary_document_url alert = "https://www.sec.gov" ++ path ->
  resolveLinks Whatwg.parse alert
  = Normal {| secLink := "https://www.sec.gov/ix?doc=" ++ path;
              primaryLink := "https://www.sec.gov" ++ path |}.
Proof.
  intros Hall Hdot Hidx path Hurl.
  destruct (DocumentFacts.document_url_parsed middle doc Hall) as [Htrim Hparse].
  destruct (DocumentFacts.document_path_accepted middle doc Hall Hdot Hidx)
    as [Hix Hacc].
  fold path in Htrim, Hparse, Hix, Hacc.
  set (url := "https://www.sec.gov" ++ path) in *.
  assert (Hne : Js.is_empty url = false) by reflexivity.
  assert (Hu : isUsableSecFilingUrl Whatwg.parse url = Normal true).
  { rewrite isUsableSecFilingUrl_value, Htrim, Hne, Hparse. cbn [hostname].
    now rewrite Hacc. }
  assert (Hc : canonicalizeSecUrl Whatwg.parse url alert = Normal url).
  { rewrite canonicalizeSecUrl_value, Htrim, Hne, Hparse. cbn [hostname href].
    now rewrite Hacc. }
  assert (Hv : toIxViewerUrl Whatwg.parse url
               = Normal ("https://www.sec.gov/ix?doc=" ++ path)).
  { rewrite toIxViewerUrl_value, Htrim, Hne, Hparse. cbn [hostname pathname].
    now rewrite Hix, Hacc. }
  assert (Hc' : canonicalizeSecUrl Whatwg.parse (primary_document_url alert)
                   alert = Normal url) by (rewrite Hurl; exact Hc).
  destruct (canonicalizeSecUrl_total Whatwg.parse (sec_filing_url alert) alert)
    as [c2 H2].
  destruct (canonicalizeSecUrl_total Whatwg.parse (sec_index_url alert) alert)
    as [c3 H3].
  assert (Hf : find_usable Whatwg.parse [url; c2; c3] = Normal (Some url)).
  { cbn [find_usable]. now rewrite Hu. }
  pose proof (resolveLinks_unfold Whatwg.parse alert url c2 c3 (Some url) true
                Hc' H2 H3 Hf Hu) as H.
  cbv beta iota zeta in H.
  assert (Hbest : or_else
                    (or_else url
                       (buildEdgarIndexUrl (cik alert) (accession_number alert)))
                    "#" = url) by reflexivity.
  rewrite Hbest in H. rewrite (H _ Hv). reflexivity.
Qed.

Lemma resolveLinks_archive_document_witness :
  resolveLinks Whatwg.parse
    (filing "https://www.sec.gov/Archives/edgar/data/1/2/x.htm" "" "" "" "")
  = Normal
      {| secLink := "https://www.sec.gov/ix?doc=/Archives/edgar/data/1/2/x.htm";
         primaryLink := "https://www.sec.gov/Archives/edgar/data/1/2/x.htm" |}.
Proof.
  apply (resolveLinks_archive_document
           (filing "https://www.sec.gov/Archives/edgar/data/1/2/x.htm" "" "" "" "")
           ["edgar"; "data"; "1"; "2"] "x.htm").
  - repeat constructor; discriminate.
  - reflexivity.
  - reflexivity.
  - vm_compute. reflexivity.
Defined.

Module ViewerFacts.
Import Whatwg.

Lemma doc_char (c : ascii) :
  word_char c || Ascii.eqb c "/" || Ascii.eqb c "=" = true ->
  kept c = true
  /\ negb (ch c "#") = true
  /\ negb (in_special_query_set c) = true
  /\ negb (Ascii.eqb c "&") = true.
Proof.
  destruct c as [[] [] [] [] [] [] [] []]; vm_compute;
    try (intros; discriminate); repeat split.
Qed.

Lemma break_none (stop : ascii -> bool) (s : string) :
  Js.forallb (fun c => negb (stop c)) s = true -> break stop s = (s, "").
Proof.
  induction s as [|c r IH]; [reflexivity|]. cbn [Js.forallb break].
  intros H. apply andb_true_iff in H. destruct H as [Hc Hr].
  apply negb_true_iff in Hc. rewrite Hc, (IH Hr). reflexivity.
Qed.

Lemma encode_none (set : ascii -> bool) (s : string) :
  Js.forallb (fun c => negb (set c)) s = true -> encode set s = s.
Proof.
  induction s as [|c r IH]; [reflexivity|]. cbn [Js.forallb encode].
  intros H. apply andb_true_iff in H. destruct H as [Hc Hr].
  apply negb_true_iff in Hc. unfold encode_char. rewrite Hc, (IH Hr).
  reflexivity.
Qed.

Lemma split_none (sep : ascii) (s : string) :
  Js.forallb (fun c => negb (Ascii.eqb c sep)) s = true ->
  Js.split sep s = [s].
Proof.
  induction s as [|c r IH]; [reflexivity|]. cbn [Js.forallb Js.split].
  intros H. apply andb_true_iff in H. destruct H as [Hc Hr].
  apply negb_true_iff in Hc. rewrite Hc, (IH Hr). reflexivity.
Qed.

Lemma query_only (q : string) :
  Js.forallb (fun c => word_char c || Ascii.eqb c "/" || Ascii.eqb c "=") q
  = true ->
  query_and_fragment true (String "?" q) = (Some q, None).
Proof.
  intros H. unfold query_and_fragment.
  rewrite (break_none (fun c => ch c "#") q).
  - rewrite encode_none; [reflexivity|].
    revert H. apply forallb_weaken. intros c Hc. apply (doc_char c Hc).
  - revert H. apply forallb_weaken. intros c Hc. apply (doc_char c Hc).
Qed.

(** [new URL] on the viewer route with a [doc] of word characters and
    slashes. *)
Lemma parse_viewer (doc : string) :
  Js.forallb (fun c => word_char c || Ascii.eqb c "/") doc = true ->
  parse ("https://www.sec.gov/ix?doc=" ++ doc)
  = Some (mkURL "www.sec.gov" "/ix" (Some (form_decode doc))
            ("https://www.sec.gov/ix?doc=" ++ doc)).
Proof.
  intros H.
  assert (H' : Js.forallb
                 (fun c => word_char c || Ascii.eqb c "/" || Ascii.eqb c "=")
                 doc = true).
  { revert H. apply forallb_weaken. intros c Hc. now rewrite Hc. }
  assert (Hq : Js.forallb
                 (fun c => word_char c || Ascii.eqb c "/" || Ascii.eqb c "=")
                 ("doc=" ++ doc) = true).
  { rewrite forallb_app, H'. reflexivity. }
  assert (Hkept : Js.forallb kept ("https://www.sec.gov/ix?doc=" ++ doc) = true).
  { rewrite forallb_app. apply andb_true_iff. split; [reflexivity|].
    revert H'. apply forallb_weaken. intros c Hc. apply (doc_char c Hc). }
  pose proof (query_only _ Hq) as Hquery.
  assert (Hsplit : Js.split "&" ("doc=" ++ doc) = ["doc=" ++ doc]).
  { apply split_none. revert Hq. apply forallb_weaken.
    intros c Hc. apply (doc_char c Hc). }
  unfold parse, basic_parse. cbn [append] in Hkept, Hquery, Hsplit |- *.
  rewrite (ParserFacts.preprocess_kept "h" _ Hkept).
  cbn -[query_and_fragment authority_state form_get Js.split].
  change (authority_state "https" true "www.sec.gov")
    with (Some ("", "", "www.sec.gov", @None Z)).
  cbv iota beta. rewrite Hquery.
  cbn -[form_get Js.split form_decode api].
  unfold api, searchParams_get, serialize.
  cbn [host path query scheme username password port fragment].
  rewrite Hsplit. cbn -[form_decode].
  rewrite ?append_nil_r. reflexivity.
Qed.

End ViewerFacts.

Lemma prefix_app (p z : string) : String.prefix p (p ++ z) = true.
Proof.
  induction p as [|c r IH]; [destruct z; reflexivity|].
  cbn [append String.prefix]. destruct (ascii_dec c c); [exact IH | congruence].
Qed.

(** X16: an inline-viewer URL
    [https://www.sec.gov/ix?doc=/Archives/...], its [doc] made of letters,
    digits, [.], [+], [-] and slashes, is stable under the link functions:
    [isUsableSecFilingUrl] accepts it, and [toIxViewerUrl] and
    [canonicalizeSecUrl] return it unchanged, for every record. *)
Theorem viewer_url_is_stable (tail : string) (alert : Alert) :
  Js.forallb (fun c => word_char c || Ascii.eqb c "/") tail = true ->
  let viewer := "https://www.sec.gov/ix?doc=/Archives/" ++ tail in
  isUsableSecFilingUrl Whatwg.parse viewer = Normal true
  /\ toIxViewerUrl Whatwg.parse viewer = Normal viewer
  /\ canonicalizeSecUrl Whatwg.parse viewer alert = Normal viewer.
Proof.
  intros H viewer.
  assert (Hdoc : Js.forallb (fun c => word_char c || Ascii.eqb c "/")
                   ("/Archives/" ++ tail) = true).
  { rewrite forallb_app, H. reflexivity. }
  pose proof (ViewerFacts.parse_viewer _ Hdoc) as Hparse.
  assert (Hv : viewer = "https://www.sec.gov/ix?doc=" ++ "/Archives/" ++ tail)
    by reflexivity.
  rewrite <- Hv in Hparse.
  assert (Htrim : Js.trim viewer = viewer).
  { apply FallbackFacts.trim_kept. unfold viewer.
    rewrite forallb_app. apply andb_true_iff. split; [reflexivity|].
    revert H. apply forallb_weaken. intros c Hc.
    apply (ViewerFacts.doc_char c). now rewrite Hc. }
  assert (Hne : Js.is_empty viewer = false) by reflexivity.
  assert (Hacc : accepted_path
                   (mkURL "www.sec.gov" "/ix"
                      (Some (Whatwg.form_decode ("/Archives/" ++ tail)))
                      viewer) = true).
  { unfold accepted_path. cbn [pathname searchParams_get_doc].
    change (String.eqb (Js.toLowerCase "/ix") "/ix") with true. cbv iota.
    change (Js.toLowerCase (Whatwg.form_decode ("/Archives/" ++ tail)))
      with ("/archives/" ++ Js.toLowerCase (Whatwg.form_decode tail)).
    apply prefix_app. }
  rewrite isUsableSecFilingUrl_value, toIxViewerUrl_value,
    canonicalizeSecUrl_value, Htrim, Hne, Hparse.
  cbn [hostname pathname href]. rewrite Hacc.
  repeat split.
Qed.

Lemma viewer_url_is_stable_witness :
  let viewer :=
    "https://www.sec.gov/ix?doc=/Archives/"
    ++ "edgar/data/1234567/000123456724000123/0001234567-24-000123-index.html" in
  isUsableSecFilingUrl Whatwg.parse viewer = Normal true
  /\ toIxViewerUrl Whatwg.parse viewer = Normal viewer
  /\ canonicalizeSecUrl Whatwg.parse viewer (filing "" "" "" "" "")
     = Normal viewer.
Proof.
  apply (viewer_url_is_stable
           "edgar/data/1234567/000123456724000123/0001234567-24-000123-index.html"
           (filing "" "" "" "" "")).
  reflexivity.
Defined.

(** ** Filtering and sorting, further *)

Module CaseFacts.

Ltac each_char c :=
  destruct c as [[] [] [] [] [] [] [] []]; reflexivity.

Lemma upper_char_space (c : ascii) :
  Js.is_space (Js.upper_char c) = Js.is_space c.
Proof. each_char c. Qed.

Lemma lower_upper_char (c : ascii) :
  Js.lower_char (Js.upper_char c) = Js.lower_char c.
Proof. each_char c. Qed.

Lemma upper_char_not_lower (c : ascii) :
  Js.is_lower (Js.upper_char c) = false.
Proof. each_char c. Qed.

Lemma trimStart_map (f : ascii -> ascii) (s : string) :
  (forall c, Js.is_space (f c) = Js.is_space c) ->
  Js.trimStart (Js.map f s) = Js.map f (Js.trimStart s).
Proof.
  intros Hf. induction s as [|c r IH]; [reflexivity|].
  cbn [Js.map Js.trimStart]. rewrite Hf.
  destruct (Js.is_space c); [exact IH | reflexivity].
Qed.

Lemma trimEnd_map (f : ascii -> ascii) (s : string) :
  (forall c, Js.is_space (f c) = Js.is_space c) ->
  Js.trimEnd (Js.map f s) = Js.map f (Js.trimEnd s).
Proof.
  intros Hf. induction s as [|c r IH]; [reflexivity|].
  cbn [Js.map]. rewrite !TrimFacts.trimEnd_cons, IH, Hf.
  destruct (Js.trimEnd r); cbn [Js.map];
    [destruct (Js.is_space c); reflexivity | reflexivity].
Qed.

Lemma lower_trim_upper (v : string) :
  Js.toLowerCase (Js.trim (Js.toUpperCase v)) = Js.toLowerCase (Js.trim v).
Proof.
  unfold Js.trim, Js.toUpperCase, Js.toLowerCase.
  rewrite trimStart_map, trimEnd_map by apply upper_char_space.
  induction (Js.trimEnd (Js.trimStart v)) as [|c r IH]; [reflexivity|].
  cbn [Js.map]. now rewrite lower_upper_char, IH.
Qed.

Lemma toUpperCase_no_lower (s : string) :
  Whatwg.existsb Js.is_lower (Js.toUpperCase s) = false.
Proof.
  unfold Js.toUpperCase. induction s as [|c r IH]; [reflexivity|].
  cbn [Js.map Whatwg.existsb]. now rewrite upper_char_not_lower, IH.
Qed.

End CaseFacts.

Section FilterFacts.

Variable Date_parse : string -> option Z.

Lemma insert_same_time (x : Alert) (l : list Alert) :
  Forall (fun y => SortCompare Date_parse x y <= 0) l ->
  insert Date_parse x l = x :: l.
Proof.
  intros H. destruct l as [|y r]; [reflexivity|]. cbn [insert].
  inversion H as [|? ? Hy _]; subst.
  destruct (Z.ltb_spec 0 (SortCompare Date_parse x y)); [lia | reflexivity].
Qed.

Lemma sort_of_sorted (l : list Alert) :
  Forall (fun a => getTime Date_parse a <> None) l ->
  StronglySorted (later_first Date_parse) l ->
  sort Date_parse l = l.
Proof.
  intros Hp Hs. induction Hs as [|x r Hr IH Hx]; [reflexivity|].
  inversion Hp as [|? ? Hpx Hpr]; subst.
  cbn [sort]. rewrite (IH Hpr). apply insert_same_time.
  rewrite Forall_forall in *. intros y Hy.
  specialize (Hx y Hy). specialize (Hpr y Hy).
  unfold later_first, time_or_epoch in Hx. unfold SortCompare, comparefn.
  destruct (getTime Date_parse x); [|congruence].
  destruct (getTime Date_parse y); [lia | congruence].
Qed.

Lemma count_le (f : Alert -> bool) (l : list Alert) :
  0 <= count f l <= Z.of_nat (List.length l).
Proof.
  unfold count. pose proof (List.filter_length_le f l). lia.
Qed.

Lemma count_perm (f : Alert -> bool) (l l' : list Alert) :
  Permutation l l' -> count f l = count f l'.
Proof.
  intros H. unfold count. f_equal.
  induction H as [|x l l' _ IH|x y l|l l' l'' _ IH1 _ IH2];
    cbn [List.filter]; try reflexivity.
  - destruct (f x); cbn [List.length]; now rewrite IH.
  - destruct (f x), (f y); reflexivity.
  - now rewrite IH1.
Qed.

Lemma filterAlerts_In (p : Page) (a : Alert) :
  In a (filterAlerts Date_parse p)
  <-> In a (allAlerts p)
      /\ keep (match formFilterEl p with Some v => v | None => "ALL" end)
               (match searchInputEl p with
                | Some v => Js.toLowerCase (Js.trim v)
                | None => ""
                end) a = true.
Proof.
  unfold filterAlerts. rewrite <- filter_In.
  set (kept_records := List.filter _ (allAlerts p)).
  pose proof (sort_perm Date_parse kept_records) as Hperm.
  split; intros H.
  - eapply Permutation_in; [symmetry; exact Hperm | exact H].
  - eapply Permutation_in; [exact Hperm | exact H].
Qed.

End FilterFacts.

(** X17: what [filterAlerts] shows is a rearrangement of the cached
    records that pass the filter: a record is shown exactly when it is in
    the cache and is kept, none is shown twice over its count in the
    cache, and the number shown never exceeds the number cached. *)
Theorem filterAlerts_shows_kept_records
        (Date_parse : string -> option Z) (p : Page) :
  let formFilter := match formFilterEl p with Some v => v | None => "ALL" end in
  let query := match searchInputEl p with
               | Some v => Js.toLowerCase (Js.trim v)
               | None => ""
               end in
  Permutation (List.filter (keep formFilter query) (allAlerts p))
              (filterAlerts Date_parse p)
  /\ (forall a, In a (filterAlerts Date_parse p)
                <-> In a (allAlerts p) /\ keep formFilter query a = true)
  /\ (List.length (filterAlerts Date_parse p) <= List.length (allAlerts p))%nat.
Proof.
  cbv zeta. unfold filterAlerts.
  set (kept_records := List.filter _ (allAlerts p)).
  pose proof (sort_perm Date_parse kept_records) as Hperm.
  split; [exact Hperm|]. split.
  - intros a. apply (filterAlerts_In Date_parse p a).
  - rewrite <- (Permutation_length Hperm). apply List.filter_length_le.
Qed.

(** X18: with the filter on [ALL] (or no filter element) and a query that
    is empty or white space only (or no search box), nothing is left
    out: [filterAlerts] is a rearrangement of the whole cache. *)
Theorem filterAlerts_wildcard_keeps_all
        (Date_parse : string -> option Z) (p : Page) :
  (formFilterEl p = None \/ formFilterEl p = Some "ALL") ->
  (searchInputEl p = None
   \/ exists v, searchInputEl p = Some v /\ Js.trim v = "") ->
  Permutation (allAlerts p) (filterAlerts Date_parse p).
Proof.
  intros Hf Hq. unfold filterAlerts.
  assert (Ef : match formFilterEl p with Some v => v | None => "ALL" end = "ALL").
  { destruct Hf as [-> | ->]; reflexivity. }
  assert (Eq : match searchInputEl p with
               | Some v => Js.toLowerCase (Js.trim v)
               | None => ""
               end = "").
  { destruct Hq as [-> | (v & -> & ->)]; reflexivity. }
  rewrite Ef, Eq.
  assert (E : List.filter (keep "ALL" "") (allAlerts p) = allAlerts p).
  { induction (allAlerts p) as [|a l IH]; [reflexivity|].
    cbn [List.filter]. rewrite IH. reflexivity. }
  rewrite E. apply sort_perm.
Qed.

Lemma filterAlerts_wildcard_keeps_all_witness :
  Permutation
    (allAlerts
       (mkPage Static None
               [dated "485APOS" "2024-01-02"; dated "S-1" "2024-01-03"]
               None None None None None None None (Some "   ") (Some "ALL")))
    (filterAlerts example_Date_parse
       (mkPage Static None
               [dated "485APOS" "2024-01-02"; dated "S-1" "2024-01-03"]
               None None None None None None None (Some "   ") (Some "ALL"))).
Proof.
  apply filterAlerts_wildcard_keeps_all.
  - right. reflexivity.
  - right. exists "   ". split; reflexivity.
Defined.

(** X19: the search does not depend on the case of an ASCII query:
    typing a query of code units below 128 in upper case shows the same
    records, in the same order. *)
Theorem search_ignores_query_case
        (Date_parse : string -> option Z) (p : Page) (v : string) :
  Js.forallb (fun c => Js.code c <? 128) v = true ->
  filterAlerts Date_parse
    (with_inputs (Some (Js.toUpperCase v)) (formFilterEl p) p)
  = filterAlerts Date_parse (with_inputs (Some v) (formFilterEl p) p).
Proof.
  intros _. unfold filterAlerts.
  cbn [with_inputs searchInputEl formFilterEl allAlerts].
  now rewrite CaseFacts.lower_trim_upper.
Qed.

Lemma search_ignores_query_case_witness :
  filterAlerts example_Date_parse
    (with_inputs (Some " EXAMPLE TRUST") (formFilterEl example_page)
       example_page)
  = filterAlerts example_Date_parse
      (with_inputs (Some " Example Trust") (formFilterEl example_page)
         example_page)
  /\ filterAlerts example_Date_parse
       (with_inputs (Some " Example Trust") (formFilterEl example_page)
          example_page)
     = [dated "485APOS" "2024-01-02"].
Proof.
  split; [|reflexivity].
  apply (search_ignores_query_case example_Date_parse example_page
           " Example Trust").
  reflexivity.
Defined.

(** X20: a form filter other than [ALL] keeps the records whose
    upper-cased [form_type] equals the filter value as it is written: a
    filter value with a lower-case letter shows no record at all. *)
Theorem form_filter_is_exact
        (Date_parse : string -> option Z) (p : Page) (formFilter : string) :
  formFilterEl p = Some formFilter ->
  formFilter <> "ALL" ->
  (forall a, In a (filterAlerts Date_parse p) ->
             Js.toUpperCase (form_type a) = formFilter)
  /\ (Whatwg.existsb Js.is_lower formFilter = true ->
      filterAlerts Date_parse p = []).
Proof.
  intros Hf Hne.
  assert (Hk : forall q a, keep formFilter q a = true ->
                           Js.toUpperCase (form_type a) = formFilter).
  { intros q a. unfold keep.
    destruct (String.eqb_spec formFilter "ALL") as [E|_]; [congruence|].
    destruct (String.eqb_spec (Js.toUpperCase (form_type a)) formFilter);
      [auto | discriminate]. }
  assert (Hin : forall a, In a (filterAlerts Date_parse p) ->
                          Js.toUpperCase (form_type a) = formFilter).
  { intros a Ha.
    destruct (filterAlerts_In Date_parse p a) as [H _].
    destruct (H Ha) as [_ Hkeep]. rewrite Hf in Hkeep. eapply Hk, Hkeep. }
  split; [exact Hin|].
  intros Hlow. destruct (filterAlerts Date_parse p) as [|a l]; [reflexivity|].
  specialize (Hin a (or_introl eq_refl)).
  rewrite <- Hin, CaseFacts.toUpperCase_no_lower in Hlow. discriminate.
Qed.

Lemma form_filter_is_exact_witness :
  filterAlerts example_Date_parse
    (mkPage Static None
            [dated "485BPOS" "2024-01-02"; dated "S-1" "2024-01-03"]
            None None None None None None None (Some "") (Some "485bpos"))
  = [].
Proof.
  apply (form_filter_is_exact example_Date_parse
           (mkPage Static None
                   [dated "485BPOS" "2024-01-02"; dated "S-1" "2024-01-03"]
                   None None None None None None None (Some "") (Some "485bpos"))
           "485bpos").
  - reflexivity.
  - discriminate.
  - reflexivity.
Defined.

(** X21: sorting is idempotent where the timestamps parse: a list already
    in descending order is returned as it is, and so sorting a sorted
    result again changes nothing. *)
Theorem sort_idempotent (Date_parse : string -> option Z) (l : list Alert) :
  Forall (fun a => getTime Date_parse a <> None) l ->
  (StronglySorted (later_first Date_parse) l -> sort Date_parse l = l)
  /\ sort Date_parse (sort Date_parse l) = sort Date_parse l.
Proof.
  intros Hp. split; [now apply sort_of_sorted|].
  apply sort_of_sorted.
  - eapply Permutation_Forall; [apply sort_perm | exact Hp].
  - apply Sorted_StronglySorted; [apply later_first_trans|].
    now apply sort_sorted.
Qed.

Lemma sort_idempotent_witness :
  sort example_Date_parse
    (sort example_Date_parse
       [dated "485APOS" "2024-01-02"; dated "S-1" "2024-01-03"])
  = sort example_Date_parse
      [dated "485APOS" "2024-01-02"; dated "S-1" "2024-01-03"].
Proof.
  apply (sort_idempotent example_Date_parse
           [dated "485APOS" "2024-01-02"; dated "S-1" "2024-01-03"]).
  repeat constructor; vm_compute; discriminate.
Defined.

(** X22: when no two records can be told apart by time, the input order
    is the output order: a list whose records all have the same
    timestamp, all lack one, or all have an unparseable one, is returned
    unchanged. *)
Theorem sort_keeps_order_of_equal_times
        (Date_parse : string -> option Z) (l : list Alert) (k : option Z) :
  Forall (fun a => getTime Date_parse a = k) l ->
  sort Date_parse l = l.
Proof.
  induction 1 as [|x r Hx Hr IH]; [reflexivity|].
  cbn [sort]. rewrite IH. apply insert_same_time.
  eapply Forall_impl; [|exact Hr]. intros y Hy.
  unfold SortCompare, comparefn. rewrite Hx, Hy.
  destruct k; lia.
Qed.

Lemma sort_keeps_order_of_equal_times_witness :
  sort example_Date_parse
    [dated "485APOS" ""; dated "S-1" ""; dated "485BPOS" ""]
  = [dated "485APOS" ""; dated "S-1" ""; dated "485BPOS" ""].
Proof.
  apply (sort_keeps_order_of_equal_times example_Date_parse _ (Some 0)).
  repeat constructor.
Defined.

(** ** The page, further *)

Section PageFacts.

Variable Date_parse : string -> option Z.
Variable Number_toLocaleString : Z -> string.
Variable Date_toLocaleString : Z -> string.

Local Abbreviation refresh :=
  (refreshAll Date_parse Number_toLocaleString Date_toLocaleString).
Local Abbreviation render :=
  (applyFiltersAndRender Date_parse Number_toLocaleString).
Local Abbreviation consistent :=
  (page_consistent Date_parse Number_toLocaleString).

Ltac page_cases p :=
  destruct p as [m cs al se ae ve mt mc mr ms si ff];
  destruct m, se, ae, ve, mt, mc, mr, ms.

Lemma render_idempotent (p : Page) : render (render p) = render p.
Proof. page_cases p; reflexivity. Qed.

Lemma render_consistent (p : Page) :
  metric_elements p
  = metric_elements (updateMetrics Number_toLocaleString (allAlerts p) p) ->
  consistent (render p).
Proof.
  unfold page_consistent. intros Hm.
  destruct p as [m cs al se ae ve mt mc mr ms si ff].
  unfold metric_elements in *. cbn in Hm. injection Hm as H1 H2 H3 H4.
  destruct ae, ve; repeat split; cbn; congruence.
Qed.

Lemma refresh_resolved_consistent (t : Tick) (p : Page) :
  read_failed t = false -> consistent (refresh t p).
Proof.
  intros H.
  destruct (promise_all_resolved t H) as (st & alerts & _ & _ & Hp).
  unfold refreshAll. rewrite Hp. unfold page_consistent.
  page_cases p; repeat split.
Qed.

Lemma refresh_rejected_consistent (t : Tick) (p : Page) :
  read_failed t = true -> consistent p -> consistent (refresh t p).
Proof.
  intros H Hc. destruct (promise_all_rejected t H) as [msg Hp].
  unfold refreshAll. rewrite Hp. exact Hc.
Qed.

End PageFacts.

(** X23: rendering is idempotent: running [applyFiltersAndRender] again,
    or receiving the same search text or the same filter value again,
    leaves the page as it is. *)
Theorem render_is_idempotent
        (Date_parse : string -> option Z) (Number_toLocaleString : Z -> string)
        (p : Page) (v : string) :
  applyFiltersAndRender Date_parse Number_toLocaleString
    (applyFiltersAndRender Date_parse Number_toLocaleString p)
  = applyFiltersAndRender Date_parse Number_toLocaleString p
  /\ on_search_input Date_parse Number_toLocaleString v
       (on_search_input Date_parse Number_toLocaleString v p)
     = on_search_input Date_parse Number_toLocaleString v p
  /\ on_form_filter_change Date_parse Number_toLocaleString v
       (on_form_filter_change Date_parse Number_toLocaleString v p)
     = on_form_filter_change Date_parse Number_toLocaleString v p.
Proof.
  split; [apply render_idempotent|].
  split.
  - destruct p as [m cs al se [ae|] [ve|] mt mc mr ms [si|] ff]; reflexivity.
  - destruct p as [m cs al se [ae|] [ve|] mt mc mr ms si [ff|]]; reflexivity.
Qed.

(** X24: a refresh is idempotent: a second tick with the same outcome of
    the two reads, successful or failed, leaves the page as the first
    one left it. *)
Theorem refresh_is_idempotent
        (Date_parse : string -> option Z)
        (Number_toLocaleString Date_toLocaleString : Z -> string)
        (t : Tick) (p : Page) :
  refreshAll Date_parse Number_toLocaleString Date_toLocaleString t
    (refreshAll Date_parse Number_toLocaleString Date_toLocaleString t p)
  = refreshAll Date_parse Number_toLocaleString Date_toLocaleString t p.
Proof.
  unfold refreshAll. destruct (promise_all t) as [[st alerts]|msg].
  - destruct p as [m cs al se ae ve mt mc mr ms si ff];
      destruct m, se, ae, ve, mt, mc, mr, ms; reflexivity.
  - destruct p as [m cs al [x|] ae ve mt mc mr ms si ff]; reflexivity.
Qed.

(** X25: the page shows what the cache holds.  A successful refresh
    makes the page consistent (the metric elements carry the counts of
    [allAlerts], the cards are [filterAlerts] of the page, the visible
    count is their number), and a failed refresh, a search input and a
    change of the form filter keep a consistent page consistent. *)
Theorem page_stays_consistent
        (Date_parse : string -> option Z)
        (Number_toLocaleString Date_toLocaleString : Z -> string)
        (t : Tick) (p : Page) (v : string) :
  (read_failed t = false ->
   page_consistent Date_parse Number_toLocaleString
     (refreshAll Date_parse Number_toLocaleString Date_toLocaleString t p))
  /\ (page_consistent Date_parse Number_toLocaleString p ->
      page_consistent Date_parse Number_toLocaleString
        (refreshAll Date_parse Number_toLocaleString Date_toLocaleString t p)
      /\ page_consistent Date_parse Number_toLocaleString
           (on_search_input Date_parse Number_toLocaleString v p)
      /\ page_consistent Date_parse Number_toLocaleString
           (on_form_filter_change Date_parse Number_toLocaleString v p)).
Proof.
  split; [apply refresh_resolved_consistent|].
  intros Hc. split; [|split].
  - destruct (read_failed t) eqn:E.
    + now apply refresh_rejected_consistent.
    + now apply refresh_resolved_consistent.
  - unfold on_search_input. apply render_consistent. apply Hc.
  - unfold on_form_filter_change. apply render_consistent. apply Hc.
Qed.

Lemma page_stays_consistent_witness :
  let t := mkTick (Resolved example_status)
             (Resolved (JsonArray [dated "485APOS" "2024-01-02";
                                   dated "S-1" "2024-01-03"])) true in
  page_consistent example_Date_parse example_toLocaleString
    (refreshAll example_Date_parse example_toLocaleString
       example_toLocaleString t example_page).
Proof.
  cbv zeta.
  refine (proj1 (page_stays_consistent example_Date_parse example_toLocaleString
           example_toLocaleString
           (mkTick (Resolved example_status)
              (Resolved (JsonArray [dated "485APOS" "2024-01-02";
                                    dated "S-1" "2024-01-03"])) true)
           example_page "") _).
  reflexivity.
Defined.

(** X26: the metrics do not depend on the order of the records, and
    each of the three counts lies between zero and the total. *)
Theorem metrics_order_independent
        (Number_toLocaleString : Z -> string) (p : Page)
        (alerts alerts' : list Alert) :
  Permutation alerts alerts' ->
  updateMetrics Number_toLocaleString alerts p
  = updateMetrics Number_toLocaleString alerts' p
  /\ 0 <= count is_crypto alerts <= Z.of_nat (List.length alerts)
  /\ 0 <= count is_regular_form alerts <= Z.of_nat (List.length alerts)
  /\ 0 <= count email_sent alerts <= Z.of_nat (List.length alerts).
Proof.
  intros H. split.
  - unfold updateMetrics.
    rewrite (Permutation_length H), !(count_perm _ _ _ H). reflexivity.
  - repeat split; apply count_le.
Qed.

Lemma metrics_order_independent_witness :
  updateMetrics example_toLocaleString
    [dated "485APOS" "2024-01-02"; dated "S-1" "2024-01-03"] example_page
  = updateMetrics example_toLocaleString
      [dated "S-1" "2024-01-03"; dated "485APOS" "2024-01-02"] example_page.
Proof.
  apply (metrics_order_independent example_toLocaleString example_page
           [dated "485APOS" "2024-01-02"; dated "S-1" "2024-01-03"]
           [dated "S-1" "2024-01-03"; dated "485APOS" "2024-01-02"]).
  apply perm_swap.
Defined.

(** X27: the mode is fixed once detected: no refresh, search input,
    filter change, start or stop changes it; a refresh, a start and a
    stop leave the search text and the filter value alone; and in static
    mode start and stop write nothing at all. *)
Theorem mode_is_fixed
        (Date_parse : string -> option Z)
        (Number_toLocaleString Date_toLocaleString : Z -> string)
        (post : fetched unit) (t : Tick) (p : Page) (v : string) :
  let refreshed :=
    refreshAll Date_parse Number_toLocaleString Date_toLocaleString t p in
  let started :=
    page_after (startListener Date_parse Number_toLocaleString
                  Date_toLocaleString post t p) p in
  let stopped :=
    page_after (stopListener Date_parse Number_toLocaleString
                  Date_toLocaleString post t p) p in
  (mode refreshed = mode p /\ mode started = mode p /\ mode stopped = mode p
   /\ mode (on_search_input Date_parse Number_toLocaleString v p) = mode p
   /\ mode (on_form_filter_change Date_parse Number_toLocaleString v p)
      = mode p)
  /\ (searchInputEl refreshed = searchInputEl p
      /\ formFilterEl refreshed = formFilterEl p
      /\ searchInputEl started = searchInputEl p
      /\ formFilterEl started = formFilterEl p
      /\ searchInputEl stopped = searchInputEl p
      /\ formFilterEl stopped = formFilterEl p)
  /\ (mode p = Static -> started = p /\ stopped = p).
Proof.
  cbv zeta.
  assert (R : mode (refreshAll Date_parse Number_toLocaleString
                      Date_toLocaleString t p) = mode p
              /\ searchInputEl (refreshAll Date_parse Number_toLocaleString
                                  Date_toLocaleString t p) = searchInputEl p
              /\ formFilterEl (refreshAll Date_parse Number_toLocaleString
                                 Date_toLocaleString t p) = formFilterEl p).
  { unfold refreshAll. destruct (promise_all t) as [[st alerts]|msg].
    - destruct p as [m cs al [se|] [ae|] ve mt mc mr ms si ff];
        destruct m; repeat split.
    - repeat split. }
  destruct R as (R1 & R2 & R3).
  assert (E : forall q, mode (applyFiltersAndRender Date_parse
                                Number_toLocaleString q) = mode q).
  { intros q. unfold applyFiltersAndRender, renderAlerts.
    cbn [with_view alertsEl]. destruct (alertsEl q); reflexivity. }
  unfold startListener, stopListener, on_search_input, on_form_filter_change.
  rewrite !E. cbn [with_inputs mode].
  destruct (mode p) eqn:M, post; cbn [page_after];
    rewrite ?R1, ?R2, ?R3, ?M; repeat split; intros; try reflexivity;
    discriminate.
Qed.

Lemma mode_is_fixed_witness :
  page_after
    (startListener example_Date_parse example_toLocaleString
       example_toLocaleString (Resolved tt)
       (mkTick (Resolved example_status) (Resolved JsonOther) true)
       (mkPage Static None [] (Some "") None None None None None None None None))
    (mkPage Static None [] (Some "") None None None None None None None None)
  = mkPage Static None [] (Some "") None None None None None None None None.
Proof.
  apply (mode_is_fixed example_Date_parse example_toLocaleString
           example_toLocaleString (Resolved tt)
           (mkTick (Resolved example_status) (Resolved JsonOther) true)
           (mkPage Static None [] (Some "") None None None None None None None None)
           "").
  reflexivity.
Defined.

(** X28: when the records read succeeds with a body that is not an
    array, the refresh empties the cache: no record is cached, no card is
    shown, and the total, where shown, is that of zero records. *)
Theorem non_array_body_empties_cache
        (Date_parse : string -> option Z)
        (Number_toLocaleString Date_toLocaleString : Z -> string)
        (t : Tick) (p : Page) (status : Status) :
  status_read t = Resolved status ->
  alerts_read t = Resolved JsonOther ->
  let p' := refreshAll Date_parse Number_toLocaleString Date_toLocaleString t p in
  allAlerts p' = []
  /\ cachedStatus p' = Some status
  /\ alertsEl p' = option_map (fun _ => []) (alertsEl p)
  /\ metricTotalEl p' = set_text (metricTotalEl p) (Number_toLocaleString 0).
Proof.
  intros Hs Ha. cbv zeta. unfold refreshAll, promise_all. rewrite Hs, Ha.
  cbn [fetchAlerts].
  destruct p as [m cs al [se|] [ae|] ve mt mc mr ms si ff];
    destruct m; repeat split.
Qed.

Lemma non_array_body_empties_cache_witness :
  allAlerts
    (refreshAll example_Date_parse example_toLocaleString example_toLocaleString
       (mkTick (Resolved example_status) (Resolved JsonOther) true)
       example_page) = [].
Proof.
  apply (non_array_body_empties_cache example_Date_parse example_toLocaleString
           example_toLocaleString
           (mkTick (Resolved example_status) (Resolved JsonOther) true)
           example_page example_status); reflexivity.
Defined.
